(** * seedbox-lite: the Slack handler's registries, sessions and notifications

    A shallow embedding of [server/handlers/slackHandler.js].  The class
    [SlackHandler] keeps three JavaScript [Map]s ([trackedTorrents],
    [torrentMetadata], [searchResults]) and talks to the outside world only
    through awaited calls ([say], [client.reactions], the torrent handlers,
    the search API).  The embedding keeps that shape:

    - the fields of the handler are a record [State]; the metadata objects
      that two maps share live in a store of their own and are named by
      reference;
    - every call that leaves the handler is answered by a [World], which
      sees the whole history and may answer with a value or with a thrown
      error;
    - a method is a [Task]: a state-and-error computation that also writes
      the history of its calls, each with the state it was made in;
    - [setTimeout] adds a timer to the state, and the event loop runs the
      timers that are due when its clock moves.

    What is left out of JavaScript: strings are strings of bytes, with the
    white space and the letter case of ASCII; progress values are integers
    and fractions are rationals; the answer of a collaborator has the
    shape the handler reads; and a handler runs from its start to its end
    before the next one starts, so the history orders the calls of one
    handler but does not interleave two. *)

From Stdlib Require Import ZArith QArith Qround String Ascii List Bool Lia.
From stdpp Require Import base option list gmap strings fin_maps.

Open Scope string_scope.
Open Scope list_scope.
Open Scope Z_scope.

(* ===================================================================== *)
(** * Strings as the handler uses them *)
(* ===================================================================== *)

Module Str.

(** The white space of [String.prototype.trim] and of [\s], restricted to
    the ASCII range: tab, line feed, vertical tab, form feed, carriage
    return and space. *)
Definition is_space (c : ascii) : bool :=
  let n := nat_of_ascii c in
  ((9 <=? n)%nat && (n <=? 13)%nat) || (n =? 32)%nat.

Definition is_upper (c : ascii) : bool :=
  let n := nat_of_ascii c in (65 <=? n)%nat && (n <=? 90)%nat.

Definition lower_ascii (c : ascii) : ascii :=
  if is_upper c then ascii_of_nat (nat_of_ascii c + 32) else c.

(** [s.toLowerCase()] on ASCII text (ids are hexadecimal digests). *)
Fixpoint toLowerCase (s : string) : string :=
  match s with
  | EmptyString => EmptyString
  | String c s' => String (lower_ascii c) (toLowerCase s')
  end.

(** [s.startsWith(p)] *)
Fixpoint startsWith (s p : string) {struct p} : bool :=
  match p with
  | EmptyString => true
  | String c p' =>
      match s with
      | String d s' => Ascii.eqb c d && startsWith s' p'
      | EmptyString => false
      end
  end.

(** [s.includes(sub)] *)
Fixpoint includes (s sub : string) : bool :=
  startsWith s sub ||
  match s with
  | EmptyString => false
  | String _ s' => includes s' sub
  end.

Fixpoint trimStart (s : string) : string :=
  match s with
  | String c s' => if is_space c then trimStart s' else s
  | EmptyString => EmptyString
  end.

(** Drops the trailing white space: a character is kept when something
    that is kept follows it, or when it is not white space itself. *)
Fixpoint trimEnd (s : string) : string :=
  match s with
  | EmptyString => EmptyString
  | String c s' =>
      match trimEnd s' with
      | EmptyString => if is_space c then EmptyString else String c EmptyString
      | r => String c r
      end
  end.

(** [s.trim()] *)
Definition trim (s : string) : string := trimEnd (trimStart s).

(** [s.split(/\s+/)]: the pieces between maximal runs of white space.
    [cur] is the piece being read (reversed), [in_gap] tells that the
    last character read was white space. *)
Fixpoint split_go (s : string) (cur : string) (in_gap : bool) : list string :=
  match s with
  | EmptyString => [cur]
  | String c s' =>
      if is_space c
      then (if in_gap then split_go s' cur true
            else cur :: split_go s' EmptyString true)
      else split_go s' (cur ++ String c EmptyString)%string false
  end.

Definition split_ws (s : string) : list string := split_go s EmptyString false.

(** [parts.join(' ')] *)
Fixpoint join (parts : list string) : string :=
  match parts with
  | [] => EmptyString
  | [p] => p
  | p :: ps => (p ++ " " ++ join ps)%string
  end.

(** [s.substring(0, n)] *)
Definition take (n : nat) (s : string) : string := String.substring 0 n s.

(** JavaScript truthiness of a string that may be [undefined]. *)
Definition truthy (o : option string) : bool :=
  match o with
  | Some s => negb (String.eqb s EmptyString)
  | None => false
  end.

Definition nonempty (s : string) : bool := negb (String.eqb s EmptyString).

End Str.

(* ===================================================================== *)
(** * Regular expressions of the message listeners *)
(* ===================================================================== *)

(** The listeners are registered with regular expressions and read capture
    groups from them.  This is a backtracking matcher in the order of the
    ECMAScript one: quantifiers are greedy, alternatives are tried from the
    left, and a group that takes no part in the match is left undefined.
    All the patterns of the file start with [^], so matching is anchored
    at the start of the text. *)
Module Regex.

Inductive re : Type :=
| Eps                            (* the empty pattern *)
| Chr (p : ascii -> bool)        (* a character class *)
| Seq (r1 r2 : re)
| Alt (r1 r2 : re)               (* r1|r2 *)
| Opt (r : re)                   (* r? *)
| Star (r : re)                  (* r* *)
| Group (n : nat) (r : re)       (* the n-th capturing group *)
| Eos.                           (* $ without the m flag *)

Definition Plus (r : re) : re := Seq r (Star r).

Definition captures := list (nat * string).

Definition capture (n : nat) (cs : captures) : option string :=
  snd <$> List.find (fun e => Nat.eqb (fst e) n) cs.

Definition cont := string -> captures -> option captures.

(** [run r s cs k]: match [r] at the front of [s], then go on with [k] on
    the rest; on failure of [k] the next way of matching [r] is tried. *)
Fixpoint run (r : re) : string -> captures -> cont -> option captures :=
  match r with
  | Eps => fun s cs k => k s cs
  | Chr p => fun s cs k =>
      match s with
      | String c s' => if p c then k s' cs else None
      | EmptyString => None
      end
  | Seq r1 r2 => fun s cs k =>
      run r1 s cs (fun s' cs' => run r2 s' cs' k)
  | Alt r1 r2 => fun s cs k =>
      match run r1 s cs k with
      | Some out => Some out
      | None => run r2 s cs k
      end
  | Opt r1 => fun s cs k =>
      match run r1 s cs k with
      | Some out => Some out
      | None => k s cs
      end
  | Star r1 => fun s cs k =>
      (* [n] bounds the iterations left: each one consumes a character *)
      (fix star (n : nat) (s : string) (cs : captures) (k : cont) : option captures :=
        match n with
        | O => k s cs
        | S n' =>
            match run r1 s cs (fun s' cs' =>
                    if (String.length s' <? String.length s)%nat
                    then star n' s' cs' k else None) with
            | Some out => Some out
            | None => k s cs
            end
        end) (String.length s) s cs k
  | Group g r1 => fun s cs k =>
      run r1 s cs (fun s' cs' =>
        k s' ((g, Str.take (String.length s - String.length s')%nat s) :: cs'))
  | Eos => fun s cs k =>
      match s with
      | EmptyString => k s cs
      | String _ _ => None
      end
  end.

(** [text.match(/^r/)]: the captures, or [None] for [null]. *)
Definition exec (r : re) (s : string) : option captures :=
  run r s [] (fun _ cs => Some cs).

(** Character classes and literals. *)
Definition digit_from (lo : nat) : re :=
  Chr (fun c => let n := nat_of_ascii c in (48 + lo <=? n)%nat && (n <=? 57)%nat).

Definition space : re := Chr Str.is_space.

(** [.]: any character but a line terminator. *)
Definition dot : re :=
  Chr (fun c => let n := nat_of_ascii c in negb ((n =? 10)%nat || (n =? 13)%nat)).

(** A word under the [i] flag; the word is given in lower case. *)
Fixpoint word_i (w : string) : re :=
  match w with
  | EmptyString => Eps
  | String c w' => Seq (Chr (fun x => Ascii.eqb (Str.lower_ascii x) c)) (word_i w')
  end.

(** [/^[1-9][0-9]?$/] *)
Definition numeric_reply : re :=
  Seq (digit_from 1) (Seq (Opt (digit_from 0)) Eos).

(** [(\s+(movie|tv|general))?], groups 1 and 2 *)
Definition kind_part : re :=
  Opt (Group 1 (Seq (Plus space)
                    (Group 2 (Alt (word_i "movie") (Alt (word_i "tv") (word_i "general")))))).

(** The pattern the "add" listener is registered with, under the [i]
    flag: [^add], the optional kind part, then optionally group 3, white
    space followed by any run of [.] (possibly empty), then [$]. *)
Definition add_listener : re :=
  Seq (word_i "add")
      (Seq kind_part (Seq (Opt (Group 3 (Seq (Plus space) (Star dot)))) Eos)).

(** The pattern the handler reads its arguments with: as above, but
    group 3 is white space followed by group 4, a non-empty run of [.]. *)
Definition add_arguments : re :=
  Seq (word_i "add")
      (Seq kind_part (Seq (Opt (Group 3 (Seq (Plus space) (Group 4 (Plus dot))))) Eos)).

(** [parseInt] of a text that matched [numeric_reply]. *)
Fixpoint parse_digits (acc : nat) (s : string) : nat :=
  match s with
  | EmptyString => acc
  | String c s' => parse_digits (10 * acc + (nat_of_ascii c - 48))%nat s'
  end.

End Regex.

(* ===================================================================== *)
(** * Data *)
(* ===================================================================== *)

(** A reference to a metadata object.  The object built by [/torrent] is
    stored in [torrentMetadata] and, as the [metadata] field, in
    [trackedTorrents]: both maps hold the same object. *)
Definition ref := nat.

(** The [metadata] object of [/torrent]. *)
Record Metadata : Type := mkMetadata {
  md_infoHash : string;
  md_channel : string;
  md_threadTs : string;
  md_messageTs : string;
  md_type : string;            (* 'movie', 'tv' or 'unknown' *)
  md_destination : string;
  md_name : string;
  md_addedBy : string;
  md_addedByName : string;
  md_addedAt : Z               (* the clock when the job was added *)
}.

(** An entry of [trackedTorrents]. *)
Record Tracked : Type := mkTracked {
  progress : Z;
  notified : bool;
  metadata : ref
}.

(** One result of the search provider; [sr_ref] stands for the fields the
    provider needs to find the link again. *)
Record SearchResult : Type := mkSearchResult {
  sr_title : string;
  sr_size : option string;
  sr_seeds : option string;
  sr_peers : option string;
  sr_provider : option string;
  sr_ref : string
}.

(** An entry of [searchResults].  The map holds two shapes of object, told
    apart only by the fields they carry: the search listing has [results]
    and [query], the retrieved magnet has [magnetLink] and [torrentTitle]. *)
Record SessionData : Type := mkSessionData {
  results : option (list SearchResult);
  query : option string;
  magnetLink : option string;
  torrentTitle : option string;
  channel : string;
  userId : string
}.

(** The payload of a slash command. *)
Record Command : Type := mkCommand {
  c_text : string;
  c_channel_id : string;
  c_thread_ts : option string;
  c_user_id : string;
  c_user_name : string
}.

(** A message event. *)
Record Message : Type := mkMessage {
  m_text : string;
  m_ts : string;
  m_thread_ts : option string;
  m_channel : string;
  m_user : string;
  m_bot_id : option string
}.

(** What the torrent handler resolves to. *)
Record AddResult : Type := mkAddResult {
  r_infoHash : string;
  r_name : option string;
  r_progress : option Z;
  r_files : option nat;        (* result.files?.length *)
  r_status : option string
}.

(** What the move handler resolves to. *)
Record MoveResult : Type := mkMoveResult {
  status : string;
  movedFiles : option nat;
  totalFiles : option nat
}.

(** A pending [setTimeout]: every callback of the file deletes one key of
    [searchResults]. *)
Record Timer : Type := mkTimer {
  deadline : Z;
  victim : string
}.

(** The messages the handler sends, by the data their text is built from. *)
Inductive MoveHeader : Type :=
| FilesMoved | FilesPartiallyMoved | MoveScheduled | LocationUpdated.

Inductive MoveNote : Type :=
| NoteMoved (moved total : option nat)
| NotePartial (moved total : option nat)
| NoteScheduled
| NoteMetadataOnly
| NoNote.

Inductive Reply : Type :=
(* /torrent *)
| InvalidMagnetLink
| InvalidType
| AddingTorrent (name : string)
| TorrentAdded (r : AddResult) (name : string) (kind : option string) (destination : string)
| ErrorAdding (e : string)
(* /torrent-location *)
| ProvideHash
| NoTorrentFound (hash : string)
| StorageLocation (md : Metadata) (matchedHash : string)
| ErrorLocation (e : string)
(* /torrent-move *)
| InvalidMoveUsage
| NoTorrentToMove (hash : string)
| MoveReport (header : MoveHeader) (name oldDestination newDestination hash8 : string)
             (note : MoveNote)
| ErrorMoving (e : string)
(* /torrent-search *)
| ProvideQuery
| Searching (q : string)
| NoTorrentsFound (q : string)
| SearchListing (q : string) (rs : list SearchResult)
| ErrorSearching (e : string)
(* number replies *)
| InvalidSelection (count : nat)
| GettingMagnet (title : string)
| MagnetFailed (title : string)
| MagnetRetrieved (r : SearchResult) (link60 : string)
(* "add" replies *)
| AddingFromSearch (title : option string) (kind destination : option string)
| HandlerNotConfigured
| AddedFromSearch (name : option string) (hash8 : string)
(* messages with a magnet link *)
| AddedTorrent (name : string)
| FailedToAdd (e : string)
(* completion *)
| DownloadComplete (md : Metadata).

(** The calls that leave the handler.  [EnterNotification] is no call to
    the outside: it marks that [sendCompletionNotification] was invoked. *)
Inductive Call : Type :=
| Ack
| Say (body : Reply) (thread_ts : option string)
| ReactionsAdd (channel ts name : string)
| ReactionsRemove (channel ts name : string)
| PostMessage (channel thread_ts : string) (body : Reply)
| TorrentHandler (magnet : string) (kind destination : option string)
| TorrentMoveHandler (hash destination : string)
| SearchApi (q : string)
| GetMagnet (r : SearchResult)
| ConsoleError (label : string)
| SetTimeout (key : string) (ms : Z)     (* setTimeout(() => searchResults.delete(key), ms) *)
| EnterNotification (infoHash : string).

(** The fields of a [SlackHandler].  [client], [torrentHandler] and
    [torrentMoveHandler] only tell whether the field is set; what the
    collaborator answers is the [World]'s business. *)
Record State : Type := mkState {
  isEnabled : bool;
  client : bool;
  torrentHandler : bool;
  torrentMoveHandler : bool;
  objects : list Metadata;                       (* the metadata objects, by reference *)
  torrentMetadata : list (string * ref);         (* a Map, in insertion order *)
  trackedTorrents : gmap string Tracked;         (* a Map; never iterated *)
  searchResults : list (string * SessionData);   (* a Map, in insertion order *)
  timers : list Timer;
  clock : Z
}.

(** A call, with the state it was made in. *)
Record Event : Type := mkEvent {
  call : Call;
  snapshot : State
}.

Definition Trace := list Event.

Inductive Result (A : Type) : Type :=
| Returned (a : A)
| Thrown (e : string).
Arguments Returned {A} a.
Arguments Thrown {A} e.

(** The collaborators.  Each answer may depend on everything that happened
    before, and may be a thrown error. *)
Record World : Type := mkWorld {
  w_ack : Trace -> Result unit;
  w_say : Trace -> Reply -> option string -> Result string;   (* the [ts] of the message sent *)
  w_reactions : Trace -> Call -> Result unit;
  w_postMessage : Trace -> string -> string -> Reply -> Result unit;
  w_torrentHandler : Trace -> string -> option string -> option string -> Result AddResult;
  w_torrentMoveHandler : Trace -> string -> string -> Result (option MoveResult);
  w_search : Trace -> string -> Result (option (list SearchResult));
  w_getMagnet : Trace -> SearchResult -> Result (option string)
}.

(* ===================================================================== *)
(** * JavaScript Maps whose order is observed *)
(* ===================================================================== *)

Module JsMap.
Section ops.
Context {V : Type}.

(** [map.get(k)] *)
Fixpoint get (k : string) (m : list (string * V)) : option V :=
  match m with
  | [] => None
  | (k', v) :: m' => if String.eqb k' k then Some v else get k m'
  end.

(** [map.set(k, v)]: an existing key keeps its place, a new one goes last. *)
Fixpoint set (k : string) (v : V) (m : list (string * V)) : list (string * V) :=
  match m with
  | [] => [(k, v)]
  | (k', v') :: m' =>
      if String.eqb k' k then (k', v) :: m' else (k', v') :: set k v m'
  end.

(** [map.delete(k)] *)
Fixpoint delete (k : string) (m : list (string * V)) : list (string * V) :=
  match m with
  | [] => []
  | (k', v') :: m' =>
      if String.eqb k' k then delete k m' else (k', v') :: delete k m'
  end.

(** [for (const [k, v] of map.entries()) if (p(k, v)) { found = ...; break }] *)
Fixpoint first (p : string -> V -> bool) (m : list (string * V)) : option (string * V) :=
  match m with
  | [] => None
  | (k, v) :: m' => if p k v then Some (k, v) else first p m'
  end.

End ops.
End JsMap.

(* ===================================================================== *)
(** * Tasks *)
(* ===================================================================== *)

(** An [async] method: it reads the world, changes the state, extends the
    history, and returns or throws. *)
Definition Task (A : Type) : Type :=
  World -> State -> Trace -> State * Trace * Result A.

Definition ret {A} (a : A) : Task A := fun _ st tr => (st, tr, Returned a).

Definition throw {A} (e : string) : Task A := fun _ st tr => (st, tr, Thrown e).

Definition bind {A B} (t : Task A) (k : A -> Task B) : Task B :=
  fun W st tr =>
    match t W st tr with
    | (st', tr', Returned a) => k a W st' tr'
    | (st', tr', Thrown e) => (st', tr', Thrown e)
    end.

#[global] Instance task_ret : MRet Task := @ret.
#[global] Instance task_bind : MBind Task := fun A B k t => bind t k.

(** [try { body } catch (error) { handler }] *)
Definition try_catch {A} (body : Task A) (handler : string -> Task A) : Task A :=
  fun W st tr =>
    match body W st tr with
    | (st', tr', Returned a) => (st', tr', Returned a)
    | (st', tr', Thrown e) => handler e W st' tr'
    end.

Definition get_state : Task State := fun _ st tr => (st, tr, Returned st).

Definition modify (f : State -> State) : Task unit :=
  fun _ st tr => (f st, tr, Returned tt).

(** Writes a call into the history and asks the world for its answer. *)
Definition perform {A} (c : Call) (answer : World -> Trace -> Result A) : Task A :=
  fun W st tr => (st, tr ++ [mkEvent c st], answer W tr).

Definition ack : Task unit := perform Ack w_ack.

Definition say (body : Reply) (thread_ts : option string) : Task string :=
  perform (Say body thread_ts) (fun W tr => w_say W tr body thread_ts).

Definition reactions_add (channel ts name : string) : Task unit :=
  perform (ReactionsAdd channel ts name)
          (fun W tr => w_reactions W tr (ReactionsAdd channel ts name)).

Definition reactions_remove (channel ts name : string) : Task unit :=
  perform (ReactionsRemove channel ts name)
          (fun W tr => w_reactions W tr (ReactionsRemove channel ts name)).

Definition postMessage (channel thread_ts : string) (body : Reply) : Task unit :=
  perform (PostMessage channel thread_ts body)
          (fun W tr => w_postMessage W tr channel thread_ts body).

Definition call_torrentHandler (magnet : string) (kind destination : option string)
  : Task AddResult :=
  perform (TorrentHandler magnet kind destination)
          (fun W tr => w_torrentHandler W tr magnet kind destination).

Definition call_torrentMoveHandler (hash destination : string) : Task (option MoveResult) :=
  perform (TorrentMoveHandler hash destination)
          (fun W tr => w_torrentMoveHandler W tr hash destination).

Definition search_api (q : string) : Task (option (list SearchResult)) :=
  perform (SearchApi q) (fun W tr => w_search W tr q).

Definition getMagnet (r : SearchResult) : Task (option string) :=
  perform (GetMagnet r) (fun W tr => w_getMagnet W tr r).

(** [console.error] cannot fail. *)
Definition console_error (label : string) : Task unit :=
  perform (ConsoleError label) (fun _ _ => Returned tt).

Definition mark_notification (infoHash : string) : Task unit :=
  perform (EnterNotification infoHash) (fun _ _ => Returned tt).

(** Field updates. *)
Definition with_trackedTorrents (f : gmap string Tracked -> gmap string Tracked)
  (st : State) : State :=
  mkState (isEnabled st) (client st) (torrentHandler st) (torrentMoveHandler st)
          (objects st) (torrentMetadata st) (f (trackedTorrents st))
          (searchResults st) (timers st) (clock st).

Definition with_torrentMetadata (f : list (string * ref) -> list (string * ref))
  (st : State) : State :=
  mkState (isEnabled st) (client st) (torrentHandler st) (torrentMoveHandler st)
          (objects st) (f (torrentMetadata st)) (trackedTorrents st)
          (searchResults st) (timers st) (clock st).

Definition with_objects (f : list Metadata -> list Metadata) (st : State) : State :=
  mkState (isEnabled st) (client st) (torrentHandler st) (torrentMoveHandler st)
          (f (objects st)) (torrentMetadata st) (trackedTorrents st)
          (searchResults st) (timers st) (clock st).

Definition with_searchResults
  (f : list (string * SessionData) -> list (string * SessionData)) (st : State) : State :=
  mkState (isEnabled st) (client st) (torrentHandler st) (torrentMoveHandler st)
          (objects st) (torrentMetadata st) (trackedTorrents st)
          (f (searchResults st)) (timers st) (clock st).

Definition with_timers (f : list Timer -> list Timer) (st : State) : State :=
  mkState (isEnabled st) (client st) (torrentHandler st) (torrentMoveHandler st)
          (objects st) (torrentMetadata st) (trackedTorrents st)
          (searchResults st) (f (timers st)) (clock st).

Definition with_clock (t : Z) (st : State) : State :=
  mkState (isEnabled st) (client st) (torrentHandler st) (torrentMoveHandler st)
          (objects st) (torrentMetadata st) (trackedTorrents st)
          (searchResults st) (timers st) t.

(** [for (const x of xs) { await f(x) }] *)
Fixpoint for_each {A} (f : A -> Task unit) (xs : list A) : Task unit :=
  match xs with
  | [] => ret tt
  | x :: xs' => f x ;; for_each f xs'
  end.

(* ===================================================================== *)
(** * Progress and the completion notification *)
(* ===================================================================== *)

Definition type_emoji (kind : string) : string :=
  if String.eqb kind "movie" then "clapper"
  else if String.eqb kind "tv" then "tv" else "package".

(** The body of [sendCompletionNotification(infoHash)].  The three
    reactions are each in a [try] of their own; the message is under the
    outer [try] only. *)
Definition notification_body (infoHash : string) : Task unit :=
  st ← get_state ;
  if negb (isEnabled st) || negb (client st) then ret tt
  else
    try_catch
      (match trackedTorrents st !! infoHash with
       | None => ret tt
       | Some tracked =>
           match objects st !! metadata tracked with
           | None => throw "TypeError"      (* no object behind the reference *)
           | Some md =>
               try_catch
                 (reactions_remove (md_channel md) (md_messageTs md) "hourglass_flowing_sand")
                 (fun _ => ret tt) ;;
               try_catch
                 (reactions_add (md_channel md) (md_messageTs md) "white_check_mark")
                 (fun _ => console_error "Failed to add completion reaction") ;;
               try_catch
                 (reactions_add (md_channel md) (md_messageTs md) (type_emoji (md_type md)))
                 (fun _ => console_error "Failed to add type reaction") ;;
               postMessage (md_channel md) (md_threadTs md) (DownloadComplete md)
           end
       end)
      (fun _ => console_error "Error sending completion notification").

(** [sendCompletionNotification(infoHash)]: the invocation is written into
    the history, then the body runs. *)
Definition sendCompletionNotification (infoHash : string) : Task unit :=
  mark_notification infoHash ;; notification_body infoHash.

(** [progress >= 100 && oldProgress < 100 && !tracked.notified] *)
Definition just_completed (newProgress oldProgress : Z) (wasNotified : bool) : bool :=
  (100 <=? newProgress) && (oldProgress <? 100) && negb wasNotified.

(** [updateTorrentProgress(infoHash, progress)].  [tracked] is the object
    in the map, so the assignments to its fields are writes to the entry;
    the closing [set] stores that same object again. *)
Definition updateTorrentProgress (infoHash : string) (newProgress : Z) : Task unit :=
  st ← get_state ;
  if negb (isEnabled st) then ret tt
  else
    match trackedTorrents st !! infoHash with
    | None => ret tt
    | Some tracked =>
        let oldProgress := progress tracked in
        let tracked1 := mkTracked newProgress (notified tracked) (metadata tracked) in
        modify (with_trackedTorrents <[infoHash := tracked1]>) ;;
        if just_completed newProgress oldProgress (notified tracked)
        then
          let tracked2 := mkTracked newProgress true (metadata tracked) in
          modify (with_trackedTorrents <[infoHash := tracked2]>) ;;
          sendCompletionNotification infoHash ;;
          modify (with_trackedTorrents <[infoHash := tracked2]>)
        else
          modify (with_trackedTorrents <[infoHash := tracked1]>)
    end.

(** An element of the list given to [monitorProgress]. *)
Record TorrentInfo : Type := mkTorrentInfo {
  t_infoHash : string;
  t_progress : option Q        (* a fraction; may be missing *)
}.

(** [Math.round]: the nearest integer, a tie going up. *)
Definition math_round (x : Q) : Z := Qfloor (Qplus x (Qmake 1 2)).

Section Monitor.

(** The product [x * 100] as the number type of the runtime computes it;
    nothing is assumed of it. *)
Variable times100 : Q -> Q.

(** [(torrent.progress || 0)] *)
Definition progress_or_zero (t : TorrentInfo) : Q :=
  match t_progress t with
  | Some x => x
  | None => Qmake 0 1
  end.

Definition percentage (t : TorrentInfo) : Z :=
  math_round (times100 (progress_or_zero t)).

(** [monitorProgress(torrents)] *)
Definition monitorProgress (torrents : list TorrentInfo) : Task unit :=
  st ← get_state ;
  if negb (isEnabled st) then ret tt
  else for_each (fun torrent => updateTorrentProgress (t_infoHash torrent) (percentage torrent))
                torrents.

End Monitor.

(* ===================================================================== *)
(** * Slash commands *)
(* ===================================================================== *)

(** Unanchored search with a pattern: the leftmost start that matches. *)
Fixpoint regex_search (r : Regex.re) (s : string) : option Regex.captures :=
  match Regex.exec r s with
  | Some cs => Some cs
  | None =>
      match s with
      | EmptyString => None
      | String _ s' => regex_search r s'
      end
  end.

Definition is_alnum (c : ascii) : bool :=
  let n := nat_of_ascii c in
  ((48 <=? n)%nat && (n <=? 57)%nat) || ((65 <=? n)%nat && (n <=? 90)%nat)
  || ((97 <=? n)%nat && (n <=? 122)%nat).

Definition exact (c : ascii) : Regex.re := Regex.Chr (Ascii.eqb c).

(** [/&dn=([^&]+)/] *)
Definition dn_pattern : Regex.re :=
  Regex.Seq (exact "&") (Regex.Seq (exact "d") (Regex.Seq (exact "n") (Regex.Seq (exact "=")
    (Regex.Group 1 (Regex.Plus (Regex.Chr (fun c => negb (Ascii.eqb c "&")))))))).

(** [/btih:([a-zA-Z0-9]+)/i] *)
Definition btih_pattern : Regex.re :=
  Regex.Seq (Regex.word_i "btih:") (Regex.Group 1 (Regex.Plus (Regex.Chr is_alnum))).

Fixpoint plus_to_space (s : string) : string :=
  match s with
  | EmptyString => EmptyString
  | String c s' => String (if Ascii.eqb c "+" then " "%char else c) (plus_to_space s')
  end.

Section Commands.

(** [decodeURIComponent] of the runtime; [None] when it throws. *)
Variable decodeURIComponent : string -> option string.

(** [extractTorrentName(magnetLink)] *)
Definition extractTorrentName (magnetLink : string) : string :=
  match regex_search dn_pattern magnetLink ≫= Regex.capture 1 with
  | Some raw =>
      match decodeURIComponent (plus_to_space raw) with
      | Some name => name
      | None => "Unknown Torrent"
      end
  | None =>
      match regex_search btih_pattern magnetLink ≫= Regex.capture 1 with
      | Some h => ("Torrent " ++ Str.take 8 h)%string
      | None => "Unknown Torrent"
      end
  end.

(** [isValidMagnetLink(link)] *)
Definition isValidMagnetLink (link : string) : bool :=
  Str.nonempty link
  && Str.startsWith (Str.trim link) "magnet:?"
  && Str.includes link "xt=urn:btih:".

(** The default of [metadata.destination]. *)
Definition default_destination (torrentType : option string) : string :=
  match torrentType with
  | Some t =>
      if String.eqb t "movie" then "/app/downloads/movies"
      else if String.eqb t "tv" then "/app/downloads/tv"
      else "/downloads"
  | None => "/downloads"
  end.

(** [a || b] on strings *)
Definition or_else (a : string) (b : string) : string :=
  if Str.nonempty a then a else b.

Definition or_else_opt (a : option string) (b : string) : string :=
  match a with
  | Some s => or_else s b
  | None => b
  end.

(** Lines 149-168: the metadata object is built once and put into both
    maps. *)
Definition register (command : Command) (initialTs : string) (torrentType : option string)
  (destination torrentName : string) (result : AddResult) : Task unit :=
  st ← get_state ;
  let md := mkMetadata (r_infoHash result) (c_channel_id command)
              (or_else_opt (c_thread_ts command) initialTs) initialTs
              (or_else_opt torrentType "unknown")
              (or_else destination (default_destination torrentType))
              (or_else_opt (r_name result) torrentName)
              (c_user_id command) (c_user_name command) (clock st) in
  let r := length (objects st) in
  modify (with_objects (fun os => os ++ [md])) ;;
  modify (with_torrentMetadata (JsMap.set (r_infoHash result) r)) ;;
  modify (with_trackedTorrents
            <[r_infoHash result :=
                mkTracked (match r_progress result with
                           | Some p => p     (* [0 || 0] is 0 as well *)
                           | None => 0
                           end) false r]>).

(** [/torrent <magnet-link> [movie|tv] [destination]] *)
Definition torrent_command (command : Command) : Task unit :=
  ack ;;
  try_catch
    (let parts := Str.split_ws (Str.trim (c_text command)) in
     let magnetLink := List.hd EmptyString parts in
     let torrentType := Str.toLowerCase <$> List.nth_error parts 1 in
     let destination := Str.join (List.skipn 2 parts) in
     if negb (isValidMagnetLink magnetLink)
     then say InvalidMagnetLink (c_thread_ts command) ;; ret tt
     else if Str.truthy torrentType
             && negb (bool_decide (torrentType = Some "movie")
                      || bool_decide (torrentType = Some "tv"))
     then say InvalidType (c_thread_ts command) ;; ret tt
     else
       let torrentName := extractTorrentName magnetLink in
       initialTs ← say (AddingTorrent torrentName) (c_thread_ts command) ;
       st ← get_state ;
       if negb (torrentHandler st) then throw "Torrent handler not configured"
       else
         result ← call_torrentHandler magnetLink torrentType (Some destination) ;
         register command initialTs torrentType destination torrentName result ;;
         try_catch
           (reactions_add (c_channel_id command) initialTs "hourglass_flowing_sand")
           (fun _ => console_error "Failed to add processing reaction") ;;
         say (TorrentAdded result (or_else_opt (r_name result) torrentName) torrentType
                (or_else destination (default_destination torrentType)))
             (c_thread_ts command) ;;
         ret tt)
    (fun e =>
       console_error "Error handling /torrent command" ;;
       (* [initialMsg] is declared inside the [try] block: naming it here
          throws before [reactions.add] is called, and the inner [catch]
          logs that *)
       console_error "Failed to add error reaction" ;;
       say (ErrorAdding e) (c_thread_ts command) ;;
       ret tt).

End Commands.

(** The partial-hash loop of [/torrent-location] and [/torrent-move]:
    [matchedHash] stays [null] ([None]) when no entry matches. *)
Definition resolve (registry : list (string * ref)) (hash : string) : option string :=
  fst <$> JsMap.first
            (fun infoHash _ =>
               Str.startsWith (Str.toLowerCase infoHash) (Str.toLowerCase hash))
            registry.

(** What [torrentMetadata.get(matchedHash)] refers to. *)
Definition metadata_of (st : State) (infoHash : string) : option Metadata :=
  JsMap.get infoHash (torrentMetadata st) ≫= fun r => objects st !! r.

(** [/torrent-location <hash>] *)
Definition torrent_location_command (command : Command) : Task unit :=
  ack ;;
  try_catch
    (let hash := Str.trim (c_text command) in
     if negb (Str.nonempty hash)
     then say ProvideHash (c_thread_ts command) ;; ret tt
     else
       st ← get_state ;
       let matchedHash := resolve (torrentMetadata st) hash in
       if negb (Str.truthy matchedHash)
       then say (NoTorrentFound hash) (c_thread_ts command) ;; ret tt
       else
         match matchedHash ≫= metadata_of st with
         | None => throw "TypeError"
         | Some md =>
             say (StorageLocation md (default EmptyString matchedHash))
                 (c_thread_ts command) ;;
             ret tt
         end)
    (fun e =>
       console_error "Error handling /torrent-location command" ;;
       say (ErrorLocation e) (c_thread_ts command) ;;
       ret tt).

Definition set_destination (newDestination : string) (md : Metadata) : Metadata :=
  mkMetadata (md_infoHash md) (md_channel md) (md_threadTs md) (md_messageTs md)
             (md_type md) newDestination (md_name md) (md_addedBy md)
             (md_addedByName md) (md_addedAt md).

Definition status_is (moveResult : option MoveResult) (s : string) : bool :=
  match moveResult with
  | Some r => String.eqb (status r) s
  | None => false
  end.

Definition move_header (moveResult : option MoveResult) : MoveHeader :=
  if status_is moveResult "complete" then FilesMoved
  else if status_is moveResult "partial" then FilesPartiallyMoved
  else if status_is moveResult "scheduled" then MoveScheduled
  else LocationUpdated.

(** Truthiness of a count that may be missing. *)
Definition truthy_count (n : option nat) : bool :=
  match n with
  | Some (S _) => true
  | _ => false
  end.

Definition move_note (moveResult : option MoveResult) : MoveNote :=
  match moveResult with
  | Some r =>
      if String.eqb (status r) "complete" && truthy_count (movedFiles r)
      then NoteMoved (movedFiles r) (totalFiles r)
      else if String.eqb (status r) "partial" then NotePartial (movedFiles r) (totalFiles r)
      else if String.eqb (status r) "scheduled" then NoteScheduled
      else NoNote
  | None => NoteMetadataOnly
  end.

(** [/torrent-move <hash> <new-destination>] *)
Definition torrent_move_command (command : Command) : Task unit :=
  ack ;;
  try_catch
    (let parts := Str.split_ws (Str.trim (c_text command)) in
     let hash := List.hd EmptyString parts in
     let newDestination := Str.join (List.skipn 1 parts) in
     if negb (Str.nonempty hash) || negb (Str.nonempty newDestination)
     then say InvalidMoveUsage (c_thread_ts command) ;; ret tt
     else
       st ← get_state ;
       let matchedHash := resolve (torrentMetadata st) hash in
       if negb (Str.truthy matchedHash)
       then say (NoTorrentToMove hash) (c_thread_ts command) ;; ret tt
       else
         let matched := default EmptyString matchedHash in
         match JsMap.get matched (torrentMetadata st) with
         | None => throw "TypeError"
         | Some r =>
             match objects st !! r with
             | None => throw "TypeError"
             | Some md =>
                 let oldDestination := md_destination md in
                 (* metadata.destination = newDestination *)
                 modify (with_objects <[r := set_destination newDestination md]>) ;;
                 modify (with_torrentMetadata (JsMap.set matched r)) ;;
                 moveResult ←
                   (if torrentMoveHandler st
                    then try_catch (call_torrentMoveHandler matched newDestination)
                                   (fun _ => console_error "Move handler error" ;; ret None)
                    else ret None) ;
                 say (MoveReport (move_header moveResult) (md_name md) oldDestination
                        newDestination (Str.take 8 matched) (move_note moveResult))
                     (c_thread_ts command) ;;
                 ret tt
             end
         end)
    (fun e =>
       console_error "Error handling /torrent-move command" ;;
       say (ErrorMoving e) (c_thread_ts command) ;;
       ret tt).

Definition search_ttl : Z := 10 * 60 * 1000.
Definition magnet_ttl : Z := 5 * 60 * 1000.

(** [setTimeout(() => this.searchResults.delete(key), ms)]: the call is
    written into the history and the timer is pending from now on. *)
Definition set_timeout (key : string) (ms : Z) : Task unit :=
  modify (fun st => with_timers (fun ts => ts ++ [mkTimer (clock st + ms) key]) st) ;;
  perform (SetTimeout key ms) (fun _ _ => Returned tt).

(** [searchResults.set(key, data); setTimeout(() => searchResults.delete(key), ttl)] *)
Definition store_session (key : string) (data : SessionData) (ttl : Z) : Task unit :=
  modify (with_searchResults (JsMap.set key data)) ;;
  set_timeout key ttl.

(** [/torrent-search <query>] *)
Definition torrent_search_command (command : Command) : Task unit :=
  ack ;;
  try_catch
    (let q := Str.trim (c_text command) in
     if negb (Str.nonempty q)
     then say ProvideQuery (c_thread_ts command) ;; ret tt
     else
       say (Searching q) (c_thread_ts command) ;;
       found ← search_api q ;
       match found with
       | None | Some [] => say (NoTorrentsFound q) (c_thread_ts command) ;; ret tt
       | Some rs =>
           responseTs ← say (SearchListing q rs) (c_thread_ts command) ;
           store_session responseTs
             (mkSessionData (Some rs) (Some q) None None
                            (c_channel_id command) (c_user_id command))
             search_ttl
       end)
    (fun e =>
       console_error "Error handling /torrent-search command" ;;
       say (ErrorSearching e) (c_thread_ts command) ;;
       ret tt).

(* ===================================================================== *)
(** * Message listeners *)
(* ===================================================================== *)

(** [app.message(pattern, listener)] runs the listener on the messages
    whose text matches the pattern. *)
Definition matches (r : Regex.re) (text : string) : bool :=
  bool_decide (is_Some (Regex.exec r text)).

(** The number a reply stands for: [parseInt(message.text.trim())]. *)
Definition ordinal (text : string) : nat := Regex.parse_digits 0 (Str.trim text).

(** What the listener for number replies does once it holds
    [selectedTorrent]: it asks the provider for the link and, when there
    is one, stores it under the id of the reply for five minutes. *)
Definition retrieve_magnet (message : Message) (selectedTorrent : SearchResult) : Task unit :=
  say (GettingMagnet (sr_title selectedTorrent)) (m_thread_ts message) ;;
  link ← getMagnet selectedTorrent ;
  if negb (Str.truthy link)
  then say (MagnetFailed (sr_title selectedTorrent)) (m_thread_ts message) ;; ret tt
  else
    say (MagnetRetrieved selectedTorrent (Str.take 60 (default EmptyString link)))
        (m_thread_ts message) ;;
    store_session (m_ts message)
      (mkSessionData None None link (Some (sr_title selectedTorrent))
                     (m_channel message) (m_user message))
      magnet_ttl.

(** The [catch] block of the listener for number replies. *)
Definition selection_failed (e : string) : Task unit :=
  console_error "Error handling search selection".

(** The listener for number replies to a search listing. *)
Definition number_reply_listener (message : Message) : Task unit :=
  if negb (matches Regex.numeric_reply (m_text message)) then ret tt
  else
    try_catch
      (if Str.truthy (m_bot_id message) then ret tt
       else if negb (Str.truthy (m_thread_ts message)) then ret tt
       else
         st ← get_state ;
         match JsMap.get (default EmptyString (m_thread_ts message)) (searchResults st) with
         | None => ret tt
         | Some searchData =>
             let selectedIndex := Z.of_nat (ordinal (m_text message)) - 1 in
             match results searchData with
             | None => throw "TypeError"       (* the entry has no [results] *)
             | Some rs =>
                 if (selectedIndex <? 0) || (Z.of_nat (length rs) <=? selectedIndex)
                 then say (InvalidSelection (length rs)) (m_thread_ts message) ;; ret tt
                 else
                   match rs !! Z.to_nat selectedIndex with
                   | None => throw "TypeError"
                   | Some selectedTorrent => retrieve_magnet message selectedTorrent
                   end
             end
         end)
      selection_failed.

(** [data.magnetLink && data.channel === message.channel] *)
Definition is_magnet_for (channel_id : string) (data : SessionData) : bool :=
  Str.truthy (magnetLink data) && String.eqb (channel data) channel_id.

(** The listener for "add" replies. *)
Definition add_reply_listener (message : Message) : Task unit :=
  if negb (matches Regex.add_listener (m_text message)) then ret tt
  else
    try_catch
      (if Str.truthy (m_bot_id message) then ret tt
       else if negb (Str.truthy (m_thread_ts message)) then ret tt
       else
         st ← get_state ;
         match JsMap.first (fun _ data => is_magnet_for (m_channel message) data)
                           (searchResults st) with
         | None => ret tt
         | Some (_, magnetData) =>
             match Regex.exec Regex.add_arguments (m_text message) with
             | None => throw "TypeError"       (* [match] is [null] *)
             | Some cs =>
                 let kind := Str.toLowerCase <$> Regex.capture 2 cs in
                 let destination := Str.trim <$> Regex.capture 4 cs in
                 say (AddingFromSearch (torrentTitle magnetData) kind destination)
                     (m_thread_ts message) ;;
                 st' ← get_state ;
                 if negb (torrentHandler st')
                 then say HandlerNotConfigured (m_thread_ts message) ;; ret tt
                 else
                   result ← call_torrentHandler (default EmptyString (magnetLink magnetData))
                                                kind destination ;
                   say (AddedFromSearch
                          (if Str.truthy (r_name result) then r_name result
                           else torrentTitle magnetData)
                          (Str.take 8 (r_infoHash result)))
                       (m_thread_ts message) ;;
                   ret tt
             end
         end)
      (fun _ => console_error "Error adding torrent from search").

(** The pattern of [extractMagnetLink], under the [i] flag: the words
    [magnet:?xt=urn:btih:], letters and digits, then anything but a double
    quote or white space.  Group 1 is the whole match. *)
Definition magnet_pattern : Regex.re :=
  Regex.Group 1
    (Regex.Seq (Regex.word_i "magnet:?xt=urn:btih:")
       (Regex.Seq (Regex.Plus (Regex.Chr is_alnum))
          (Regex.Star (Regex.Chr (fun c => negb (Ascii.eqb c (ascii_of_nat 34)
                                                || Str.is_space c)))))).

(** [extractMagnetLink(text)] *)
Definition extractMagnetLink (text : string) : option string :=
  regex_search magnet_pattern text ≫= Regex.capture 1.

Section MagnetLinks.

(** [process.env.SLACK_AUTO_ADD_TORRENTS === 'true'] *)
Variable auto_add : bool.
Variable decodeURIComponent : string -> option string.

(** The listener for messages that contain a magnet link. *)
Definition magnet_link_listener (message : Message) : Task unit :=
  if negb (Str.includes (m_text message) "magnet:?xt=") then ret tt
  else
    try_catch
      (if Str.truthy (m_bot_id message) then ret tt
       else
         match extractMagnetLink (m_text message) with
         | None => ret tt
         | Some magnetLink =>
             if negb (Str.nonempty magnetLink) then ret tt
             else if negb auto_add
             then reactions_add (m_channel message) (m_ts message) "mag"
             else
               reactions_add (m_channel message) (m_ts message) "hourglass_flowing_sand" ;;
               let torrentName := extractTorrentName decodeURIComponent magnetLink in
               st ← get_state ;
               if negb (torrentHandler st) then throw "Torrent handler not configured"
               else
                 result ← call_torrentHandler magnetLink None None ;
                 reactions_remove (m_channel message) (m_ts message)
                                  "hourglass_flowing_sand" ;;
                 reactions_add (m_channel message) (m_ts message) "white_check_mark" ;;
                 say (AddedTorrent (or_else_opt (r_name result) torrentName))
                     (Some (m_ts message)) ;;
                 ret tt
         end)
      (fun e =>
         console_error "Error handling magnet link in message" ;;
         try_catch
           (reactions_add (m_channel message) (m_ts message) "x" ;;
            say (FailedToAdd e) (Some (m_ts message)) ;;
            ret tt)
           (fun _ => console_error "Failed to add error reaction")).

End MagnetLinks.

(* ===================================================================== *)
(** * The event loop *)
(* ===================================================================== *)

(** The callback of a timer. *)
Definition fire (tm : Timer) (st : State) : State :=
  with_searchResults (JsMap.delete (victim tm)) st.

Definition due (now : Z) (tm : Timer) : bool := deadline tm <=? now.

(** The clock reaches [t]: the timers that are due run, in the order they
    were set, and are forgotten.  The clock never goes back. *)
Definition advance (t : Z) (st : State) : State :=
  let now := Z.max (clock st) t in
  with_clock now
    (with_timers (List.filter (fun tm => negb (due now tm)))
       (fold_left (fun s tm => fire tm s) (List.filter (due now) (timers st)) st)).

(** What can happen to a handler. *)
Inductive Input : Type :=
| TorrentCommand (command : Command)
| TorrentLocationCommand (command : Command)
| TorrentMoveCommand (command : Command)
| TorrentSearchCommand (command : Command)
| MessageEvent (message : Message)
| UpdateProgress (infoHash : string) (newProgress : Z)
| MonitorProgress (torrents : list TorrentInfo)
| ClockReaches (t : Z).

(** What the handler takes from its runtime: [decodeURIComponent], the
    product by 100 of the number type, and the environment variable
    [SLACK_AUTO_ADD_TORRENTS]. *)
Record Runtime : Type := mkRuntime {
  rt_decodeURIComponent : string -> option string;
  rt_times100 : Q -> Q;
  rt_auto_add : bool
}.

Section Loop.

Variable rt : Runtime.
Variable W : World.

(** A message goes to every listener, in the order they were registered;
    each one filters by its pattern and catches its own errors. *)
Definition on_message (message : Message) : Task unit :=
  number_reply_listener message ;;
  add_reply_listener message ;;
  magnet_link_listener (rt_auto_add rt) (rt_decodeURIComponent rt) message.

Definition handler_of (i : Input) : Task unit :=
  match i with
  | TorrentCommand c => torrent_command (rt_decodeURIComponent rt) c
  | TorrentLocationCommand c => torrent_location_command c
  | TorrentMoveCommand c => torrent_move_command c
  | TorrentSearchCommand c => torrent_search_command c
  | MessageEvent m => on_message m
  | UpdateProgress infoHash p => updateTorrentProgress infoHash p
  | MonitorProgress torrents => monitorProgress (rt_times100 rt) torrents
  | ClockReaches _ => ret tt
  end.

(** One turn: a handler runs from start to end, or the clock moves.  An
    error that leaves a handler is dropped with it. *)
Definition step (cfg : State * Trace) (i : Input) : State * Trace :=
  match i with
  | ClockReaches t => (advance t (fst cfg), snd cfg)
  | _ => fst (handler_of i W (fst cfg) (snd cfg))
  end.

Definition run_inputs (cfg : State * Trace) (inputs : list Input) : State * Trace :=
  fold_left step inputs cfg.

End Loop.

(* ===================================================================== *)
(** * Notions the statements use *)
(* ===================================================================== *)

Definition is_notification (infoHash : string) (e : Event) : bool :=
  match call e with
  | EnterNotification h => String.eqb h infoHash
  | _ => false
  end.

(** How many times the completion notification of a job was started. *)
Definition notifications (infoHash : string) (tr : Trace) : nat :=
  length (List.filter (is_notification infoHash) tr).

(** A run of [updateTorrentProgress] calls against one id. *)
Definition progress_calls (infoHash : string) (ps : list Z) : Task unit :=
  for_each (updateTorrentProgress infoHash) ps.

Definition state_of {A} (out : State * Trace * Result A) : State := fst (fst out).
Definition trace_of {A} (out : State * Trace * Result A) : Trace := snd (fst out).
Definition result_of {A} (out : State * Trace * Result A) : Result A := snd out.

(** The entry of a job after [updateTorrentProgress] on an enabled handler. *)
Definition updated (newProgress : Z) (t : Tracked) : Tracked :=
  mkTracked newProgress
            (notified t || just_completed newProgress (progress t) (notified t))
            (metadata t).

(** The call at hand completes the job. *)
Definition completes (st : State) (infoHash : string) (newProgress : Z) : bool :=
  isEnabled st &&
  match trackedTorrents st !! infoHash with
  | Some t => just_completed newProgress (progress t) (notified t)
  | None => false
  end.

(** A task respects, from the state [st], a relation [R] on states and a
    class [ok] of calls when it ends in a state related to [st], only adds
    to the history, and every call it adds is in the class and was made in
    a state related to [st].  The class may depend on the state the task
    starts in. *)
Definition respects_at (R : State -> State -> Prop) (ok : State -> Call -> Prop)
  {A} (st : State) (t : Task A) : Prop :=
  forall W tr, exists st' evs r,
    t W st tr = (st', tr ++ evs, r)
    /\ R st st'
    /\ Forall (fun e => ok st (call e) /\ R st (snapshot e)) evs.

Definition respects (R : State -> State -> Prop) (ok : State -> Call -> Prop)
  {A} (t : Task A) : Prop :=
  forall st, respects_at R ok st t.

(** No call but the mark itself counts as a notification. *)
Definition transport_only (c : Call) : Prop :=
  match c with
  | EnterNotification _ => False
  | _ => True
  end.

(** A quiet task writes no field and starts no notification. *)
Definition quiet {A} (t : Task A) : Prop := respects eq (fun _ => transport_only) t.

(** A task that never throws. *)
Definition returns {A} (t : Task A) : Prop :=
  forall W st tr, exists a, result_of (t W st tr) = Returned a.

(** The state after [updateTorrentProgress]. *)
Definition update_state (infoHash : string) (newProgress : Z) (st : State) : State :=
  if isEnabled st then
    match trackedTorrents st !! infoHash with
    | Some t => with_trackedTorrents <[infoHash := updated newProgress t]> st
    | None => st
    end
  else st.

(** The entry of a job says that it was notified. *)
Definition notified_in (st : State) (infoHash : string) : Prop :=
  exists t, trackedTorrents st !! infoHash = Some t /\ notified t = true.

(** The state after a run of updates, and the number of calls in the run
    that complete the job. *)
Definition after_updates (infoHash : string) (ps : list Z) (st : State) : State :=
  fold_left (fun s p => update_state infoHash p s) ps st.

Fixpoint completions (infoHash : string) (ps : list Z) (st : State) : nat :=
  match ps with
  | [] => 0
  | p :: ps' =>
      (if completes st infoHash p then 1 else 0)
      + completions infoHash ps' (update_state infoHash p st)
  end%nat.

(** Some value of the run is at least 100 right after a recorded value
    below 100; [prev] is the value recorded before the run. *)
Fixpoint crossing (prev : Z) (ps : list Z) : bool :=
  match ps with
  | [] => false
  | p :: ps' => ((100 <=? p) && (prev <? 100)) || crossing p ps'
  end.

(** A notification can still be started: the handler is enabled and the
    job is tracked and not notified. *)
Definition can_fire (st : State) (infoHash : string) : bool :=
  isEnabled st &&
  match trackedTorrents st !! infoHash with
  | Some t => negb (notified t)
  | None => false
  end.


(** The exact product, for fractions that are exact. *)
Definition exact_times100 (x : Q) : Q := Qmult x (Qmake 100 1).

(* ===================================================================== *)
(** * Sample worlds and states *)
(* ===================================================================== *)

Module Sample.

(** A fresh message id for each message sent: as many digits as calls made. *)
Fixpoint digits (n : nat) : string :=
  match n with
  | O => "t"
  | S n' => String "1" (digits n')
  end.

Definition answer_of_handler : AddResult :=
  mkAddResult "c0ffee00c0ffee00c0ffee00c0ffee00c0ffee00" (Some "Big Buck Bunny")
              (Some 0) (Some 1%nat) (Some "downloading").

(** Every collaborator answers. *)
Definition helpful : World :=
  mkWorld (fun _ => Returned tt)
          (fun tr _ _ => Returned (digits (length tr)))
          (fun _ _ => Returned tt)
          (fun _ _ _ _ => Returned tt)
          (fun _ _ _ _ => Returned answer_of_handler)
          (fun _ _ _ => Returned (Some (mkMoveResult "complete" (Some 3%nat) (Some 3%nat))))
          (fun _ _ => Returned None)
          (fun _ r => Returned (Some ("magnet:?xt=urn:btih:" ++ sr_ref r)%string)).

(** Every collaborator throws. *)
Definition hostile : World :=
  mkWorld (fun _ => Thrown "ack failed")
          (fun _ _ _ => Thrown "channel_not_found")
          (fun _ _ => Thrown "already_reacted")
          (fun _ _ _ _ => Thrown "channel_not_found")
          (fun _ _ _ _ => Thrown "Invalid torrent")
          (fun _ _ _ => Thrown "ENOENT")
          (fun _ _ => Thrown "provider down")
          (fun _ _ => Thrown "provider down").

(** A handler that was just started: enabled, all collaborators set. *)
Definition fresh : State :=
  mkState true true true true [] [] ∅ [] [] 0.

Definition bunny : Metadata :=
  mkMetadata "c0ffee00c0ffee00c0ffee00c0ffee00c0ffee00" "C1" "10.1" "10.1" "movie"
             "/app/downloads/movies" "Big Buck Bunny" "U1" "ann" 0.

(** One job, at 40%. *)
Definition one_job : State :=
  mkState true true true true [bunny]
          [("c0ffee00c0ffee00c0ffee00c0ffee00c0ffee00", 0%nat)]
          (<["c0ffee00c0ffee00c0ffee00c0ffee00c0ffee00" := mkTracked 40 false 0%nat]> ∅)
          [] [] 0.

Definition no_mover : State :=
  mkState true true true false [bunny]
          [("c0ffee00c0ffee00c0ffee00c0ffee00c0ffee00", 0%nat)]
          (<["c0ffee00c0ffee00c0ffee00c0ffee00c0ffee00" := mkTracked 40 false 0%nat]> ∅)
          [] [] 0.

Definition listing : list SearchResult :=
  [mkSearchResult "Big Buck Bunny 1080p" (Some "700 MB") (Some "120") (Some "8")
                  (Some "1337x") "c0ffee00c0ffee00c0ffee00c0ffee00c0ffee00";
   mkSearchResult "Big Buck Bunny 720p" (Some "300 MB") (Some "40") (Some "2")
                  (Some "Yts") "badc0de0badc0de0badc0de0badc0de0badc0de0";
   mkSearchResult "Big Buck Bunny 4K" None None None None
                  "0ddba11c0ddba11c0ddba11c0ddba11c0ddba11c"].

Definition search_session : SessionData :=
  mkSessionData (Some listing) (Some "Big Buck Bunny") None None "C1" "U1".

Definition magnet_session : SessionData :=
  mkSessionData None None
    (Some "magnet:?xt=urn:btih:c0ffee00c0ffee00c0ffee00c0ffee00c0ffee00")
    (Some "Big Buck Bunny 1080p") "C1" "U1".

(** What the reply "2" to the listing stores. *)
Definition magnet_session_2 : SessionData :=
  mkSessionData None None
    (Some "magnet:?xt=urn:btih:badc0de0badc0de0badc0de0badc0de0badc0de0")
    (Some "Big Buck Bunny 720p") "C1" "U1".

(** A search listing was posted as message 20.1 at time 0. *)
Definition searched : State :=
  mkState true true true true [] [] ∅
          [("20.1", search_session)]
          [mkTimer 600000 "20.1"] 1000.

(** The reply "1", message 20.5, was answered at time 1000. *)
Definition selected : State :=
  mkState true true true true [] [] ∅
          [("20.1", search_session); ("20.5", magnet_session)]
          [mkTimer 600000 "20.1"; mkTimer 301000 "20.5"] 1000.

(** The runtime's [decodeURIComponent], on names without escapes. *)
Definition decode (s : string) : option string := Some s.

(** Exact products, no escapes, and links in messages are only marked. *)
Definition runtime : Runtime := mkRuntime decode exact_times100 false.

End Sample.


(** Registration as far as the resolver sees it: [torrentMetadata.set]. *)
Definition registered (infoHash : string) (r : ref) (registry : list (string * ref))
  : list (string * ref) :=
  JsMap.set infoHash r registry.

(** The two arguments of [/torrent-move] as the handler splits them. *)
Definition move_arguments (text : string) : string * string :=
  let parts := Str.split_ws (Str.trim text) in
  (List.hd EmptyString parts, Str.join (List.skipn 1 parts)).

(** The state once [/torrent-move] has written the new destination into the
    metadata object [r] of the job. *)
Definition relabelled (infoHash : string) (r : ref) (newDestination : string)
  (md : Metadata) (st : State) : State :=
  with_torrentMetadata (JsMap.set infoHash r)
    (with_objects <[r := set_destination newDestination md]> st).


(** The calls of a history, without the states. *)
Definition calls (tr : Trace) : list Call := List.map call tr.



(** The entry at which the scan of the "add" listener stops. *)
Definition magnet_entry (st : State) (channel_id : string) : option (string * SessionData) :=
  JsMap.first (fun _ data => is_magnet_for channel_id data) (searchResults st).

(** The calls an "add" reply in a channel can make from the state [st]:
    the torrent handler is only ever given the link of the entry the scan
    stops at; the mover is not called, no timer is set and no notification
    is started. *)
Definition add_reply_call (channel_id : string) (st : State) (c : Call) : Prop :=
  match c with
  | TorrentHandler link _ _ =>
      exists key data,
        magnet_entry st channel_id = Some (key, data)
        /\ magnetLink data = Some link
  | TorrentMoveHandler _ _ | SetTimeout _ _ | EnterNotification _ => False
  | _ => True
  end.

(** From [st] to [st'] the cache only gained entries without a link, that
    is, search listings. *)
Definition gained_listings_only (st st' : State) : Prop :=
  forall key data,
    In (key, data) (searchResults st') ->
    In (key, data) (searchResults st)
    \/ (magnetLink data = None /\ results data <> None).

Definition any_call (_ : State) (_ : Call) : Prop := True.

(** A digit not below [lo]. *)
Definition is_digit_from (lo : nat) (c : ascii) : bool :=
  (48 + lo <=? nat_of_ascii c)%nat && (nat_of_ascii c <=? 57)%nat.

(** What the specification says of number replies, for a reply in the thread [t] of a
    listing with the results [rs]: within the list, the handler goes on
    with the result at that place, counted from 1; beyond it, the handler
    reports the error in the thread and does nothing else. *)
Definition selects_ordinal (W : World) (st : State) (tr : Trace) (message : Message)
  (t : string) (rs : list SearchResult) : Prop :=
  let n := ordinal (m_text message) in
  ((n <= length rs)%nat ->
   exists selected,
     rs !! (n - 1)%nat = Some selected
     /\ number_reply_listener message W st tr
        = try_catch (retrieve_magnet message selected) selection_failed W st tr)
  /\ ((length rs < n)%nat ->
      exists evs,
        number_reply_listener message W st tr
        = (st, tr ++ mkEvent (Say (InvalidSelection (length rs)) (Some t)) st :: evs,
           Returned tt)
        /\ Forall (fun e => snapshot e = st /\ exists label, call e = ConsoleError label)
                  evs).

(* ===================================================================== *)
(** * The session cache as the handlers use it *)
(* ===================================================================== *)

(** One [searchResults.set] with its [setTimeout]. *)
Record Store : Type := mkStore {
  s_key : string;
  s_data : SessionData;
  s_ttl : Z
}.

(** The cache: the entries and the timers that will delete them. *)
Definition cache_of (st : State) : list (string * SessionData) * list Timer :=
  (searchResults st, timers st).

Definition apply_store (now : Z) (c : list (string * SessionData) * list Timer)
  (s : Store) : list (string * SessionData) * list Timer :=
  (JsMap.set (s_key s) (s_data s) (fst c),
   snd c ++ [mkTimer (now + s_ttl s) (s_key s)]).

(** The timers set in a piece of history: key and delay. *)
Definition timeouts (evs : list Event) : list (string * Z) :=
  List.flat_map (fun e => match call e with
                          | SetTimeout key ms => [(key, ms)]
                          | _ => []
                          end) evs.

(** The two kinds of session the handlers create: a listing lives ten
    minutes and has no link; a retrieved link lives five. *)
Definition session_shape (s : Store) : Prop :=
  (s_ttl s = search_ttl /\ magnetLink (s_data s) = None /\ results (s_data s) <> None)
  \/ (s_ttl s = magnet_ttl /\ Str.truthy (magnetLink (s_data s)) = true
      /\ results (s_data s) = None).

(** From [st] to [st'] the cache changed by the stores, in order, made at
    the time of [st]; the clock did not move; and [evs] sets the timers of
    these stores and no other. *)
Definition stored (stores : list Store) (st st' : State) (evs : list Event) : Prop :=
  clock st' = clock st
  /\ cache_of st' = fold_left (apply_store (clock st)) stores (cache_of st)
  /\ timeouts evs = List.map (fun s => (s_key s, s_ttl s)) stores.

(** A task that, from [st], touches the cache by at most [n] stores of
    the two kinds. *)
Definition caches_at (n : nat) {A} (st : State) (t : Task A) : Prop :=
  forall W tr, exists st' evs r stores,
    t W st tr = (st', tr ++ evs, r)
    /\ stored stores st st' evs
    /\ Forall session_shape stores
    /\ (length stores <= n)%nat.

Definition not_a_timeout (c : Call) : Prop :=
  match c with
  | SetTimeout _ _ => False
  | _ => True
  end.

(** All the timers that will delete [key] are set for the time [D]. *)
Definition timers_agree (key : string) (D : Z) (ts : list Timer) : Prop :=
  Forall (fun tm => victim tm = key -> deadline tm = D) ts.

(** The life of the session [data] stored under [key] until [D]: before
    [D] it is what [get] returns and its timer is pending; from [D] on
    there is no entry under the key and no timer for it. *)
Definition session_life (key : string) (data : SessionData) (D : Z) (st : State) : Prop :=
  (clock st < D ->
   JsMap.get key (searchResults st) = Some data
   /\ In (mkTimer D key) (timers st)
   /\ timers_agree key D (timers st))
  /\ (D <= clock st ->
      JsMap.get key (searchResults st) = None
      /\ Forall (fun tm => victim tm <> key) (timers st)).

(** No timer for [key] is set in a piece of history. *)
Definition key_not_reused (key : string) (evs : list Event) : Prop :=
  Forall (fun e => forall ms, call e <> SetTimeout key ms) evs.

(** What the specification says of the life of sessions, for a turn [i] that sets a timer
    of [ms] milliseconds for [key], and the turns [inputs] after it: the
    entry is there right away; it is a listing kept ten minutes or a link
    kept five; after the later turns it is still what [get] returns if the
    clock is less than [ms] past the time of the store, and there is
    neither entry nor timer for the key if the clock is [ms] or more past
    it. *)
Definition lives_for_its_ttl (rt : Runtime) (W : World) (st : State) (tr : Trace)
  (i : Input) (key : string) (ms : Z) (inputs : list Input) : Prop :=
  let created := step rt W (st, tr) i in
  let final := run_inputs rt W created inputs in
  exists data,
    clock (fst created) = clock st
    /\ JsMap.get key (searchResults (fst created)) = Some data
    /\ ((ms = 600000 /\ magnetLink data = None /\ results data <> None)
        \/ (ms = 300000 /\ Str.truthy (magnetLink data) = true /\ results data = None))
    /\ (clock (fst final) < clock st + ms ->
        JsMap.get key (searchResults (fst final)) = Some data)
    /\ (clock st + ms <= clock (fst final) ->
        JsMap.get key (searchResults (fst final)) = None
        /\ Forall (fun tm => victim tm <> key) (timers (fst final))).

(* ===================================================================== *)
(** * A conversation *)
(* ===================================================================== *)

Module Scenario.

(** The reply "2" to the listing 20.1, and two "add" replies. *)
Definition reply_2 : Message := mkMessage "2" "20.4" (Some "20.1") "C1" "U1" None.
Definition reply_1 : Message := mkMessage "1" "20.6" (Some "20.1") "C1" "U2" None.
Definition add_movie : Message := mkMessage "add movie" "20.8" (Some "20.1") "C1" "U1" None.

Definition run (st : State) (inputs : list Input) : State * Trace :=
  run_inputs Sample.runtime Sample.helpful (st, []) inputs.

(** The reply "2" was handled at time 1000, and four minutes went by. *)
Definition four_minutes_later : State :=
  fst (run Sample.searched [MessageEvent reply_2; ClockReaches 241000]).

End Scenario.

(* ===================================================================== *)
(** * States the handler can be in *)
(* ===================================================================== *)

(** Whatever the world answers, the task ends in a state and with a result
    that satisfy [Q]. *)
Definition ends_with {A} (st : State) (t : Task A) (Q : State -> Result A -> Prop) : Prop :=
  forall W tr, Q (state_of (t W st tr)) (result_of (t W st tr)).

(** The registries are in order: every reference names an object, and the
    entry of a job in [trackedTorrents] holds the object that
    [torrentMetadata] has for it. *)
Definition registries_in_order (st : State) : Prop :=
  (forall infoHash r,
      JsMap.get infoHash (torrentMetadata st) = Some r ->
      (r < length (objects st))%nat)
  /\ (forall infoHash t,
        trackedTorrents st !! infoHash = Some t ->
        JsMap.get infoHash (torrentMetadata st) = Some (metadata t)).

(** The registries as a whole. *)
Definition registries_of (st : State)
  : list Metadata * list (string * ref) * gmap string Tracked :=
  (objects st, torrentMetadata st, trackedTorrents st).

(* ===================================================================== *)
(** * The calls of one run *)
(* ===================================================================== *)

(** The calls a task makes when it runs after the history [tr]. *)
Definition calls_made {A} (t : Task A) (W : World) (st : State) (tr : Trace) : list Call :=
  calls (List.skipn (length tr) (trace_of (t W st tr))).

(** Some messages and commands. *)
Module Posts.

Definition from_a_bot : Message :=
  mkMessage "add movie" "30.2" (Some "20.1") "C1" "U9" (Some "B42").

Definition with_a_link : Message :=
  mkMessage "try magnet:?xt=urn:btih:c0ffee00c0ffee00&dn=Big+Buck+Bunny please"
            "31.1" None "C1" "U1" None.

(** A [/torrent] command for a movie, with no destination. *)
Definition add_bunny : Command :=
  mkCommand "magnet:?xt=urn:btih:c0ffee00c0ffee00c0ffee00c0ffee00c0ffee00&dn=Big+Buck+Bunny movie"
            "C1" None "U1" "ann".

(** A move of the one job of [Sample.one_job], named by the start of its hash. *)
Definition move_bunny : Command :=
  mkCommand "C0FF /media/films" "C1" (Some "10.1") "U1" "ann".



(** A world in which the provider finds the listing of [Sample.listing]. *)
Definition finding : World :=
  mkWorld (fun _ => Returned tt)
          (fun tr _ _ => Returned (Sample.digits (length tr)))
          (fun _ _ => Returned tt)
          (fun _ _ _ _ => Returned tt)
          (fun _ _ _ _ => Returned Sample.answer_of_handler)
          (fun _ _ _ => Returned None)
          (fun _ _ => Returned (Some Sample.listing))
          (fun _ r => Returned (Some ("magnet:?xt=urn:btih:" ++ sr_ref r)%string)).



(** The runtime in which links in messages are added right away. *)
Definition auto_add : Runtime := mkRuntime Sample.decode exact_times100 true.

End Posts.

(* ===================================================================== *)
(** * Switches and registries over a run *)
(* ===================================================================== *)

(** Whether the handler is enabled, and which collaborators are set. *)
Definition switches (st : State) : bool * bool * bool * bool :=
  (isEnabled st, client st, torrentHandler st, torrentMoveHandler st).

(** A call that the switches of [st] allow: the torrent handler and the
    mover are called only when they are set, a notification is started
    only on an enabled handler, and the completion message is posted only
    on an enabled handler that has a client. *)
Definition allowed_by (st : State) (c : Call) : Prop :=
  match c with
  | TorrentHandler _ _ _ => torrentHandler st = true
  | TorrentMoveHandler _ _ => torrentMoveHandler st = true
  | EnterNotification _ => isEnabled st = true
  | PostMessage _ _ _ => isEnabled st = true /\ client st = true
  | _ => True
  end.

Definition same_switches (st st' : State) : Prop := switches st' = switches st.

(** The ids of [torrentMetadata], in the order the resolver scans them. *)
Definition registered_ids (st : State) : list string := List.map fst (torrentMetadata st).

(** From [st] to [st'] no job was forgotten or displaced: the ids that
    were registered are still the first ones of the registry, in the same
    order, and what was tracked is still tracked. *)
Definition keeps_jobs (st st' : State) : Prop :=
  (exists more, registered_ids st' = registered_ids st ++ more)
  /\ (forall infoHash, is_Some (trackedTorrents st !! infoHash) ->
                       is_Some (trackedTorrents st' !! infoHash)).

(* ===================================================================== *)
(** * The cache as a whole *)
(* ===================================================================== *)

(** An entry under [key] has a timer that will delete it: one that is
    pending at the time [now] and due at most ten minutes later. *)
Definition covered (now : Z) (c : list (string * SessionData) * list Timer)
  (key : string) : Prop :=
  is_Some (JsMap.get key (fst c)) ->
  exists tm, In tm (snd c) /\ victim tm = key
             /\ now < deadline tm <= now + search_ttl.

(** Every entry of the cache has such a timer. *)
Definition cache_covered (st : State) : Prop :=
  forall key, covered (clock st) (cache_of st) key.

(** The inputs whose handlers write the registries, and those that write
    the session cache or move the clock. *)
Definition writes_registries (i : Input) : bool :=
  match i with
  | TorrentCommand _ | TorrentMoveCommand _ | UpdateProgress _ _ | MonitorProgress _ => true
  | _ => false
  end.

Definition writes_cache (i : Input) : bool :=
  match i with
  | TorrentSearchCommand _ | MessageEvent _ | ClockReaches _ => true
  | _ => false
  end.

(* ===================================================================== *)
(** * What reaches Slack *)
(* ===================================================================== *)

Definition is_log (c : Call) : bool :=
  match c with
  | ConsoleError _ => true
  | _ => false
  end.

(** The calls of a run without its log lines. *)
Definition outward (cs : list Call) : list Call :=
  List.filter (fun c => negb (is_log c)) cs.

(* ===================================================================== *)
(** * What [/torrent] leaves behind *)
(* ===================================================================== *)




(* ===================================================================== *)
(** * Sessions as they are made *)
(* ===================================================================== *)




(* ===================================================================== *)
(** * What the patterns match *)
(* ===================================================================== *)


(** Every character of a text is in a class. *)
Fixpoint all_chars (p : ascii -> bool) (s : string) : bool :=
  match s with
  | EmptyString => true
  | String c s' => p c && all_chars p s'
  end.




(** The text left after its longest start in a class. *)
Fixpoint drop_while (p : ascii -> bool) (s : string) : string :=
  match s with
  | EmptyString => EmptyString
  | String c s' => if p c then drop_while p s' else s
  end.

(** The text is empty or starts outside the class. *)
Definition stops (p : ascii -> bool) (s : string) : Prop :=
  match s with
  | EmptyString => True
  | String c _ => p c = false
  end.



(** Any character but [&]: the class of the name in [extractTorrentName]. *)
Definition not_amp (c : ascii) : bool := negb (Ascii.eqb c "&").

(** The name [extractTorrentName] makes of what [decodeURIComponent]
    answers. *)
Definition decoded_name (decodeURIComponent : string -> option string) (raw : string)
  : string :=
  match decodeURIComponent (plus_to_space raw) with
  | Some name => name
  | None => "Unknown Torrent"
  end.

(* ===================================================================== *)
(** * The words of a command *)
(* ===================================================================== *)

Definition no_space (c : ascii) : bool := negb (Str.is_space c).


Definition starts_a_word (s : string) : bool :=
  match s with
  | EmptyString => false
  | String c _ => no_space c
  end.


(* ===================================================================== *)
(** * The rest of the class *)
(* ===================================================================== *)

(** [initialize], [stop], the setters, [sendNotification], [/torrent-list]
    and [/torrent-clear-cache] use fields and collaborators of their own:
    the Bolt app, the list handler and the cache-clear handler.  They are
    embedded here in the same way as the methods above, over the handler
    as a whole. *)
Module Rest.

(** A [SlackHandler]: the fields of [State] and the three it leaves out. *)
Record Handler : Type := mkHandler {
  core : State;
  app : bool;                      (* [this.app] is set *)
  torrentListHandler : bool;
  cacheClearHandler : bool
}.

(** [process.env], as far as the class reads it. *)
Record Env : Type := mkEnv {
  SLACK_BOT_TOKEN : option string;
  SLACK_SIGNING_SECRET : option string;
  SLACK_APP_TOKEN : option string;
  SLACK_PORT : option string
}.

(** A torrent of the list that the list handler answers with. *)
Record Listed : Type := mkListed {
  l_infoHash : option string;
  l_name : option string;
  l_progress : option Q
}.

Inductive Icon : Type := Film | Television | Folder.

(** One row of the listing of [/torrent-list]. *)
Record Row : Type := mkRow {
  row_number : nat;
  row_icon : Icon;
  row_name : string;
  row_progress : Q;
  row_location : string;
  row_hash8 : option string
}.

(** What the cache-clear handler resolves to. *)
Record Cleared : Type := mkCleared {
  removed : option nat;
  spaceFreed : option string;
  remaining : option nat;
  removedList : option (list string)
}.

(** The names shown after a clearing, numbered, and how many are left out. *)
Record Summary : Type := mkSummary {
  shown : list (nat * string);
  more : option nat
}.

Inductive Notice : Type :=
(* /torrent-list *)
| ListUnavailable
| NoActiveTorrents
| ActiveTorrents (count : nat) (rows : list Row)
| ErrorListing (e : string)
(* /torrent-clear-cache *)
| ClearingCache (clearAll : bool)
| ClearUnavailable
| CacheCleared (removed : nat) (spaceFreed : string) (remaining : nat) (clearAll : bool)
               (summary : option Summary)
| ErrorClearing (e : string).

(** The calls that leave these methods. *)
Inductive Effect : Type :=
| DoAck
| DoSay (body : Notice) (thread_ts : option string)
| DoList                                  (* this.torrentListHandler() *)
| DoClear (clearAll : bool)               (* this.cacheClearHandler(clearAll) *)
| DoPost (channel text : string)          (* client.chat.postMessage({channel, text}) *)
| DoNewApp (socketMode : bool) (port : string)
| DoStart (port : option string)          (* app.start() or app.start(port) *)
| DoStop
| DoLog (label : string).                 (* console.error *)

Definition History := list Effect.

(** The answers of the collaborators, each to the history so far. *)
Record Surroundings : Type := mkSurroundings {
  s_ack : History -> Result unit;
  s_say : History -> Notice -> option string -> Result unit;
  s_list : History -> Result (option (list Listed));
  s_clear : History -> bool -> Result Cleared;
  s_post : History -> string -> string -> Result unit;
  s_new_app : History -> Result unit;
  s_start : History -> Result unit;
  s_stop : History -> Result unit
}.

(** An [async] method of the handler as a whole. *)
Definition Act (A : Type) : Type :=
  Surroundings -> Handler -> History -> Handler * History * Result A.

Definition ret {A} (a : A) : Act A := fun _ h hs => (h, hs, Returned a).

Definition bind {A B} (t : Act A) (k : A -> Act B) : Act B :=
  fun S h hs =>
    match t S h hs with
    | (h', hs', Returned a) => k a S h' hs'
    | (h', hs', Thrown e) => (h', hs', Thrown e)
    end.

#[global] Instance act_ret : MRet Act := @ret.
#[global] Instance act_bind : MBind Act := fun A B k t => bind t k.

Definition try_catch {A} (body : Act A) (handler : string -> Act A) : Act A :=
  fun S h hs =>
    match body S h hs with
    | (h', hs', Returned a) => (h', hs', Returned a)
    | (h', hs', Thrown e) => handler e S h' hs'
    end.

Definition get : Act Handler := fun _ h hs => (h, hs, Returned h).

Definition modify (f : Handler -> Handler) : Act unit :=
  fun _ h hs => (f h, hs, Returned tt).

Definition perform {A} (c : Effect) (answer : Surroundings -> History -> Result A) : Act A :=
  fun S h hs => (h, hs ++ [c], answer S hs).

Definition ack : Act unit := perform DoAck s_ack.

Definition say (body : Notice) (thread_ts : option string) : Act unit :=
  perform (DoSay body thread_ts) (fun S hs => s_say S hs body thread_ts).

Definition log (label : string) : Act unit :=
  perform (DoLog label) (fun _ _ => Returned tt).

Definition with_core (f : State -> State) (h : Handler) : Handler :=
  mkHandler (f (core h)) (app h) (torrentListHandler h) (cacheClearHandler h).

Definition set_isEnabled (b : bool) (st : State) : State :=
  mkState b (client st) (torrentHandler st) (torrentMoveHandler st)
          (objects st) (torrentMetadata st) (trackedTorrents st)
          (searchResults st) (timers st) (clock st).

Definition set_client (b : bool) (st : State) : State :=
  mkState (isEnabled st) b (torrentHandler st) (torrentMoveHandler st)
          (objects st) (torrentMetadata st) (trackedTorrents st)
          (searchResults st) (timers st) (clock st).

Definition set_app (b : bool) (h : Handler) : Handler :=
  mkHandler (core h) b (torrentListHandler h) (cacheClearHandler h).

(** [new SlackHandler()]: nothing is set, nothing is registered.  The
    two handlers and the cache that the constructor does not mention are
    [undefined], which the methods read as not set and as empty. *)
Definition constructed : Handler :=
  mkHandler (mkState false false false false [] [] ∅ [] [] 0) false false false.

(** The setters: a handler is set when what is given is not [null]. *)
Definition setTorrentHandler (given : bool) (h : Handler) : Handler :=
  with_core (fun st =>
    mkState (isEnabled st) (client st) given (torrentMoveHandler st)
            (objects st) (torrentMetadata st) (trackedTorrents st)
            (searchResults st) (timers st) (clock st)) h.

Definition setTorrentMoveHandler (given : bool) (h : Handler) : Handler :=
  with_core (fun st =>
    mkState (isEnabled st) (client st) (torrentHandler st) given
            (objects st) (torrentMetadata st) (trackedTorrents st)
            (searchResults st) (timers st) (clock st)) h.

Definition setTorrentListHandler (given : bool) (h : Handler) : Handler :=
  mkHandler (core h) (app h) given (cacheClearHandler h).

Definition setCacheClearHandler (given : bool) (h : Handler) : Handler :=
  mkHandler (core h) (app h) (torrentListHandler h) given.

(** [process.env.SLACK_PORT || 3002] *)
Definition port_of (env : Env) : string := or_else_opt (SLACK_PORT env) "3002".

(** [initialize()] *)
Definition initialize (env : Env) : Act bool :=
  try_catch
    (if negb (Str.truthy (SLACK_BOT_TOKEN env)) || negb (Str.truthy (SLACK_SIGNING_SECRET env))
     then ret false
     else
       perform (DoNewApp (Str.truthy (SLACK_APP_TOKEN env)) (port_of env)) s_new_app ;;
       modify (set_app true) ;;
       modify (with_core (set_client true)) ;;
       (* registerSlashCommands(); registerMessageListeners() *)
       (if Str.truthy (SLACK_APP_TOKEN env)
        then perform (DoStart None) s_start
        else perform (DoStart (Some (port_of env))) s_start) ;;
       modify (with_core (set_isEnabled true)) ;;
       ret true)
    (fun _ => log "Failed to initialize Slack bot" ;; ret false).

(** [stop()] *)
Definition stop : Act unit :=
  h ← get ;
  if app h then perform DoStop s_stop else ret tt.

(** [sendNotification(channel, message)] *)
Definition sendNotification (channel message : string) : Act bool :=
  h ← get ;
  if negb (isEnabled (core h)) || negb (client (core h)) then ret false
  else
    try_catch
      (perform (DoPost channel message) (fun S hs => s_post S hs channel message) ;;
       ret true)
      (fun _ => log "Error sending Slack notification" ;; ret false).

(** The icon of [metadata?.type]. *)
Definition icon_of (md : option Metadata) : Icon :=
  match md with
  | Some m =>
      if String.eqb (md_type m) "movie" then Film
      else if String.eqb (md_type m) "tv" then Television else Folder
  | None => Folder
  end.

(** [metadata?.destination || 'Unknown'] *)
Definition location_of (md : option Metadata) : string :=
  match md with
  | Some m => or_else (md_destination m) "Unknown"
  | None => "Unknown"
  end.

(** [this.torrentMetadata.get(torrent.infoHash)] *)
Definition known (st : State) (torrent : Listed) : option Metadata :=
  l_infoHash torrent ≫= metadata_of st.

(** [torrent.progress || 0] *)
Definition shown_progress (torrent : Listed) : Q :=
  match l_progress torrent with
  | Some x => x
  | None => Qmake 0 1
  end.

(** The body of the [forEach] of [/torrent-list], for the torrent at [index]. *)
Definition row_of (st : State) (index : nat) (torrent : Listed) : Row :=
  mkRow (index + 1) (icon_of (known st torrent))
        (or_else_opt (l_name torrent) "Unknown")
        (shown_progress torrent)
        (location_of (known st torrent))
        (Str.take 8 <$> l_infoHash torrent).

(** [torrents.forEach((torrent, index) => blocks.push(...))] *)
Fixpoint rows_from (st : State) (index : nat) (torrents : list Listed) : list Row :=
  match torrents with
  | [] => []
  | torrent :: rest => row_of st index torrent :: rows_from st (S index) rest
  end.

(** [/torrent-list] *)
Definition torrent_list_command (command : Command) : Act unit :=
  ack ;;
  try_catch
    (h ← get ;
     if negb (torrentListHandler h)
     then say ListUnavailable (c_thread_ts command)
     else
       torrents ← perform DoList s_list ;
       match torrents with
       | None | Some [] => say NoActiveTorrents (c_thread_ts command)
       | Some ts =>
           h' ← get ;
           say (ActiveTorrents (length ts) (rows_from (core h') 0 ts))
               (c_thread_ts command)
       end)
    (fun e =>
       log "Error handling /torrent-list command" ;;
       say (ErrorListing e) (c_thread_ts command)).

(** [names.map((name, i) => ...)], counted from [i]. *)
Fixpoint numbered (i : nat) (names : list string) : list (nat * string) :=
  match names with
  | [] => []
  | name :: rest => (i + 1, name)%nat :: numbered (S i) rest
  end.

(** The list of removed torrents as the report shows it: the first five
    names, and the number of those left out when there are more. *)
Definition summary_of (removedList : option (list string)) : option Summary :=
  match removedList with
  | None | Some [] => None
  | Some names =>
      Some (mkSummary (numbered 0 (List.firstn 5 names))
                      (if (5 <? length names)%nat then Some (length names - 5)%nat
                       else None))
  end.



End Rest.

(** Sample surroundings for the methods of [Rest]. *)
Module Around.

(** Two torrents of the engine: the job of [Sample.one_job], and one the
    handler never registered. *)
Definition engine_list : list Rest.Listed :=
  [Rest.mkListed (Some "c0ffee00c0ffee00c0ffee00c0ffee00c0ffee00") (Some "Big Buck Bunny")
                 (Some (2 # 5));
   Rest.mkListed (Some "badc0de0badc0de0badc0de0badc0de0badc0de0") None None].

Definition seven_names : list string :=
  ["one"; "two"; "three"; "four"; "five"; "six"; "seven"].

(** Everything answers; the engine has [engine_list], and a clearing
    removes seven torrents. *)
Definition obliging : Rest.Surroundings :=
  Rest.mkSurroundings (fun _ => Returned tt) (fun _ _ _ => Returned tt)
    (fun _ => Returned (Some engine_list))
    (fun _ _ => Returned (Rest.mkCleared (Some 7%nat) (Some "3.1 GB") None (Some seven_names)))
    (fun _ _ _ => Returned tt) (fun _ => Returned tt) (fun _ => Returned tt)
    (fun _ => Returned tt).

(** The handler of [Sample.one_job] with every collaborator set. *)
Definition running : Rest.Handler := Rest.mkHandler Sample.one_job true true true.

Definition list_command : Command := mkCommand "" "C1" None "U1" "ann".

Definition clear_command : Command := mkCommand " ALL " "C1" None "U1" "ann".

End Around.

(* ===================================================================== *)
(** * Properties *)
(* ===================================================================== *)

(** Unfolds a task down to the function it is. *)
Ltac run_task :=
  unfold store_session, set_timeout;
  unfold mbind, task_bind, mret, task_ret, ack, say,
         reactions_add, reactions_remove, postMessage, call_torrentHandler,
         call_torrentMoveHandler, search_api, getMagnet, console_error, mark_notification;
  unfold bind, ret, throw, try_catch, get_state, modify, perform; cbv zeta.

(** ** JavaScript Maps *)



Lemma get_set_eq {V} (k : string) (v : V) (m : list (string * V)) :
  JsMap.get k (JsMap.set k v m) = Some v.
Proof.
  induction m as [|[k' v'] m IH]; simpl.
  - rewrite String.eqb_refl. reflexivity.
  - destruct (String.eqb k' k) eqn:Hk; simpl; rewrite Hk; [reflexivity | exact IH].
Qed.

Lemma get_set_ne {V} (k k' : string) (v : V) (m : list (string * V)) :
  k <> k' -> JsMap.get k' (JsMap.set k v m) = JsMap.get k' m.
Proof.
  intros Hne. induction m as [|[k0 v0] m IH]; simpl.
  - destruct (String.eqb_spec k k'); [contradiction | reflexivity].
  - destruct (String.eqb_spec k0 k) as [->|Hk]; simpl.
    + destruct (String.eqb_spec k k'); [contradiction | reflexivity].
    + destruct (String.eqb k0 k'); [reflexivity | exact IH].
Qed.

Lemma set_same {V} (k : string) (v : V) (m : list (string * V)) :
  JsMap.get k m = Some v -> JsMap.set k v m = m.
Proof.
  induction m as [|[k' v'] m IH]; simpl; [discriminate|].
  destruct (String.eqb k' k).
  - intros [= ->]. reflexivity.
  - intros H. rewrite IH by assumption. reflexivity.
Qed.

Lemma first_Some {V} (p : string -> V -> bool) (m : list (string * V)) k v :
  JsMap.first p m = Some (k, v) -> In (k, v) m /\ p k v = true.
Proof.
  induction m as [|[k' v'] m IH]; simpl; [discriminate|].
  destruct (p k' v') eqn:Hp.
  - intros [= -> ->]. auto.
  - intros H. destruct (IH H). auto.
Qed.

Lemma In_set {V} (k k0 : string) (v v0 : V) (m : list (string * V)) :
  In (k, v) (JsMap.set k0 v0 m) -> (k, v) = (k0, v0) \/ In (k, v) m.
Proof.
  induction m as [|[k' v'] m IH]; simpl.
  - intros [H|[]]. left. congruence.
  - destruct (String.eqb_spec k' k0) as [->|Hne]; simpl.
    + intros [H|H]; [left; congruence | right; right; exact H].
    + intros [H|H]; [right; left; exact H|].
      destruct (IH H); [left | right; right]; assumption.
Qed.

Lemma get_delete {V} (k k' : string) (m : list (string * V)) :
  JsMap.get k (JsMap.delete k' m)
  = if String.eqb k' k then None else JsMap.get k m.
Proof.
  induction m as [|[k0 v0] m IH]; simpl.
  - destruct (String.eqb k' k); reflexivity.
  - destruct (String.eqb_spec k0 k') as [->|Hne]; simpl.
    + rewrite IH. destruct (String.eqb k' k); reflexivity.
    + rewrite IH. destruct (String.eqb_spec k0 k) as [->|Hk].
      * destruct (String.eqb_spec k' k); [congruence | reflexivity].
      * reflexivity.
Qed.

(** Storing under a key that was not there and deleting it again gives the
    cache back as it was, the order of the other entries included. *)
Lemma delete_set_fresh {V} (k : string) (v : V) (m : list (string * V)) :
  JsMap.get k m = None -> JsMap.delete k (JsMap.set k v m) = m.
Proof.
  induction m as [|[k' v'] m IH]; simpl.
  - rewrite String.eqb_refl. reflexivity.
  - destruct (String.eqb k' k) eqn:Hk; [discriminate|].
    intros H. simpl. rewrite Hk, IH by assumption. reflexivity.
Qed.

(** ** Tasks that keep a relation *)

Section Respects.

Variable R : State -> State -> Prop.
Variable ok : State -> Call -> Prop.
Hypothesis R_refl : forall st, R st st.
Hypothesis R_trans : forall a b c, R a b -> R b c -> R a c.
Hypothesis ok_back : forall a b c, R a b -> ok b c -> ok a c.

Lemma at_ret {A} st (a : A) : respects_at R ok st (ret a).
Proof.
  intros W tr. exists st, [], (Returned a). rewrite app_nil_r. auto.
Qed.

Lemma at_throw {A} st (e : string) : respects_at R ok st (@throw A e).
Proof.
  intros W tr. exists st, [], (Thrown e). rewrite app_nil_r. auto.
Qed.

Lemma later_events st st1 (evs : list Event) :
  R st st1 ->
  Forall (fun e => ok st1 (call e) /\ R st1 (snapshot e)) evs ->
  Forall (fun e => ok st (call e) /\ R st (snapshot e)) evs.
Proof.
  intros HR H. eapply Forall_impl; [exact H|]. simpl. intros e [? ?]; eauto.
Qed.

Lemma at_bind {A B} st (t : Task A) (k : A -> Task B) :
  respects_at R ok st t ->
  (forall a st', R st st' -> respects_at R ok st' (k a)) ->
  respects_at R ok st (bind t k).
Proof.
  intros Ht Hk W tr. unfold bind.
  destruct (Ht W tr) as (st1 & evs1 & r1 & -> & HR1 & Hev1).
  destruct r1 as [a|e].
  - destruct (Hk a st1 HR1 W (tr ++ evs1)) as (st2 & evs2 & r2 & -> & HR2 & Hev2).
    exists st2, (evs1 ++ evs2), r2. rewrite app_assoc.
    split; [reflexivity|]. split; [eauto|].
    apply Forall_app. split; [assumption | eapply later_events; eauto].
  - exists st1, evs1, (Thrown e). auto.
Qed.

(** Reading the state binds the very state the task is in. *)
Lemma at_get {B} st (k : State -> Task B) :
  respects_at R ok st (k st) -> respects_at R ok st (bind get_state k).
Proof. intros Hk W tr. unfold bind, get_state. apply Hk. Qed.

Lemma at_try_catch {A} st (body : Task A) (handler : string -> Task A) :
  respects_at R ok st body ->
  (forall e st', R st st' -> respects_at R ok st' (handler e)) ->
  respects_at R ok st (try_catch body handler).
Proof.
  intros Ht Hk W tr. unfold try_catch.
  destruct (Ht W tr) as (st1 & evs1 & r1 & -> & HR1 & Hev1).
  destruct r1 as [a|e].
  - exists st1, evs1, (Returned a). auto.
  - destruct (Hk e st1 HR1 W (tr ++ evs1)) as (st2 & evs2 & r2 & -> & HR2 & Hev2).
    exists st2, (evs1 ++ evs2), r2. rewrite app_assoc.
    split; [reflexivity|]. split; [eauto|].
    apply Forall_app. split; [assumption | eapply later_events; eauto].
Qed.

Lemma at_modify st (f : State -> State) :
  R st (f st) -> respects_at R ok st (modify f).
Proof.
  intros Hf W tr. exists (f st), [], (Returned tt). rewrite app_nil_r. auto.
Qed.

Lemma at_perform {A} st (c : Call) (answer : World -> Trace -> Result A) :
  ok st c -> respects_at R ok st (perform c answer).
Proof.
  intros Hc W tr. exists st, [mkEvent c st], (answer W tr).
  split; [reflexivity|]. split; [auto|]. constructor; simpl; auto.
Qed.

Lemma at_for_each {A} (f : A -> Task unit) (xs : list A) : forall st,
  (forall x st', R st st' -> respects_at R ok st' (f x)) ->
  respects_at R ok st (for_each f xs).
Proof.
  induction xs as [|x xs IH]; intros st Hf; simpl.
  - apply at_ret.
  - apply at_bind; [auto|]. intros [] st' HR. apply IH. eauto.
Qed.

End Respects.

(** ** The notification itself *)

Lemma notifications_app infoHash (tr1 tr2 : Trace) :
  notifications infoHash (tr1 ++ tr2) = (notifications infoHash tr1 + notifications infoHash tr2)%nat.
Proof.
  unfold notifications. rewrite List.filter_app, length_app. reflexivity.
Qed.

(** The calls of a quiet task start no notification and were all made in
    the state the task started in. *)
Lemma quiet_events infoHash (st : State) (evs : list Event) :
  Forall (fun e => transport_only (call e) /\ st = snapshot e) evs ->
  notifications infoHash evs = 0%nat /\ (forall e, In e evs -> snapshot e = st).
Proof.
  induction 1 as [|e evs [Hc Hs] _ [IH1 IH2]]; [split; [reflexivity | intros e []]|].
  split.
  - unfold notifications in *. simpl. unfold is_notification at 1.
    destruct (call e); simpl in *; try assumption. contradiction.
  - intros e' [<-|Hin]; auto.
Qed.

Create HintDb respects.

Ltac side_condition :=
  solve [ exact I | intros; reflexivity | intros; congruence | intros; exact I
        | eauto with respects ].

Ltac respects_step :=
  match goal with
  | |- respects_at _ _ _ (ret _) => apply at_ret
  | |- respects_at _ _ _ (throw _) => apply at_throw
  | |- respects_at _ _ _ (bind get_state _) => apply at_get
  | |- respects_at _ _ _ (perform _ _) => apply at_perform
  | |- respects_at _ _ _ (modify _) => apply at_modify
  | |- respects_at _ _ _ (bind _ _) => apply at_bind
  | |- respects_at _ _ _ (try_catch _ _) => apply at_try_catch
  | |- respects_at _ _ _ (for_each _ _) => apply at_for_each
  | |- respects_at _ _ _ (if ?b then _ else _) => destruct b eqn:?
  | |- respects_at _ _ _ (match ?x with _ => _ end) => destruct x eqn:?
  end;
  try side_condition; intros; subst.

Ltac respects_tac :=
  unfold store_session, set_timeout;
  unfold mbind, task_bind, mret, task_ret, ack, say,
         reactions_add, reactions_remove, postMessage, call_torrentHandler,
         call_torrentMoveHandler, search_api, getMagnet, console_error;
  repeat respects_step.

Ltac quiet_tac := unfold quiet; intros ?st; respects_tac.

Lemma notification_body_quiet infoHash : quiet (notification_body infoHash).
Proof. unfold notification_body. quiet_tac. Qed.

(** ** Tasks that never throw *)

Lemma returns_ret {A} (a : A) : returns (ret a).
Proof. intros W st tr. exists a. reflexivity. Qed.

Lemma returns_get_state : returns get_state.
Proof. intros W st tr. exists st. reflexivity. Qed.

Lemma returns_modify f : returns (modify f).
Proof. intros W st tr. exists tt. reflexivity. Qed.

Lemma returns_console_error label : returns (console_error label).
Proof. intros W st tr. exists tt. reflexivity. Qed.

Lemma returns_mark infoHash : returns (mark_notification infoHash).
Proof. intros W st tr. exists tt. reflexivity. Qed.

Lemma returns_bind {A B} (t : Task A) (k : A -> Task B) :
  returns t -> (forall a, returns (k a)) -> returns (bind t k).
Proof.
  intros Ht Hk W st tr. unfold bind.
  destruct (Ht W st tr) as [a Ha]. unfold result_of in Ha.
  destruct (t W st tr) as [[st1 tr1] r1]. simpl in Ha. subst r1.
  apply Hk.
Qed.

(** A [try] whose [catch] block cannot throw cannot throw. *)
Lemma returns_try_catch {A} (body : Task A) (handler : string -> Task A) :
  (forall e, returns (handler e)) -> returns (try_catch body handler).
Proof.
  intros Hk W st tr. unfold try_catch.
  destruct (body W st tr) as [[st1 tr1] [a|e]].
  - exists a. reflexivity.
  - apply Hk.
Qed.

Lemma returns_for_each {A} (f : A -> Task unit) (xs : list A) :
  (forall x, returns (f x)) -> returns (for_each f xs).
Proof.
  intros Hf. induction xs as [|x xs IH]; simpl.
  - apply returns_ret.
  - apply returns_bind; auto.
Qed.

Ltac returns_step :=
  first
    [ apply returns_ret
    | apply returns_get_state
    | apply returns_modify
    | apply returns_console_error
    | apply returns_mark
    | apply returns_bind
    | apply returns_try_catch
    | apply returns_for_each
    | match goal with
      | |- returns (if ?b then _ else _) => destruct b
      | |- returns (match ?x with _ => _ end) => destruct x
      end ];
  intros.

Ltac returns_tac :=
  unfold mbind, task_bind, mret, task_ret;
  repeat returns_step.

Lemma notification_body_returns infoHash : returns (notification_body infoHash).
Proof. unfold notification_body. returns_tac. Qed.

Lemma returned_tt (r : Result unit) : (exists a, r = Returned a) -> r = Returned tt.
Proof. intros [[] ->]. reflexivity. Qed.

(** [sendCompletionNotification] never throws and writes no field; in the
    history it leaves its own mark once, followed by calls to the
    transport only, all made in the same state. *)
Lemma sendCompletionNotification_spec W st tr infoHash :
  exists evs,
    sendCompletionNotification infoHash W st tr
      = (st, tr ++ mkEvent (EnterNotification infoHash) st :: evs, Returned tt)
    /\ (forall h, notifications h evs = 0%nat)
    /\ (forall e, In e evs -> snapshot e = st).
Proof.
  unfold sendCompletionNotification, mark_notification.
  unfold mbind, task_bind, bind, perform.
  pose proof (notification_body_returns infoHash W st
                (tr ++ [mkEvent (EnterNotification infoHash) st])) as Hret.
  apply returned_tt in Hret. unfold result_of in Hret.
  destruct (notification_body_quiet infoHash st W
              (tr ++ [mkEvent (EnterNotification infoHash) st]))
    as (st' & evs & r & Heq & <- & Hev).
  rewrite Heq in *. simpl in Hret. subst r.
  exists evs. rewrite <- app_assoc. simpl. split; [reflexivity|].
  split.
  - intros h. eapply quiet_events; eauto.
  - eapply quiet_events with (infoHash := infoHash); eauto.
Qed.

(** ** One progress update *)

Lemma with_trackedTorrents_twice f g st :
  with_trackedTorrents f (with_trackedTorrents g st)
  = with_trackedTorrents (fun m => f (g m)) st.
Proof. reflexivity. Qed.

Lemma notifications_cons_mark infoHash h st evs :
  notifications h (mkEvent (EnterNotification infoHash) st :: evs)
  = ((if String.eqb infoHash h then 1 else 0) + notifications h evs)%nat.
Proof.
  unfold notifications. simpl. unfold is_notification at 1. simpl.
  destruct (String.eqb infoHash h); reflexivity.
Qed.

(** What one call of [updateTorrentProgress] does: it returns; the state
    is [update_state]; the notification is started once if the call
    completes the job and not at all otherwise; no other job is notified;
    and whatever is called is called with [notified] already set. *)
Lemma updateTorrentProgress_spec W st tr infoHash p :
  exists evs,
    updateTorrentProgress infoHash p W st tr
      = (update_state infoHash p st, tr ++ evs, Returned tt)
    /\ notifications infoHash evs = (if completes st infoHash p then 1 else 0)%nat
    /\ (forall h, h <> infoHash -> notifications h evs = 0%nat)
    /\ (forall e, In e evs -> notified_in (snapshot e) infoHash).
Proof.
  unfold updateTorrentProgress, update_state, completes.
  unfold mbind, task_bind, bind, get_state, modify, ret.
  destruct (isEnabled st) eqn:He; simpl.
  2:{ exists []. rewrite app_nil_r. repeat split; auto. intros e []. }
  destruct (trackedTorrents st !! infoHash) as [t|] eqn:Ht; simpl.
  2:{ exists []. rewrite app_nil_r. repeat split; auto. intros e []. }
  unfold updated.
  destruct (just_completed p (progress t) (notified t)) eqn:Hc; simpl.
  - rewrite with_trackedTorrents_twice.
    match goal with
    | |- context [sendCompletionNotification infoHash W ?s tr] =>
        destruct (sendCompletionNotification_spec W s tr infoHash)
          as (evs & -> & Hn & Hs)
    end.
    rewrite with_trackedTorrents_twice.
    exists (mkEvent (EnterNotification infoHash)
              (with_trackedTorrents
                 (fun m => <[infoHash:=mkTracked p true (metadata t)]>
                             (<[infoHash:=mkTracked p (notified t) (metadata t)]> m)) st)
            :: evs).
    split.
    { unfold with_trackedTorrents. simpl. rewrite !insert_insert_eq.
      rewrite orb_true_r. reflexivity. }
    split.
    { rewrite notifications_cons_mark, String.eqb_refl, Hn. reflexivity. }
    split.
    { intros h Hh. rewrite notifications_cons_mark, Hn.
      destruct (String.eqb_spec infoHash h); [congruence | reflexivity]. }
    intros e [<-|Hin]; [|rewrite (Hs e Hin)];
      (exists (mkTracked p true (metadata t)); simpl;
       rewrite lookup_insert_eq; auto).
  - exists []. rewrite app_nil_r, orb_false_r.
    rewrite with_trackedTorrents_twice.
    unfold with_trackedTorrents. rewrite insert_insert_eq.
    repeat split; auto. intros e [].
Qed.

(** C4. [updateTorrentProgress] on an id that is not in [trackedTorrents]
    does nothing: the state is the one it started from, nothing is added to
    the history (so no notification is started), and it returns. *)
Theorem updateTorrentProgress_unregistered :
  forall (W : World) (st : State) (tr : Trace) (infoHash : string) (p : Z),
    trackedTorrents st !! infoHash = None ->
    updateTorrentProgress infoHash p W st tr = (st, tr, Returned tt).
Proof.
  intros W st tr infoHash p Hnone.
  unfold updateTorrentProgress. run_task.
  destruct (isEnabled st); simpl; [| reflexivity].
  rewrite Hnone. reflexivity.
Qed.

Lemma updateTorrentProgress_unregistered_witness :
  trackedTorrents Sample.one_job !! "deadbeef" = None
  /\ updateTorrentProgress "deadbeef" 100 Sample.hostile Sample.one_job []
     = (Sample.one_job, [], Returned tt).
Proof.
  split; [reflexivity|].
  apply updateTorrentProgress_unregistered. reflexivity.
Defined.

(** ** Runs of progress updates *)

Lemma progress_calls_spec W infoHash ps : forall st tr,
  exists evs,
    progress_calls infoHash ps W st tr
      = (after_updates infoHash ps st, tr ++ evs, Returned tt)
    /\ notifications infoHash evs = completions infoHash ps st
    /\ (forall h, h <> infoHash -> notifications h evs = 0%nat)
    /\ (forall e, In e evs -> notified_in (snapshot e) infoHash).
Proof.
  unfold progress_calls.
  induction ps as [|p ps IH]; intros st tr; simpl.
  - exists []. rewrite app_nil_r. repeat split; auto. intros e [].
  - unfold mbind, task_bind, bind.
    destruct (updateTorrentProgress_spec W st tr infoHash p)
      as (evs1 & -> & Hn1 & Ho1 & Hs1).
    destruct (IH (update_state infoHash p st) (tr ++ evs1))
      as (evs2 & -> & Hn2 & Ho2 & Hs2).
    exists (evs1 ++ evs2). rewrite app_assoc. split; [reflexivity|].
    split; [rewrite notifications_app; congruence|].
    split.
    + intros h Hh. rewrite notifications_app, Ho1, Ho2; auto.
    + intros e Hin. apply in_app_or in Hin. destruct Hin; auto.
Qed.

Lemma completes_can_fire st infoHash p :
  completes st infoHash p = true -> can_fire st infoHash = true.
Proof.
  unfold completes, can_fire, just_completed.
  destruct (isEnabled st); simpl; [|discriminate].
  destruct (trackedTorrents st !! infoHash) as [t|]; [|discriminate].
  destruct (notified t); simpl; [|reflexivity].
  destruct (100 <=? p), (progress t <? 100); discriminate.
Qed.

Lemma isEnabled_update_state infoHash p st :
  isEnabled (update_state infoHash p st) = isEnabled st.
Proof.
  unfold update_state. destruct (isEnabled st) eqn:He; [|assumption].
  destruct (trackedTorrents st !! infoHash); simpl; assumption.
Qed.

Lemma lookup_update_state infoHash p st :
  isEnabled st = true ->
  trackedTorrents (update_state infoHash p st) !! infoHash
  = updated p <$> trackedTorrents st !! infoHash.
Proof.
  intros He. unfold update_state. rewrite He.
  destruct (trackedTorrents st !! infoHash) as [t|] eqn:Ht; simpl.
  - apply lookup_insert_eq.
  - assumption.
Qed.

(** After an update a notification can still be started exactly when it
    could before and the update did not complete the job. *)
Lemma can_fire_update_state infoHash p st :
  can_fire (update_state infoHash p st) infoHash
  = can_fire st infoHash && negb (completes st infoHash p).
Proof.
  unfold can_fire, completes. rewrite isEnabled_update_state.
  destruct (isEnabled st) eqn:He; simpl; [|reflexivity].
  rewrite lookup_update_state by assumption.
  destruct (trackedTorrents st !! infoHash) as [t|]; simpl; [|reflexivity].
  unfold just_completed.
  destruct (notified t), (100 <=? p), (progress t <? 100); reflexivity.
Qed.

Lemma completions_cannot_fire infoHash ps : forall st,
  can_fire st infoHash = false -> completions infoHash ps st = 0%nat.
Proof.
  induction ps as [|p ps IH]; intros st Hc; simpl; [reflexivity|].
  destruct (completes st infoHash p) eqn:Hp.
  - apply completes_can_fire in Hp. congruence.
  - rewrite IH; [reflexivity|]. rewrite can_fire_update_state, Hc. reflexivity.
Qed.

Lemma completions_le_1 infoHash ps : forall st,
  (completions infoHash ps st <= 1)%nat.
Proof.
  induction ps as [|p ps IH]; intros st; simpl; [lia|].
  destruct (completes st infoHash p) eqn:Hp.
  - rewrite completions_cannot_fire; [lia|].
    rewrite can_fire_update_state, Hp. apply andb_false_r.
  - apply IH.
Qed.

Lemma completions_app infoHash ps1 ps2 : forall st,
  completions infoHash (ps1 ++ ps2) st
  = (completions infoHash ps1 st
     + completions infoHash ps2 (after_updates infoHash ps1 st))%nat.
Proof.
  induction ps1 as [|p ps1 IH]; intros st; simpl; [reflexivity|].
  rewrite IH. unfold after_updates. simpl. lia.
Qed.

Lemma completions_1_iff infoHash ps : forall st,
  completions infoHash ps st = 1%nat <->
  exists ps1 p ps2,
    ps = ps1 ++ p :: ps2
    /\ completes (after_updates infoHash ps1 st) infoHash p = true.
Proof.
  intros st. split.
  - revert st. induction ps as [|p ps IH]; intros st; simpl; [discriminate|].
    destruct (completes st infoHash p) eqn:Hp.
    + intros _. exists [], p, ps. split; [reflexivity | exact Hp].
    + intros H. destruct (IH _ H) as (ps1 & q & ps2 & -> & Hq).
      exists (p :: ps1), q, ps2. split; [reflexivity | exact Hq].
  - intros (ps1 & p & ps2 & -> & Hp).
    pose proof (completions_le_1 infoHash (ps1 ++ p :: ps2) st) as Hle.
    rewrite completions_app in *. simpl in *. rewrite Hp in *. lia.
Qed.

Lemma completes_iff st infoHash p :
  completes st infoHash p = true <->
  isEnabled st = true /\
  exists t, trackedTorrents st !! infoHash = Some t
            /\ progress t < 100 /\ notified t = false /\ 100 <= p.
Proof.
  unfold completes, just_completed.
  destruct (isEnabled st); simpl.
  2:{ split; [discriminate | intros [? _]; discriminate]. }
  destruct (trackedTorrents st !! infoHash) as [t|].
  2:{ split; [discriminate | intros [_ (t & ? & _)]; discriminate]. }
  rewrite !andb_true_iff, Z.leb_le, Z.ltb_lt, negb_true_iff.
  split.
  - intros [[? ?] ?]. split; [reflexivity|]. exists t. auto.
  - intros [_ (t' & [= <-] & ? & ? & ?)]. auto.
Qed.

(** On an enabled handler, for a tracked job that is not notified, the
    run notifies exactly when it crosses 100 from below. *)
Lemma completions_crossing infoHash ps : forall st t,
  isEnabled st = true ->
  trackedTorrents st !! infoHash = Some t ->
  notified t = false ->
  completions infoHash ps st = (if crossing (progress t) ps then 1 else 0)%nat.
Proof.
  induction ps as [|p ps IH]; intros st t He Ht Hn; simpl; [reflexivity|].
  unfold completes. rewrite He, Ht, Hn. unfold just_completed. simpl.
  rewrite andb_true_r.
  destruct ((100 <=? p) && (progress t <? 100)) eqn:Hc; simpl.
  - rewrite completions_cannot_fire; [reflexivity|].
    rewrite can_fire_update_state.
    unfold completes, just_completed. rewrite He, Ht, Hn. simpl.
    rewrite andb_true_r, Hc. apply andb_false_r.
  - apply (IH (update_state infoHash p st) (updated p t)).
    + rewrite isEnabled_update_state. exact He.
    + rewrite lookup_update_state, Ht by exact He. reflexivity.
    + unfold updated, just_completed. simpl. rewrite Hn. simpl.
      rewrite andb_true_r. exact Hc.
Qed.

Lemma notified_after_completion st infoHash p :
  completes st infoHash p = true ->
  notified_in (update_state infoHash p st) infoHash.
Proof.
  intros Hc. pose proof Hc as Hc'. apply completes_iff in Hc' as [He (t & Ht & _)].
  unfold notified_in. rewrite lookup_update_state, Ht by assumption. simpl.
  exists (updated p t). split; [reflexivity|].
  unfold completes in Hc. rewrite He, Ht in Hc. simpl in Hc.
  unfold updated. simpl. rewrite Hc. apply orb_true_r.
Qed.

Lemma after_updates_app infoHash ps1 ps2 st :
  after_updates infoHash (ps1 ++ ps2) st
  = after_updates infoHash ps2 (after_updates infoHash ps1 st).
Proof. unfold after_updates. apply fold_left_app. Qed.

(** C1. For any run of [updateTorrentProgress] calls against one id, from
    any state and whatever the transport answers: the run returns; the
    completion notification of the id is started at most once; it is
    started exactly when some call of the run is made on an enabled handler
    with the job tracked, its recorded progress below 100, its [notified]
    flag still false, and a new value of at least 100; every call the run
    makes, the start of the notification included, is made with [notified]
    already true; and the call that starts it leaves [notified] true.  In
    terms of the values alone: on an enabled handler, for a job that is
    tracked and not notified, the notification is started exactly when
    some value of the run is at least 100 right after a recorded value
    below 100, the progress recorded at registration coming first. *)
Theorem completion_notification_at_most_once :
  forall (W : World) (st : State) (tr : Trace) (infoHash : string) (ps : list Z),
  exists evs,
    progress_calls infoHash ps W st tr
      = (after_updates infoHash ps st, tr ++ evs, Returned tt)
    /\ (notifications infoHash evs <= 1)%nat
    /\ (notifications infoHash evs = 1%nat <->
        exists ps1 p ps2 t,
          ps = ps1 ++ p :: ps2
          /\ isEnabled (state_of (progress_calls infoHash ps1 W st tr)) = true
          /\ trackedTorrents (state_of (progress_calls infoHash ps1 W st tr)) !! infoHash
             = Some t
          /\ progress t < 100 /\ notified t = false /\ 100 <= p)
    /\ (forall e, In e evs -> notified_in (snapshot e) infoHash)
    /\ (forall ps1 p ps2 t,
          ps = ps1 ++ p :: ps2 ->
          isEnabled (state_of (progress_calls infoHash ps1 W st tr)) = true ->
          trackedTorrents (state_of (progress_calls infoHash ps1 W st tr)) !! infoHash
            = Some t ->
          progress t < 100 -> notified t = false -> 100 <= p ->
          notified_in (state_of (progress_calls infoHash (ps1 ++ [p]) W st tr)) infoHash)
    /\ (forall t0,
          isEnabled st = true ->
          trackedTorrents st !! infoHash = Some t0 ->
          notified t0 = false ->
          (notifications infoHash evs = 1%nat <-> crossing (progress t0) ps = true)).
Proof.
  intros W st tr infoHash ps.
  assert (Hstate : forall qs,
             state_of (progress_calls infoHash qs W st tr) = after_updates infoHash qs st).
  { intros qs. destruct (progress_calls_spec W infoHash qs st tr) as (evs & -> & _).
    reflexivity. }
  destruct (progress_calls_spec W infoHash ps st tr) as (evs & Heq & Hn & _ & Hs).
  exists evs. split; [exact Heq|]. rewrite Hn.
  split; [apply completions_le_1|].
  split.
  - rewrite completions_1_iff. split.
    + intros (ps1 & p & ps2 & -> & Hp).
      apply completes_iff in Hp as [He (t & Ht & ? & ? & ?)].
      exists ps1, p, ps2, t. rewrite Hstate. repeat split; assumption.
    + intros (ps1 & p & ps2 & t & -> & He & Ht & ? & ? & ?).
      rewrite Hstate in He, Ht.
      exists ps1, p, ps2. split; [reflexivity|].
      apply completes_iff. split; [assumption|]. exists t. auto.
  - split; [exact Hs|]. split.
    + intros ps1 p ps2 t _ He Ht ? ? ?. rewrite Hstate in *.
      rewrite after_updates_app. simpl.
      apply notified_after_completion, completes_iff.
      split; [assumption|]. exists t. auto.
    + intros t0 He Ht Hnot.
      rewrite (completions_crossing infoHash ps st t0 He Ht Hnot).
      destruct (crossing (progress t0) ps); split; intros; congruence.
Qed.

(** The run [50, 100, 100, 30, 100] against a job at 40% starts one
    notification, although the value reaches 100 from below twice. *)
Example one_job_one_notification :
  notifications "c0ffee00c0ffee00c0ffee00c0ffee00c0ffee00"
    (trace_of (progress_calls "c0ffee00c0ffee00c0ffee00c0ffee00c0ffee00"
                 [50; 100; 100; 30; 100] Sample.helpful Sample.one_job []))
  = 1%nat.
Proof. vm_compute. reflexivity. Qed.

(** ** The monitor *)






Lemma percentage_in_range (x : Q) :
  (0 <= x)%Q -> (x <= 1)%Q ->
  0 <= percentage exact_times100 (mkTorrentInfo "id" (Some x)) <= 100.
Proof.
  intros H0 H1. unfold percentage, progress_or_zero, math_round, exact_times100.
  cbn [t_progress].
  split.
  - change 0 with (Qfloor 0). apply Qfloor_resp_le.
    apply Qle_trans with (y := (0 * (100 # 1) + 0)%Q); [apply Qle_refl|].
    apply Qplus_le_compat; [apply Qmult_le_compat_r; [assumption | discriminate] | discriminate].
  - assert (Hle : (x * (100 # 1) + (1 # 2) <= (201 # 2))%Q).
    { apply Qle_trans with (y := (1 * (100 # 1) + (1 # 2))%Q).
      - apply Qplus_le_compat; [apply Qmult_le_compat_r; [assumption | discriminate] | apply Qle_refl].
      - discriminate. }
    apply Qfloor_resp_le in Hle. exact Hle.
Qed.

(** 0.996 is fed as 100, 0.424 as 42, a missing value as 0. *)
Example percentages :
  List.map (percentage exact_times100)
    [mkTorrentInfo "a" (Some (996 # 1000)); mkTorrentInfo "b" (Some (424 # 1000));
     mkTorrentInfo "c" None; mkTorrentInfo "d" (Some (1 # 200))]
  = [100; 42; 0; 1].
Proof. reflexivity. Qed.

(** ** The resolver *)

Lemma append_cons (c : ascii) (s1 s2 : string) :
  (String c s1 ++ s2)%string = String c (s1 ++ s2)%string.
Proof. reflexivity. Qed.

Lemma startsWith_spec (s p : string) :
  Str.startsWith s p = true <-> exists rest, s = (p ++ rest)%string.
Proof.
  revert s. induction p as [|c p IH]; intros s; simpl.
  - split; [intros _; exists s; reflexivity | reflexivity].
  - destruct s as [|d s]; simpl.
    + split; [discriminate|]. intros [rest H]. rewrite append_cons in H. discriminate.
    + destruct (Ascii.eqb_spec c d) as [->|Hne]; simpl.
      * rewrite IH.
        split; intros [rest H]; exists rest; rewrite append_cons in *; congruence.
      * split; [discriminate|]. intros [rest H]. rewrite append_cons in H. congruence.
Qed.



Lemma resolve_cons infoHash r registry hash :
  resolve ((infoHash, r) :: registry) hash
  = if Str.startsWith (Str.toLowerCase infoHash) (Str.toLowerCase hash)
    then Some infoHash else resolve registry hash.
Proof.
  unfold resolve. simpl.
  destruct (Str.startsWith _ _); reflexivity.
Qed.






(** The scenario of the specification. *)
Example resolve_aaaa :
  resolve (registered "aaaa2222" 1%nat (registered "aaaa1111" 0%nat [])) "AAAA"
  = Some "aaaa1111"
  /\ resolve (registered "aaaa1111" 1%nat (registered "aaaa2222" 0%nat [])) "aaaa"
    = Some "aaaa2222"
  /\ resolve (registered "aaaa2222" 1%nat (registered "aaaa1111" 0%nat [])) "aaaa2"
    = Some "aaaa2222"
  /\ resolve (registered "aaaa2222" 1%nat (registered "aaaa1111" 0%nat [])) "bbbb"
    = None.
Proof. repeat split. Qed.

(** An id that [resolve] returns is a key of the registry, and it is not
    empty when the text is not. *)
Lemma resolve_is_key registry hash infoHash :
  resolve registry hash = Some infoHash ->
  exists r, JsMap.get infoHash registry = Some r.
Proof.
  induction registry as [|[k r] registry IH]; [discriminate|].
  rewrite resolve_cons. simpl.
  destruct (Str.startsWith (Str.toLowerCase k) (Str.toLowerCase hash)).
  - intros [= ->]. rewrite String.eqb_refl. eauto.
  - intros H. destruct (String.eqb k infoHash); eauto.
Qed.


(** ** The commands and the resolver *)

(** [/torrent-location] with no hash asks for one: the loop is not
    reached with an empty text. *)
Lemma locate_needs_a_hash W st tr command :
  Str.nonempty (Str.trim (c_text command)) = false ->
  w_ack W tr = Returned tt ->
  exists evs,
    torrent_location_command command W st tr
    = (st, tr ++ mkEvent Ack st :: mkEvent (Say ProvideHash (c_thread_ts command)) st :: evs,
       result_of (torrent_location_command command W st tr))
    /\ Forall (fun e => snapshot e = st) evs.
Proof.
  intros Hempty Hack. unfold torrent_location_command, result_of. run_task.
  rewrite Hack, Hempty. cbn [negb].
  destruct (w_say W (tr ++ [mkEvent Ack st]) ProvideHash (c_thread_ts command)) as [ts|e].
  - exists []. rewrite <- app_assoc. split; [reflexivity | constructor].
  - destruct (w_say W _ (ErrorLocation e) (c_thread_ts command));
      eexists; rewrite <- !app_assoc; simpl; (split; [reflexivity|]);
      repeat constructor.
Qed.


Lemma locate_not_found W st tr command :
  Str.nonempty (Str.trim (c_text command)) = true ->
  w_ack W tr = Returned tt ->
  resolve (torrentMetadata st) (Str.trim (c_text command)) = None ->
  exists evs,
    trace_of (torrent_location_command command W st tr)
    = tr ++ mkEvent Ack st
         :: mkEvent (Say (NoTorrentFound (Str.trim (c_text command)))
                         (c_thread_ts command)) st
         :: evs.
Proof.
  intros Hne Hack Hres. unfold torrent_location_command, trace_of. run_task.
  rewrite Hack, Hne. cbn [negb]. rewrite Hres. cbn [Str.truthy negb].
  destruct (w_say W (tr ++ [mkEvent Ack st]) (NoTorrentFound (Str.trim (c_text command)))
                  (c_thread_ts command)) as [ts|e].
  - exists []. rewrite <- app_assoc. reflexivity.
  - destruct (w_say W _ (ErrorLocation e) (c_thread_ts command));
      eexists; rewrite <- !app_assoc; simpl; reflexivity.
Qed.

(** ** Moving a job *)




(** The scenario of the specification: no mover is set, the destination is
    written all the same and the metadata-only report is sent. *)
Example move_without_mover :
  let out := torrent_move_command (mkCommand "C0FF /new/path" "C1" None "U1" "ann")
               Sample.helpful Sample.no_mover [] in
  md_destination <$> metadata_of (state_of out) "c0ffee00c0ffee00c0ffee00c0ffee00c0ffee00"
  = Some "/new/path"
  /\ calls (trace_of out)
     = [Ack;
        Say (MoveReport LocationUpdated "Big Buck Bunny" "/app/downloads/movies"
               "/new/path" "c0ffee00" NoteMetadataOnly) None].
Proof. vm_compute. split; reflexivity. Qed.

(** The mover throws: the destination stays the new one. *)
Example move_with_failing_mover :
  let W := mkWorld (fun _ => Returned tt) (fun _ _ _ => Returned "1.2")
                   (fun _ _ => Returned tt) (fun _ _ _ _ => Returned tt)
                   (fun _ _ _ _ => Thrown "no") (fun _ _ _ => Thrown "EACCES")
                   (fun _ _ => Returned None) (fun _ _ => Returned None) in
  let out := torrent_move_command (mkCommand "c0ff /new/path" "C1" None "U1" "ann")
               W Sample.one_job [] in
  md_destination <$> metadata_of (state_of out) "c0ffee00c0ffee00c0ffee00c0ffee00c0ffee00"
  = Some "/new/path"
  /\ calls (trace_of out)
     = [Ack;
        TorrentMoveHandler "c0ffee00c0ffee00c0ffee00c0ffee00c0ffee00" "/new/path";
        ConsoleError "Move handler error";
        Say (MoveReport LocationUpdated "Big Buck Bunny" "/app/downloads/movies"
               "/new/path" "c0ffee00" NoteMetadataOnly) None].
Proof. vm_compute. split; reflexivity. Qed.



(** ** "add" replies *)

Lemma truthy_Some (o : option string) :
  Str.truthy o = true -> exists s, o = Some s /\ Str.nonempty s = true.
Proof. destruct o as [s|]; [|discriminate]. intros H. exists s. auto. Qed.

(** An "add" reply writes no field, and calls the torrent handler with
    nothing but the link of the entry its scan stops at. *)
Lemma add_reply_listener_respects message :
  respects eq (add_reply_call (m_channel message)) (add_reply_listener message).
Proof.
  intros st. unfold add_reply_listener. respects_tac; try exact I.
  match goal with
  | H : JsMap.first _ _ = Some (?k, ?d) |- _ =>
      exists k, d; split; [exact H|];
      apply first_Some in H as [_ H]; unfold is_magnet_for in H;
      apply andb_true_iff in H as [H _]; apply truthy_Some in H as (link & -> & _)
  end.
  reflexivity.
Qed.

Lemma add_reply_listener_returns message : returns (add_reply_listener message).
Proof. unfold add_reply_listener. returns_tac. Qed.

(** C7. A free-text "add" reply leaves every field of the handler as it
    was, whatever the collaborators answer: the entry it used is still in
    [searchResults], in the same place, and its timer is still pending.
    The calls it makes are all made in that unchanged state, and none of
    them sets a timer.  So the next "add" reply, from the state the first
    one ends in, finds the same entry and does what it would have done
    before the first. *)
Theorem add_reply_does_not_consume_session :
  forall (W : World) (st : State) (tr : Trace) (message : Message),
    state_of (add_reply_listener message W st tr) = st
    /\ result_of (add_reply_listener message W st tr) = Returned tt
    /\ (exists evs,
          trace_of (add_reply_listener message W st tr) = tr ++ evs
          /\ Forall (fun e => snapshot e = st
                              /\ add_reply_call (m_channel message) st (call e)) evs)
    /\ (forall channel_id,
          magnet_entry (state_of (add_reply_listener message W st tr)) channel_id
          = magnet_entry st channel_id)
    /\ (forall (W' : World) (tr' : Trace) (next : Message),
          add_reply_listener next W' (state_of (add_reply_listener message W st tr)) tr'
          = add_reply_listener next W' st tr').
Proof.
  intros W st tr message.
  destruct (add_reply_listener_respects message st W tr)
    as (st' & evs & r & Heq & <- & Hev).
  pose proof (add_reply_listener_returns message W st tr) as Hret.
  apply returned_tt in Hret.
  rewrite Heq in *. unfold state_of, trace_of, result_of in *. simpl in *.
  split; [reflexivity|]. split; [exact Hret|].
  split; [|split; reflexivity].
  exists evs. split; [reflexivity|].
  eapply Forall_impl; [exact Hev|]. simpl. intros e [? ?]. auto.
Qed.

(** Two "add" replies in a row are both served by the one magnet entry. *)
Example one_magnet_two_adds :
  let first := mkMessage "add movie" "20.8" (Some "20.1") "C1" "U1" None in
  let second := mkMessage "add tv /custom" "20.9" (Some "77.7") "C1" "U2" None in
  let out := (add_reply_listener first ;; add_reply_listener second)
               Sample.helpful Sample.selected [] in
  List.filter (fun c => match c with TorrentHandler _ _ _ => true | _ => false end)
              (calls (trace_of out))
  = [TorrentHandler "magnet:?xt=urn:btih:c0ffee00c0ffee00c0ffee00c0ffee00c0ffee00"
                    (Some "movie") None;
     TorrentHandler "magnet:?xt=urn:btih:c0ffee00c0ffee00c0ffee00c0ffee00c0ffee00"
                    (Some "tv") (Some "/custom")]
  /\ state_of out = Sample.selected.
Proof. vm_compute. split; reflexivity. Qed.

(** ** Registration *)

(** What lines 149-168 of [/torrent] leave behind: one metadata object,
    reachable from both maps, with the destination given or else the
    default of the type, and a tracked entry that is not notified. *)
Lemma register_spec W st tr command initialTs torrentType destination torrentName result :
  exists md,
    register command initialTs torrentType destination torrentName result W st tr
    = (with_trackedTorrents
         <[r_infoHash result :=
             mkTracked (default 0 (r_progress result)) false (length (objects st))]>
         (with_torrentMetadata (JsMap.set (r_infoHash result) (length (objects st)))
            (with_objects (fun os => os ++ [md]) st)),
       tr, Returned tt)
    /\ md_destination md = or_else destination (default_destination torrentType)
    /\ md_infoHash md = r_infoHash result.
Proof.
  eexists. split; [|split].
  - unfold register. run_task. destruct (r_progress result); reflexivity.
  - reflexivity.
  - reflexivity.
Qed.

Lemma default_destination_cases :
  default_destination (Some "movie") = "/app/downloads/movies"
  /\ default_destination (Some "tv") = "/app/downloads/tv"
  /\ default_destination None = "/downloads"
  /\ (forall t, t <> "movie" -> t <> "tv" -> default_destination (Some t) = "/downloads").
Proof.
  repeat split. intros t Hm Ht. unfold default_destination.
  destruct (String.eqb_spec t "movie"); [contradiction|].
  destruct (String.eqb_spec t "tv"); [contradiction | reflexivity].
Qed.

(** C2, at a failing input.  From the state in which the reply "1" was
    answered, the message "add movie" makes the handler say that it is
    adding, call the torrent handler with the link of the magnet entry,
    and say that the torrent was added and will be notified.  But the job
    is in neither registry afterwards, so a progress of 100 for it starts
    no notification.  The command [/torrent <link> movie], from the same
    state and with the same answers, registers the job with the default
    destination of movies, and a progress of 100 notifies once. *)
Theorem add_reply_leaves_job_unregistered :
  let infoHash := "c0ffee00c0ffee00c0ffee00c0ffee00c0ffee00" in
  let link := "magnet:?xt=urn:btih:c0ffee00c0ffee00c0ffee00c0ffee00c0ffee00" in
  let reply := mkMessage "add movie" "20.9" (Some "20.1") "C1" "U1" None in
  let out := add_reply_listener reply Sample.helpful Sample.selected [] in
  let command := mkCommand (link ++ " movie") "C1" None "U1" "ann" in
  let out' := torrent_command Sample.decode command Sample.helpful Sample.selected [] in
  calls (trace_of out)
  = [Say (AddingFromSearch (Some "Big Buck Bunny 1080p") (Some "movie") None) (Some "20.1");
     TorrentHandler link (Some "movie") None;
     Say (AddedFromSearch (Some "Big Buck Bunny") "c0ffee00") (Some "20.1")]
  /\ trackedTorrents (state_of out) !! infoHash = None
  /\ metadata_of (state_of out) infoHash = None
  /\ notifications infoHash
       (trace_of (updateTorrentProgress infoHash 100 Sample.helpful (state_of out) []))
     = 0%nat
  /\ (notified <$> trackedTorrents (state_of out') !! infoHash) = Some false
  /\ (md_destination <$> metadata_of (state_of out') infoHash)
     = Some "/app/downloads/movies"
  /\ notifications infoHash
       (trace_of (updateTorrentProgress infoHash 100 Sample.helpful (state_of out') []))
     = 1%nat.
Proof. vm_compute. repeat split; reflexivity. Qed.

(** The same holds of every "add" reply: the registries are never written. *)
Lemma add_reply_registers_nothing W st tr message :
  trackedTorrents (state_of (add_reply_listener message W st tr)) = trackedTorrents st
  /\ torrentMetadata (state_of (add_reply_listener message W st tr)) = torrentMetadata st
  /\ objects (state_of (add_reply_listener message W st tr)) = objects st.
Proof.
  destruct (add_reply_listener_respects message st W tr)
    as (st' & evs & r & -> & <- & _).
  repeat split.
Qed.

(** ** What the scan of the "add" listener can stop at *)

Lemma gained_listings_only_refl st : gained_listings_only st st.
Proof. intros key data H. left. exact H. Qed.

Lemma gained_listings_only_trans a b c :
  gained_listings_only a b -> gained_listings_only b c -> gained_listings_only a c.
Proof.
  intros Hab Hbc key data H.
  destruct (Hbc key data H) as [H'|H']; [apply Hab; exact H' | right; exact H'].
Qed.

#[local] Hint Resolve gained_listings_only_refl gained_listings_only_trans : respects.

(** [/torrent-search] puts nothing into the cache but listings. *)
Lemma torrent_search_command_respects command :
  respects gained_listings_only any_call (torrent_search_command command).
Proof.
  intros st. unfold torrent_search_command. respects_tac.
  - intros key data Hin. simpl in Hin. apply In_set in Hin as [[= -> ->]|Hin].
    + right. split; [reflexivity | discriminate].
    + left. exact Hin.
  - intros key data Hin. left. exact Hin.
Qed.

Lemma is_magnet_for_needs_link channel_id data :
  is_magnet_for channel_id data = true ->
  (exists link, magnetLink data = Some link /\ Str.nonempty link = true)
  /\ channel data = channel_id.
Proof.
  unfold is_magnet_for. rewrite andb_true_iff.
  intros [Hl Hc]. split; [apply truthy_Some; exact Hl|].
  apply String.eqb_eq. exact Hc.
Qed.

(** C10.  The scan of the "add" listener can only stop at an entry of the
    cache that carries a link and has the channel of the message; nothing
    else of the entry is looked at.  An entry without a link is never the
    one, and [/torrent-search] adds no other kind of entry to the cache.
    Every call of the torrent handler that an "add" reply makes carries
    the link of such an entry.  And an "add" message that is not in a
    thread does nothing: no call, no change of state. *)
Theorem add_reply_matches_magnet_sessions_only :
  forall (W : World) (st : State) (tr : Trace) (message : Message),
    (forall key data,
        magnet_entry st (m_channel message) = Some (key, data) ->
        In (key, data) (searchResults st)
        /\ (exists link, magnetLink data = Some link /\ Str.nonempty link = true)
        /\ channel data = m_channel message)
    /\ (forall d1 d2,
          magnetLink d1 = magnetLink d2 -> channel d1 = channel d2 ->
          is_magnet_for (m_channel message) d1 = is_magnet_for (m_channel message) d2)
    /\ (forall data, magnetLink data = None ->
                     is_magnet_for (m_channel message) data = false)
    /\ (forall (command : Command) key data,
          In (key, data)
             (searchResults (state_of (torrent_search_command command W st tr))) ->
          In (key, data) (searchResults st)
          \/ (magnetLink data = None
              /\ is_magnet_for (m_channel message) data = false))
    /\ (exists evs,
          trace_of (add_reply_listener message W st tr) = tr ++ evs
          /\ Forall (fun e => add_reply_call (m_channel message) st (call e)) evs)
    /\ (Str.truthy (m_thread_ts message) = false ->
        add_reply_listener message W st tr = (st, tr, Returned tt)).
Proof.
  intros W st tr message.
  split.
  { intros key data H. apply first_Some in H as [Hin Hm].
    apply is_magnet_for_needs_link in Hm. tauto. }
  split.
  { intros d1 d2 Hl Hc. unfold is_magnet_for. rewrite Hl, Hc. reflexivity. }
  split.
  { intros data Hl. unfold is_magnet_for. rewrite Hl. reflexivity. }
  split.
  { intros command key data Hin.
    destruct (torrent_search_command_respects command st W tr)
      as (st' & evs & r & Heq & HR & _).
    rewrite Heq in Hin. destruct (HR key data Hin) as [H|[Hl _]]; [left; exact H|].
    right. split; [exact Hl|]. unfold is_magnet_for. rewrite Hl. reflexivity. }
  split.
  { destruct (add_reply_listener_respects message st W tr)
      as (st' & evs & r & -> & _ & Hev).
    exists evs. split; [reflexivity|].
    eapply Forall_impl; [exact Hev|]. simpl. tauto. }
  intros Hthread. unfold add_reply_listener. run_task.
  destruct (negb (matches Regex.add_listener (m_text message))); [reflexivity|].
  destruct (Str.truthy (m_bot_id message)); [reflexivity|].
  rewrite Hthread. reflexivity.
Qed.

(** ** Number replies *)

(** A text that the pattern of the listener accepts is one digit from 1 to
    9, or such a digit followed by any digit. *)
Lemma numeric_reply_shape text :
  matches Regex.numeric_reply text = true ->
  exists d1 rest,
    text = String d1 rest
    /\ is_digit_from 1 d1 = true
    /\ (rest = EmptyString
        \/ exists d2, rest = String d2 EmptyString /\ is_digit_from 0 d2 = true).
Proof.
  unfold matches. intros H. apply bool_decide_eq_true in H. destruct H as [cs H].
  unfold Regex.exec, Regex.numeric_reply, Regex.digit_from in H.
  destruct text as [|d1 rest]; [discriminate|].
  cbn [Regex.run] in H.
  fold (is_digit_from 1 d1) in H.
  destruct (is_digit_from 1 d1) eqn:H1; [|discriminate].
  exists d1, rest. split; [reflexivity|]. split; [exact H1|].
  destruct rest as [|d2 rest]; [left; reflexivity|].
  right. exists d2.
  fold (is_digit_from 0 d2) in H.
  destruct (is_digit_from 0 d2) eqn:H2; [|discriminate].
  destruct rest; [split; reflexivity | discriminate].
Qed.

Lemma digit_not_space lo c : is_digit_from lo c = true -> Str.is_space c = false.
Proof.
  unfold is_digit_from, Str.is_space. intros H.
  apply andb_true_iff in H as [H1 H2].
  apply Nat.leb_le in H1, H2.
  destruct (Nat.leb_spec 9 (nat_of_ascii c)), (Nat.leb_spec (nat_of_ascii c) 13),
           (Nat.eqb_spec (nat_of_ascii c) 32); simpl; try reflexivity; lia.
Qed.

(** The number such a text stands for is between 1 and 99. *)
Lemma ordinal_range text :
  matches Regex.numeric_reply text = true -> (1 <= ordinal text <= 99)%nat.
Proof.
  intros H. apply numeric_reply_shape in H as (d1 & rest & -> & H1 & Hrest).
  pose proof (digit_not_space _ _ H1) as Hs1.
  unfold is_digit_from in H1. apply andb_true_iff in H1 as [H1 H1'].
  apply Nat.leb_le in H1, H1'.
  destruct Hrest as [->|(d2 & -> & H2)].
  - unfold ordinal, Str.trim. simpl. rewrite Hs1. simpl. rewrite Hs1. simpl. lia.
  - pose proof (digit_not_space _ _ H2) as Hs2.
    unfold is_digit_from in H2. apply andb_true_iff in H2 as [H2 H2'].
    apply Nat.leb_le in H2, H2'.
    unfold ordinal, Str.trim. simpl. rewrite Hs1. simpl. rewrite Hs2. simpl. lia.
Qed.

(** C8, amended.  A message that is not from a bot, whose text is one of
    the numbers 1 to 99, sent in the thread of a message that has a
    listing in the cache: when the number is within the listing, the
    handler goes on with the result at that place, counted from 1, and
    with no other; when it is beyond, the handler reports the invalid
    selection in the thread, logs if that fails, and does nothing else: no
    link is asked for, no timer is set, no field is written. *)
Theorem number_reply_selects_ordinal :
  forall (W : World) (st : State) (tr : Trace) (message : Message)
         (t : string) (data : SessionData) (rs : list SearchResult),
    matches Regex.numeric_reply (m_text message) = true ->
    Str.truthy (m_bot_id message) = false ->
    m_thread_ts message = Some t ->
    Str.nonempty t = true ->
    JsMap.get t (searchResults st) = Some data ->
    results data = Some rs ->
    (1 <= ordinal (m_text message) <= 99)%nat
    /\ selects_ordinal W st tr message t rs.
Proof.
  intros W st tr message t data rs Hm Hbot Ht Hne Hget Hrs.
  pose proof (ordinal_range _ Hm) as Hn.
  split; [exact Hn|].
  unfold selects_ordinal. cbv zeta.
  set (n := ordinal (m_text message)) in *.
  split.
  - intros Hle.
    destruct (rs !! (n - 1)%nat) as [selected|] eqn:Hsel.
    2:{ apply lookup_ge_None in Hsel. lia. }
    exists selected. split; [reflexivity|].
    unfold number_reply_listener. rewrite Hm. cbn [negb].
    match goal with
    | |- try_catch ?b _ W st tr = _ =>
        assert (Hb : b W st tr = retrieve_magnet message selected W st tr)
    end.
    { rewrite Hbot, Ht.
      change (Str.truthy (Some t)) with (Str.nonempty t). rewrite Hne. cbn [negb].
      unfold mbind at 1, task_bind at 1, bind at 1, get_state.
      unfold default, id. cbn [from_option]. rewrite Hget, Hrs.
      fold n.
      replace (Z.of_nat n - 1 <? 0) with false by (symmetry; apply Z.ltb_ge; lia).
      replace (Z.of_nat (length rs) <=? Z.of_nat n - 1) with false
        by (symmetry; apply Z.leb_gt; lia).
      cbn [orb].
      replace (Z.to_nat (Z.of_nat n - 1)) with (n - 1)%nat by lia.
      rewrite Hsel. reflexivity. }
    unfold try_catch. rewrite Hb. reflexivity.
  - intros Hgt.
    unfold number_reply_listener. rewrite Hm. cbn [negb].
    unfold try_catch. rewrite Hbot, Ht.
    change (Str.truthy (Some t)) with (Str.nonempty t). rewrite Hne. cbn [negb].
    unfold mbind at 1, task_bind at 1, bind at 1, get_state.
    unfold default, id. cbn [from_option]. rewrite Hget, Hrs.
    fold n.
    replace (Z.of_nat (length rs) <=? Z.of_nat n - 1) with true
      by (symmetry; apply Z.leb_le; lia).
    rewrite orb_true_r.
    unfold mbind, task_bind, bind, say, perform, ret, selection_failed, console_error,
      perform.
    destruct (w_say W tr (InvalidSelection (length rs)) (Some t)) as [ts|e].
    + exists []. split; [reflexivity | constructor].
    + eexists [_]. rewrite <- app_assoc. split; [reflexivity|].
      repeat constructor. eexists. reflexivity.
Qed.

(** The scenario of the specification: three results, the reply "2" asks
    for the link of the second and stores it under the id of the reply. *)
Example reply_2_selects_second :
  let out := number_reply_listener (mkMessage "2" "20.4" (Some "20.1") "C1" "U1" None)
               Sample.helpful Sample.searched [] in
  calls (trace_of out)
  = [Say (GettingMagnet "Big Buck Bunny 720p") (Some "20.1");
     GetMagnet (mkSearchResult "Big Buck Bunny 720p" (Some "300 MB") (Some "40")
                  (Some "2") (Some "Yts") "badc0de0badc0de0badc0de0badc0de0badc0de0");
     Say (MagnetRetrieved
            (mkSearchResult "Big Buck Bunny 720p" (Some "300 MB") (Some "40")
               (Some "2") (Some "Yts") "badc0de0badc0de0badc0de0badc0de0badc0de0")
            "magnet:?xt=urn:btih:badc0de0badc0de0badc0de0badc0de0badc0de0")
         (Some "20.1");
     SetTimeout "20.4" 300000]
  /\ magnetLink <$> JsMap.get "20.4" (searchResults (state_of out))
     = Some (Some "magnet:?xt=urn:btih:badc0de0badc0de0badc0de0badc0de0badc0de0")
  /\ timers (state_of out) = [mkTimer 600000 "20.1"; mkTimer 301000 "20.4"].
Proof. vm_compute. repeat split; reflexivity. Qed.

(** The reply "7" to the same listing is reported and changes nothing. *)
Example reply_7_is_out_of_range :
  number_reply_listener (mkMessage "7" "20.4" (Some "20.1") "C1" "U1" None)
    Sample.helpful Sample.searched []
  = (Sample.searched,
     [mkEvent (Say (InvalidSelection 3) (Some "20.1")) Sample.searched],
     Returned tt).
Proof. vm_compute. reflexivity. Qed.

Lemma number_reply_selects_ordinal_witness :
  (1 <= ordinal "2" <= 99)%nat
  /\ selects_ordinal Sample.helpful Sample.searched []
       (mkMessage "2" "20.4" (Some "20.1") "C1" "U1" None) "20.1" Sample.listing.
Proof.
  apply (number_reply_selects_ordinal Sample.helpful Sample.searched []
           (mkMessage "2" "20.4" (Some "20.1") "C1" "U1" None)
           "20.1" Sample.search_session Sample.listing);
    reflexivity.
Defined.

(** C8 as it is stated fails for a message that a bot sent: the reply "2"
    of a bot in the thread of a listing with three results is dropped, so
    the handler does not go on with the second result. *)
Lemma number_reply_of_a_bot_is_ignored :
  ~ (forall (W : World) (st : State) (tr : Trace) (message : Message)
            (t : string) (data : SessionData) (rs : list SearchResult),
        matches Regex.numeric_reply (m_text message) = true ->
        m_thread_ts message = Some t ->
        Str.nonempty t = true ->
        JsMap.get t (searchResults st) = Some data ->
        results data = Some rs ->
        selects_ordinal W st tr message t rs).
Proof.
  intros H.
  specialize (H Sample.helpful Sample.searched []
                (mkMessage "2" "20.4" (Some "20.1") "C1" "U1" (Some "B042"))
                "20.1" Sample.search_session Sample.listing
                eq_refl eq_refl eq_refl eq_refl eq_refl).
  destruct H as [H _].
  destruct (H ltac:(vm_compute; lia)) as (selected & Hsel & Heq).
  vm_compute in Hsel. injection Hsel as <-.
  apply (f_equal (fun out => length (trace_of out))) in Heq.
  vm_compute in Heq. discriminate.
Qed.

Example bot_reply_does_nothing :
  number_reply_listener (mkMessage "2" "20.4" (Some "20.1") "C1" "U1" (Some "B042"))
    Sample.helpful Sample.searched []
  = (Sample.searched, [], Returned tt).
Proof. vm_compute. reflexivity. Qed.

(** ** Tasks and the cache *)

Lemma timeouts_app (evs1 evs2 : list Event) :
  timeouts (evs1 ++ evs2) = timeouts evs1 ++ timeouts evs2.
Proof. unfold timeouts. apply flat_map_app. Qed.

Lemma stored_nothing st : stored [] st st [].
Proof. repeat split. Qed.

Lemma stored_then stores1 stores2 st st1 st2 evs1 evs2 :
  stored stores1 st st1 evs1 -> stored stores2 st1 st2 evs2 ->
  stored (stores1 ++ stores2) st st2 (evs1 ++ evs2).
Proof.
  intros (Hc1 & Hs1 & Ht1) (Hc2 & Hs2 & Ht2).
  split; [congruence|]. split.
  - rewrite fold_left_app, <- Hs1, Hs2, Hc1. reflexivity.
  - rewrite timeouts_app, map_app. congruence.
Qed.

Lemma caches_weaken {A} n m st (t : Task A) :
  (n <= m)%nat -> caches_at n st t -> caches_at m st t.
Proof.
  intros Hle H W tr. destruct (H W tr) as (st' & evs & r & stores & ? & ? & ? & ?).
  exists st', evs, r, stores.
  split; [assumption|]. split; [assumption|]. split; [assumption | lia].
Qed.

Lemma caches_ret {A} n st (a : A) : caches_at n st (ret a).
Proof.
  intros W tr. exists st, [], (Returned a), []. rewrite app_nil_r.
  repeat split; auto. simpl. lia.
Qed.

Lemma caches_throw {A} n st (e : string) : caches_at n st (@throw A e).
Proof.
  intros W tr. exists st, [], (Thrown e), []. rewrite app_nil_r.
  repeat split; auto. simpl. lia.
Qed.

Lemma caches_get {B} n st (k : State -> Task B) :
  caches_at n st (k st) -> caches_at n st (bind get_state k).
Proof. intros Hk W tr. unfold bind, get_state. apply Hk. Qed.

Lemma caches_perform {A} n st (c : Call) (answer : World -> Trace -> Result A) :
  not_a_timeout c -> caches_at n st (perform c answer).
Proof.
  intros Hc W tr. exists st, [mkEvent c st], (answer W tr), [].
  split; [reflexivity|]. split; [|split; [constructor | simpl; lia]].
  repeat split. unfold timeouts. simpl. destruct c; try reflexivity. contradiction.
Qed.

Lemma caches_modify n st (f : State -> State) :
  cache_of (f st) = cache_of st -> clock (f st) = clock st ->
  caches_at n st (modify f).
Proof.
  intros Hf Hc W tr. exists (f st), [], (Returned tt), []. rewrite app_nil_r.
  split; [reflexivity|]. split; [|split; [constructor | simpl; lia]].
  repeat split; assumption.
Qed.

Lemma caches_bind_general {A B} n1 n2 st (t : Task A) (k : A -> Task B) :
  caches_at n1 st t ->
  (forall a st', caches_at n2 st' (k a)) ->
  caches_at (n1 + n2) st (bind t k).
Proof.
  intros Ht Hk W tr. unfold bind.
  destruct (Ht W tr) as (st1 & evs1 & r1 & stores1 & -> & Hs1 & Hf1 & Hl1).
  destruct r1 as [a|e].
  - destruct (Hk a st1 W (tr ++ evs1))
      as (st2 & evs2 & r2 & stores2 & -> & Hs2 & Hf2 & Hl2).
    exists st2, (evs1 ++ evs2), r2, (stores1 ++ stores2). rewrite app_assoc.
    split; [reflexivity|]. split; [eapply stored_then; eauto|].
    split; [apply Forall_app; auto|]. rewrite length_app. lia.
  - exists st1, evs1, (Thrown e), stores1.
    split; [reflexivity|]. split; [exact Hs1|]. split; [exact Hf1 | lia].
Qed.

(** The usual case: everything before the last step leaves the cache alone. *)
Lemma caches_bind {A B} n st (t : Task A) (k : A -> Task B) :
  caches_at 0 st t ->
  (forall a st', caches_at n st' (k a)) ->
  caches_at n st (bind t k).
Proof. intros Ht Hk. apply (caches_bind_general 0 n); assumption. Qed.

Lemma caches_try_catch {A} n st (body : Task A) (handler : string -> Task A) :
  caches_at n st body ->
  (forall e st', caches_at 0 st' (handler e)) ->
  caches_at n st (try_catch body handler).
Proof.
  intros Ht Hk W tr. unfold try_catch.
  destruct (Ht W tr) as (st1 & evs1 & r1 & stores1 & -> & Hs1 & Hf1 & Hl1).
  destruct r1 as [a|e].
  - exists st1, evs1, (Returned a), stores1. auto.
  - destruct (Hk e st1 W (tr ++ evs1))
      as (st2 & evs2 & r2 & stores2 & -> & Hs2 & Hf2 & Hl2).
    exists st2, (evs1 ++ evs2), r2, (stores1 ++ stores2). rewrite app_assoc.
    split; [reflexivity|]. split; [eapply stored_then; eauto|].
    split; [apply Forall_app; auto|]. rewrite length_app. lia.
Qed.

Lemma caches_for_each {A} (f : A -> Task unit) (xs : list A) : forall st,
  (forall x st', caches_at 0 st' (f x)) -> caches_at 0 st (for_each f xs).
Proof.
  induction xs as [|x xs IH]; intros st Hf; simpl.
  - apply caches_ret.
  - apply caches_bind; [apply Hf|]. intros [] st'. apply IH. exact Hf.
Qed.

(** A session is stored: one store, with its timer. *)
Lemma caches_store_session st key data ttl :
  session_shape (mkStore key data ttl) ->
  caches_at 1 st (store_session key data ttl).
Proof.
  intros Hshape W tr.
  exists (with_timers (fun ts => ts ++ [mkTimer (clock st + ttl) key])
            (with_searchResults (JsMap.set key data) st)),
         [mkEvent (SetTimeout key ttl)
            (with_timers (fun ts => ts ++ [mkTimer (clock st + ttl) key])
               (with_searchResults (JsMap.set key data) st))],
         (Returned tt), [mkStore key data ttl].
  split; [reflexivity|]. split; [repeat split|].
  split; [constructor; [exact Hshape | constructor] | simpl; lia].
Qed.

Ltac caches_step :=
  match goal with
  | |- caches_at _ _ (ret _) => apply caches_ret
  | |- caches_at _ _ (throw _) => apply caches_throw
  | |- caches_at _ _ (store_session _ _ _) => apply caches_store_session
  | |- caches_at _ _ (bind get_state _) => apply caches_get
  | |- caches_at _ _ (perform _ _) => apply caches_perform; exact I
  | |- caches_at _ _ (modify _) => apply caches_modify; reflexivity
  | |- caches_at _ _ (bind _ _) => apply caches_bind; [| intros]
  | |- caches_at _ _ (try_catch _ _) => apply caches_try_catch; [| intros]
  | |- caches_at _ _ (for_each _ _) => apply caches_for_each; intros
  | |- caches_at _ _ (if ?b then _ else _) => destruct b eqn:?
  | |- caches_at _ _ (match ?x with _ => _ end) => destruct x eqn:?
  end.

Ltac caches_tac :=
  unfold mbind, task_bind, mret, task_ret, ack, say,
         reactions_add, reactions_remove, postMessage, call_torrentHandler,
         call_torrentMoveHandler, search_api, getMagnet, console_error,
         mark_notification;
  repeat caches_step.

Lemma sendCompletionNotification_caches infoHash st :
  caches_at 0 st (sendCompletionNotification infoHash).
Proof. unfold sendCompletionNotification, notification_body. caches_tac. Qed.

Lemma updateTorrentProgress_caches infoHash p st :
  caches_at 0 st (updateTorrentProgress infoHash p).
Proof.
  unfold updateTorrentProgress. caches_tac.
  apply sendCompletionNotification_caches.
Qed.

Lemma monitorProgress_caches times100 torrents st :
  caches_at 0 st (monitorProgress times100 torrents).
Proof.
  unfold monitorProgress. caches_tac. apply updateTorrentProgress_caches.
Qed.

Lemma torrent_command_caches decode command st :
  caches_at 0 st (torrent_command decode command).
Proof. unfold torrent_command, register. caches_tac. Qed.

Lemma torrent_location_command_caches command st :
  caches_at 0 st (torrent_location_command command).
Proof. unfold torrent_location_command. caches_tac. Qed.

Lemma torrent_move_command_caches command st :
  caches_at 0 st (torrent_move_command command).
Proof. unfold torrent_move_command. caches_tac. Qed.

Lemma add_reply_listener_caches message st :
  caches_at 0 st (add_reply_listener message).
Proof. unfold add_reply_listener. caches_tac. Qed.

(** [/torrent-search] stores at most one session: a listing, for ten
    minutes. *)
Lemma torrent_search_command_caches command st :
  caches_at 1 st (torrent_search_command command).
Proof.
  unfold torrent_search_command. caches_tac.
  left. repeat split. discriminate.
Qed.

(** A number reply stores at most one session: a link, for five minutes. *)
Lemma number_reply_listener_caches message st :
  caches_at 1 st (number_reply_listener message).
Proof.
  unfold number_reply_listener, retrieve_magnet, selection_failed. caches_tac.
  right. repeat split. simpl.
  match goal with H : negb _ = false |- _ => apply negb_false_iff in H; exact H end.
Qed.

Lemma magnet_link_listener_caches auto_add decode message st :
  caches_at 0 st (magnet_link_listener auto_add decode message).
Proof. unfold magnet_link_listener. caches_tac. Qed.

Lemma on_message_caches rt message st : caches_at 1 st (on_message rt message).
Proof.
  unfold on_message, mbind, task_bind.
  apply (caches_bind_general 1 0).
  - apply number_reply_listener_caches.
  - intros [] st'. apply caches_bind.
    + apply add_reply_listener_caches.
    + intros [] st''. apply magnet_link_listener_caches.
Qed.

(** ** Timers *)

Lemma fire_all_fields (l : list Timer) : forall st,
  searchResults (fold_left (fun s tm => fire tm s) l st)
  = fold_left (fun m tm => JsMap.delete (victim tm) m) l (searchResults st)
  /\ timers (fold_left (fun s tm => fire tm s) l st) = timers st
  /\ clock (fold_left (fun s tm => fire tm s) l st) = clock st.
Proof.
  induction l as [|tm l IH]; intros st; simpl; [auto|].
  destruct (IH (fire tm st)) as (H1 & H2 & H3).
  rewrite H1, H2, H3. auto.
Qed.

Lemma get_delete_all (k : string) (l : list Timer) : forall m : list (string * SessionData),
  JsMap.get k (fold_left (fun m tm => JsMap.delete (victim tm) m) l m)
  = if existsb (fun tm => String.eqb (victim tm) k) l then None else JsMap.get k m.
Proof.
  induction l as [|tm l IH]; intros m; simpl; [reflexivity|].
  rewrite IH, get_delete.
  destruct (String.eqb (victim tm) k); simpl; [|reflexivity].
  destruct (existsb _ l); reflexivity.
Qed.

Lemma advance_fields t st :
  clock (advance t st) = Z.max (clock st) t
  /\ timers (advance t st)
     = List.filter (fun tm => negb (due (Z.max (clock st) t) tm)) (timers st)
  /\ searchResults (advance t st)
     = fold_left (fun m tm => JsMap.delete (victim tm) m)
                 (List.filter (due (Z.max (clock st) t)) (timers st)) (searchResults st).
Proof.
  unfold advance. cbv zeta.
  destruct (fire_all_fields (List.filter (due (Z.max (clock st) t)) (timers st)) st)
    as (H1 & H2 & H3).
  simpl. rewrite H1, H2. auto.
Qed.

(** The clock moves: the life of a session goes on as it should. *)
Lemma session_life_advance key data D t st :
  session_life key data D st -> session_life key data D (advance t st).
Proof.
  intros [Hlive Hdead].
  destruct (advance_fields t st) as (Hc & Ht & Hs).
  set (now := Z.max (clock st) t) in *.
  assert (Hnow : clock st <= now) by (unfold now; lia).
  unfold session_life. rewrite Hc, Ht, Hs, get_delete_all.
  split.
  - intros Hlt. destruct Hlive as (Hget & Hin & Hagree); [lia|].
    split; [|split].
    + destruct (existsb _ _) eqn:Hex; [|exact Hget].
      apply existsb_exists in Hex as (tm & Htm & Hk).
      apply filter_In in Htm as [Htm Hdue]. apply String.eqb_eq in Hk.
      unfold timers_agree in Hagree. rewrite Forall_forall in Hagree.
      specialize (Hagree tm). rewrite <- list_elem_of_In in Htm.
      specialize (Hagree Htm Hk).
      unfold due in Hdue. apply Z.leb_le in Hdue. lia.
    + apply filter_In. split; [exact Hin|].
      unfold due. simpl. apply negb_true_iff, Z.leb_gt. lia.
    + unfold timers_agree in *. rewrite Forall_forall in *.
      intros tm Htm. apply Hagree.
      rewrite list_elem_of_In in *. apply filter_In in Htm. tauto.
  - intros Hge. destruct (Z.lt_ge_cases (clock st) D) as [Hold|Hold].
    + destruct Hlive as (Hget & Hin & Hagree); [exact Hold|].
      split.
      * replace (existsb _ _) with true; [reflexivity|].
        symmetry. apply existsb_exists. exists (mkTimer D key). split.
        -- apply filter_In. split; [exact Hin|]. unfold due. simpl.
           apply Z.leb_le. exact Hge.
        -- simpl. apply String.eqb_refl.
      * rewrite Forall_forall. intros tm Htm Hk.
        rewrite list_elem_of_In in Htm. apply filter_In in Htm as [Htm Hdue].
        unfold timers_agree in Hagree. rewrite Forall_forall in Hagree.
        rewrite <- list_elem_of_In in Htm. specialize (Hagree tm Htm Hk).
        unfold due in Hdue. apply negb_true_iff, Z.leb_gt in Hdue. lia.
    + destruct Hdead as (Hget & Hnone); [exact Hold|].
      split.
      * destruct (existsb _ _); [reflexivity | exact Hget].
      * rewrite Forall_forall in *. intros tm Htm. apply Hnone.
        rewrite list_elem_of_In in *. apply filter_In in Htm. tauto.
Qed.

(** ** Sessions *)

Lemma in_timeouts key ms (evs : list Event) :
  In (key, ms) (timeouts evs) <-> In (SetTimeout key ms) (calls evs).
Proof.
  unfold timeouts, calls. rewrite in_flat_map, in_map_iff. split.
  - intros (e & He & Hin). exists e. split; [|exact He].
    destruct (call e); simpl in Hin; try contradiction.
    destruct Hin as [[= -> ->]|[]]. reflexivity.
  - intros (e & Hc & He). exists e. split; [exact He|].
    rewrite Hc. left. reflexivity.
Qed.

Lemma key_not_reused_stores key stores st st' evs :
  stored stores st st' evs -> key_not_reused key evs ->
  Forall (fun s => s_key s <> key) stores.
Proof.
  intros (_ & _ & Ht) Hn. rewrite Forall_forall. intros s Hs Hk.
  rewrite list_elem_of_In in Hs.
  assert (Hin : In (s_key s, s_ttl s) (timeouts evs)).
  { rewrite Ht. apply in_map_iff. exists s. auto. }
  apply in_timeouts in Hin. unfold calls in Hin. apply in_map_iff in Hin as (e & Hc & He).
  unfold key_not_reused in Hn. rewrite Forall_forall in Hn.
  rewrite <- list_elem_of_In in He. apply (Hn e He (s_ttl s)). congruence.
Qed.

Lemma apply_stores_other_key key now stores : forall c,
  Forall (fun s => s_key s <> key) stores ->
  JsMap.get key (fst (fold_left (apply_store now) stores c)) = JsMap.get key (fst c)
  /\ exists added,
       snd (fold_left (apply_store now) stores c) = snd c ++ added
       /\ Forall (fun tm => victim tm <> key) added.
Proof.
  induction stores as [|s stores IH]; intros c Hs; simpl.
  - split; [reflexivity|]. exists []. rewrite app_nil_r. auto.
  - inversion Hs as [|? ? Hk Hrest]; subst.
    destruct (IH (apply_store now c s) Hrest) as (Hget & added & Hsnd & Hadded).
    split.
    + rewrite Hget. simpl. apply get_set_ne. exact Hk.
    + exists (mkTimer (now + s_ttl s) (s_key s) :: added).
      rewrite Hsnd. simpl. rewrite <- app_assoc. split; [reflexivity|].
      constructor; assumption.
Qed.

(** A handler that sets no timer for the key leaves the life of its session
    as it is. *)
Lemma session_life_stored key data D stores st st' evs :
  stored stores st st' evs -> key_not_reused key evs ->
  session_life key data D st -> session_life key data D st'.
Proof.
  intros Hst Hn [Hlive Hdead].
  pose proof (key_not_reused_stores _ _ _ _ _ Hst Hn) as Hkeys.
  destruct Hst as (Hc & Hcache & _).
  destruct (apply_stores_other_key key (clock st) stores (cache_of st) Hkeys)
    as (Hget & added & Hsnd & Hadded).
  rewrite <- Hcache in Hget, Hsnd. simpl in Hget, Hsnd.
  unfold session_life. rewrite Hc, Hget, Hsnd.
  split.
  - intros Hlt. destruct (Hlive Hlt) as (Hg & Hin & Hagree).
    split; [exact Hg|]. split; [apply in_or_app; left; exact Hin|].
    apply Forall_app. split; [exact Hagree|].
    eapply Forall_impl; [exact Hadded|]. simpl. intros tm Hne Hk. contradiction.
  - intros Hge. destruct (Hdead Hge) as (Hg & Hnone).
    split; [exact Hg|]. apply Forall_app. auto.
Qed.

(** Right after it is stored under a key with no pending timer, a session
    starts its life. *)
Lemma session_life_starts s st st' evs :
  stored [s] st st' evs -> 0 < s_ttl s ->
  Forall (fun tm => victim tm <> s_key s) (timers st) ->
  session_life (s_key s) (s_data s) (clock st + s_ttl s) st'.
Proof.
  intros (Hc & Hcache & _) Hpos Hfresh. simpl in Hcache.
  unfold cache_of, apply_store in Hcache. simpl in Hcache.
  injection Hcache as Hs Ht.
  unfold session_life. rewrite Hc, Hs, Ht. split.
  - intros _. split; [apply get_set_eq|].
    split; [apply in_or_app; right; left; reflexivity|].
    apply Forall_app. split.
    + eapply Forall_impl; [exact Hfresh|]. simpl. intros tm Hne Hk. contradiction.
    + constructor; [reflexivity | constructor].
  - intros Hge. lia.
Qed.

Lemma session_shape_ttl s :
  session_shape s -> 0 < s_ttl s.
Proof. intros [(-> & _)|(-> & _)]; reflexivity. Qed.

Section Sessions.

Variable rt : Runtime.
Variable W : World.

Lemma handler_of_caches i st :
  caches_at 1 st (handler_of rt i).
Proof.
  destruct i; simpl.
  - apply (caches_weaken 0); [lia | apply torrent_command_caches].
  - apply (caches_weaken 0); [lia | apply torrent_location_command_caches].
  - apply (caches_weaken 0); [lia | apply torrent_move_command_caches].
  - apply torrent_search_command_caches.
  - apply on_message_caches.
  - apply (caches_weaken 0); [lia | apply updateTorrentProgress_caches].
  - apply (caches_weaken 0); [lia | apply monitorProgress_caches].
  - apply caches_ret.
Qed.

(** A turn is a move of the clock, or a handler that at most stores one
    session. *)
Lemma step_cases st tr i :
  (exists t, i = ClockReaches t
             /\ step rt W (st, tr) i = (advance t st, tr))
  \/ (exists st' evs stores,
        step rt W (st, tr) i = (st', tr ++ evs)
        /\ stored stores st st' evs
        /\ Forall session_shape stores
        /\ (length stores <= 1)%nat).
Proof.
  destruct (handler_of_caches i st W tr) as (st' & evs & r & stores & Heq & Hs & Hf & Hl).
  destruct i; try (right; exists st', evs, stores; unfold step; simpl in *;
                   rewrite Heq; auto).
  left. exists t. auto.
Qed.

Lemma step_extends cfg i :
  exists evs, snd (step rt W cfg i) = snd cfg ++ evs.
Proof.
  destruct cfg as [st tr].
  destruct (step_cases st tr i) as [(t & -> & ->)|(st' & evs & stores & -> & _)].
  - exists []. simpl. rewrite app_nil_r. reflexivity.
  - exists evs. reflexivity.
Qed.

Lemma run_inputs_extends inputs : forall cfg,
  exists evs, snd (run_inputs rt W cfg inputs) = snd cfg ++ evs.
Proof.
  induction inputs as [|i inputs IH]; intros cfg; simpl.
  - exists []. rewrite app_nil_r. reflexivity.
  - destruct (IH (step rt W cfg i)) as [evs2 H2].
    destruct (step_extends cfg i) as [evs1 H1].
    exists (evs1 ++ evs2). rewrite H2, H1, app_assoc. reflexivity.
Qed.

(** Whatever happens next, as long as no timer is set for its key again,
    a session is there before its deadline and gone from it on. *)
Lemma session_life_run key data D inputs : forall st tr evs,
  session_life key data D st ->
  snd (run_inputs rt W (st, tr) inputs) = tr ++ evs ->
  key_not_reused key evs ->
  session_life key data D
    (fst (run_inputs rt W (st, tr) inputs)).
Proof.
  induction inputs as [|i inputs IH]; intros st tr evs Hlife Htr Hn; simpl in *.
  - exact Hlife.
  - destruct (step_cases st tr i)
      as [(t & -> & Hstep)|(st' & evs1 & stores & Hstep & Hst & _)];
      rewrite Hstep in *.
    + eapply IH; eauto. apply session_life_advance. exact Hlife.
    + destruct (run_inputs_extends inputs (st', tr ++ evs1)) as [evs2 H2].
      simpl in H2. rewrite H2, <- app_assoc in Htr.
      apply app_inv_head in Htr. subst evs.
      unfold key_not_reused in Hn. apply Forall_app in Hn as [Hn1 Hn2].
      eapply IH; [|exact H2|exact Hn2].
      eapply session_life_stored; eauto.
Qed.

End Sessions.

(** C6, amended.  Take any turn of the handler that sets a timer for a key
    for which no timer was pending, and any turns after it in which no
    timer is set for that key again: commands, messages, progress reports
    and moves of the clock, with any answers of the collaborators.  Then
    the entry stored under the key is a listing kept for ten minutes or a
    link kept for five; it is what [get] returns as long as the clock is
    less than that time past the store, whatever reads it meanwhile; and
    once the clock is that time or more past the store, there is no entry
    and no timer under the key. *)
Theorem session_lives_for_its_ttl :
  forall (rt : Runtime) (W : World) (st : State) (tr : Trace) (i : Input)
         (key : string) (ms : Z) (evs0 : list Event) (inputs : list Input)
         (evs1 : list Event),
    snd (step rt W (st, tr) i) = tr ++ evs0 ->
    In (SetTimeout key ms) (calls evs0) ->
    Forall (fun tm => victim tm <> key) (timers st) ->
    snd (run_inputs rt W (step rt W (st, tr) i) inputs) = (tr ++ evs0) ++ evs1 ->
    key_not_reused key evs1 ->
    lives_for_its_ttl rt W st tr i key ms inputs.
Proof.
  intros rt W st tr i key ms evs0 inputs evs1 Htr0 Hset Hfresh Htr1 Hn.
  unfold lives_for_its_ttl. cbv zeta.
  destruct (step_cases rt W st tr i)
    as [(t & -> & Hstep)|(st' & evs & stores & Hstep & Hst & Hshape & Hlen)];
    rewrite Hstep in *; simpl in Htr0.
  - (* the clock moved: no timer was set *)
    rewrite <- (app_nil_r tr) in Htr0 at 1. apply app_inv_head in Htr0. subst evs0.
    contradiction.
  - apply app_inv_head in Htr0. subst evs0.
    apply in_timeouts in Hset.
    pose proof Hst as (Hclock & Hcache & Htimeouts).
    rewrite Htimeouts in Hset. apply in_map_iff in Hset as (s & [= Hk Hms] & Hin).
    destruct stores as [|s' [|s'' stores]]; simpl in Hlen; [contradiction| |lia].
    destruct Hin as [->|[]]. subst key ms.
    inversion Hshape as [|? ? Hs _]; subst.
    pose proof (session_life_starts s st st' evs Hst (session_shape_ttl s Hs) Hfresh)
      as Hlife.
    pose proof (session_life_run rt W (s_key s) (s_data s)
                  (clock st + s_ttl s) inputs st' (tr ++ evs) evs1 Hlife Htr1 Hn)
      as [Hlive Hdead].
    exists (s_data s). simpl.
    split; [exact Hclock|].
    split.
    { destruct Hlife as [Hl _]. apply Hl. rewrite Hclock.
      pose proof (session_shape_ttl s Hs). lia. }
    split.
    { destruct Hs as [(? & ? & ?)|(? & ? & ?)]; [left | right]; auto. }
    split.
    + intros Hlt. apply Hlive. exact Hlt.
    + intros Hge. apply Hdead. exact Hge.
Qed.

(** A conversation: the link retrieved by "2" serves an "add" reply, sees
    another reply come and go, and is gone five minutes after it was
    stored, while the listing, stored at time 0, is still there. *)
Example the_link_expires_after_five_minutes :
  let st := fst (Scenario.run Sample.searched
                   [MessageEvent Scenario.reply_2; ClockReaches 200000;
                    MessageEvent Scenario.add_movie; MessageEvent Scenario.reply_1;
                    ClockReaches 300999]) in
  let st' := advance 301000 st in
  List.map fst (searchResults st) = ["20.1"; "20.4"; "20.6"]
  /\ List.map fst (searchResults st') = ["20.1"; "20.6"]
  /\ timers st' = [mkTimer 600000 "20.1"; mkTimer 500000 "20.6"].
Proof. vm_compute. repeat split; reflexivity. Qed.

Lemma session_lives_for_its_ttl_witness :
  JsMap.get "20.4"
    (searchResults
       (fst (run_inputs Sample.runtime Sample.helpful
               (step Sample.runtime Sample.helpful (Sample.searched, [])
                     (MessageEvent Scenario.reply_2))
               [ClockReaches 200000; MessageEvent Scenario.add_movie;
                MessageEvent Scenario.reply_1; ClockReaches 301000])))
  = None.
Proof.
  pose (created := step Sample.runtime Sample.helpful (Sample.searched, [])
                        (MessageEvent Scenario.reply_2)).
  pose (inputs := [ClockReaches 200000; MessageEvent Scenario.add_movie;
                   MessageEvent Scenario.reply_1; ClockReaches 301000]).
  pose (final := run_inputs Sample.runtime Sample.helpful created inputs).
  destruct (session_lives_for_its_ttl Sample.runtime Sample.helpful
              Sample.searched [] (MessageEvent Scenario.reply_2) "20.4" 300000
              (snd created) inputs (drop (length (snd created)) (snd final)))
    as (data & _ & _ & _ & _ & Hdead).
  - reflexivity.
  - vm_compute. do 3 right. left. reflexivity.
  - repeat constructor. discriminate.
  - vm_compute. reflexivity.
  - vm_compute. repeat constructor; intros ms; discriminate.
  - apply Hdead. vm_compute. discriminate.
Defined.

(** C6 as it is stated fails when a key is used again while its timer is
    pending.  The reply "2" is handled at time 1000 and, delivered once
    more, at time 241000.  The second store sets a timer for five minutes
    later, but the timer of the first store fires at 301000 and deletes
    the entry, one minute after it was stored again. *)
Lemma session_under_a_reused_key_expires_early :
  ~ (forall (rt : Runtime) (W : World) (st : State) (tr : Trace) (i : Input)
            (key : string) (ms : Z) (evs0 : list Event) (inputs : list Input),
        snd (step rt W (st, tr) i) = tr ++ evs0 ->
        In (SetTimeout key ms) (calls evs0) ->
        lives_for_its_ttl rt W st tr i key ms inputs).
Proof.
  intros H.
  pose (created := step Sample.runtime Sample.helpful
                        (Scenario.four_minutes_later, [])
                        (MessageEvent Scenario.reply_2)).
  destruct (H Sample.runtime Sample.helpful
              Scenario.four_minutes_later [] (MessageEvent Scenario.reply_2)
              "20.4" 300000 (snd created) [ClockReaches 301000])
    as (data & _ & Hnow & _ & Hlive & _).
  - reflexivity.
  - vm_compute. do 3 right. left. reflexivity.
  - assert (Hlt : clock (fst (run_inputs Sample.runtime Sample.helpful
                                created [ClockReaches 301000]))
                  < clock Scenario.four_minutes_later + 300000)
      by (vm_compute; reflexivity).
    specialize (Hlive Hlt). vm_compute in Hlive. discriminate.
Qed.

(** The other way round: the entry is stored again after its timer fired,
    six minutes after the first store, while the listing is still there.
    The key has an entry again although the five minutes of the first
    store are over. *)
Example the_key_comes_back_after_expiry :
  let st := fst (Scenario.run Sample.searched
                   [MessageEvent Scenario.reply_2; ClockReaches 361000]) in
  let st' := fst (Scenario.run Sample.searched
                    [MessageEvent Scenario.reply_2; ClockReaches 361000;
                     MessageEvent Scenario.reply_2]) in
  JsMap.get "20.4" (searchResults st) = None
  /\ clock st' = 361000
  /\ JsMap.get "20.4" (searchResults st') = Some Sample.magnet_session_2
  /\ timers st' = [mkTimer 600000 "20.1"; mkTimer 661000 "20.4"].
Proof. vm_compute. repeat split; reflexivity. Qed.

Example the_entry_was_stored_again :
  let created := step Sample.runtime Sample.helpful
                      (Scenario.four_minutes_later, [])
                      (MessageEvent Scenario.reply_2) in
  clock (fst created) = 241000
  /\ timers (fst created)
     = [mkTimer 600000 "20.1"; mkTimer 301000 "20.4"; mkTimer 541000 "20.4"]
  /\ List.map fst (searchResults (fst created)) = ["20.1"; "20.4"]
  /\ List.map fst (searchResults (advance 301000 (fst created))) = ["20.1"].
Proof. vm_compute. repeat split; reflexivity. Qed.

(** ** Where a task ends *)

Lemma ends_ret {A} st (a : A) (Q : State -> Result A -> Prop) :
  Q st (Returned a) -> ends_with st (ret a) Q.
Proof. intros H W tr. exact H. Qed.

Lemma ends_throw {A} st (e : string) (Q : State -> Result A -> Prop) :
  Q st (Thrown e) -> ends_with st (throw e) Q.
Proof. intros H W tr. exact H. Qed.

Lemma ends_perform {A} st (c : Call) (answer : World -> Trace -> Result A)
  (Q : State -> Result A -> Prop) :
  (forall r, Q st r) -> ends_with st (perform c answer) Q.
Proof. intros H W tr. apply H. Qed.

Lemma ends_modify st (f : State -> State) (Q : State -> Result unit -> Prop) :
  Q (f st) (Returned tt) -> ends_with st (modify f) Q.
Proof. intros H W tr. exact H. Qed.

Lemma ends_bind {A B} st (t : Task A) (k : A -> Task B) (Q : State -> Result B -> Prop) :
  ends_with st t (fun st1 r1 =>
                    match r1 with
                    | Returned a => ends_with st1 (k a) Q
                    | Thrown e => Q st1 (Thrown e)
                    end) ->
  ends_with st (bind t k) Q.
Proof.
  intros H W tr. specialize (H W tr). unfold state_of, result_of, bind in *.
  destruct (t W st tr) as [[st1 tr1] [a|e]]; simpl in *; [apply H | exact H].
Qed.

Lemma ends_get {B} st (k : State -> Task B) (Q : State -> Result B -> Prop) :
  ends_with st (k st) Q -> ends_with st (bind get_state k) Q.
Proof. intros H W tr. apply H. Qed.

Lemma ends_try_catch {A} st (body : Task A) (handler : string -> Task A)
  (Q : State -> Result A -> Prop) :
  ends_with st body (fun st1 r1 =>
                       match r1 with
                       | Returned a => Q st1 (Returned a)
                       | Thrown e => ends_with st1 (handler e) Q
                       end) ->
  ends_with st (try_catch body handler) Q.
Proof.
  intros H W tr. specialize (H W tr). unfold state_of, result_of, try_catch in *.
  destruct (body W st tr) as [[st1 tr1] [a|e]]; simpl in *; [exact H | apply H].
Qed.

Lemma ends_weaken {A} st (t : Task A) (Q Q' : State -> Result A -> Prop) :
  ends_with st t Q -> (forall st' r, Q st' r -> Q' st' r) -> ends_with st t Q'.
Proof. intros H HQ W tr. apply HQ, H. Qed.

Ltac ends_step :=
  match goal with
  | |- ends_with _ (ret _) _ => apply ends_ret
  | |- ends_with _ (throw _) _ => apply ends_throw
  | |- ends_with _ (bind get_state _) _ => apply ends_get
  | |- ends_with _ (perform _ _) _ => apply ends_perform; intros [?|?]
  | |- ends_with _ (modify _) _ => apply ends_modify
  | |- ends_with _ (bind _ _) _ => apply ends_bind
  | |- ends_with _ (try_catch _ _) _ => apply ends_try_catch
  | |- ends_with _ (if ?b then _ else _) _ => destruct b eqn:?
  | |- ends_with _ (match ?x with _ => _ end) _ => destruct x eqn:?
  end.

Ltac ends_tac :=
  unfold store_session, set_timeout;
  unfold mbind, task_bind, mret, task_ret, ack, say,
         reactions_add, reactions_remove, postMessage, call_torrentHandler,
         call_torrentMoveHandler, search_api, getMagnet, console_error,
         mark_notification;
  repeat ends_step.

(** ** The registries stay in order *)

Lemma in_order_same_registries st st' :
  registries_of st' = registries_of st ->
  registries_in_order st -> registries_in_order st'.
Proof.
  unfold registries_of, registries_in_order. intros [= Ho Hm Ht].
  rewrite Ho, Hm, Ht. auto.
Qed.

(** Registration keeps the registries in order: the new object is named by
    both maps. *)
Lemma in_order_register st infoHash md p :
  registries_in_order st ->
  registries_in_order
    (with_trackedTorrents <[infoHash := mkTracked p false (length (objects st))]>
       (with_torrentMetadata (JsMap.set infoHash (length (objects st)))
          (with_objects (fun os => os ++ [md]) st))).
Proof.
  intros [Hrefs Hagree]. split; simpl.
  - intros k r. rewrite length_app. simpl.
    destruct (String.eqb_spec infoHash k) as [->|Hne].
    + rewrite get_set_eq. intros [= <-]. lia.
    + rewrite get_set_ne by assumption. intros H. apply Hrefs in H. lia.
  - intros k t.
    destruct (String.eqb_spec infoHash k) as [->|Hne].
    + rewrite lookup_insert_eq, get_set_eq. intros [= <-]. reflexivity.
    + rewrite lookup_insert_ne, get_set_ne by assumption. apply Hagree.
Qed.

(** Writing a new destination into an object keeps them in order. *)
Lemma in_order_relabelled st infoHash r newDestination md :
  JsMap.get infoHash (torrentMetadata st) = Some r ->
  registries_in_order st ->
  registries_in_order (relabelled infoHash r newDestination md st).
Proof.
  intros Hget [Hrefs Hagree]. unfold relabelled. split; simpl.
  - intros k r'. rewrite length_insert, (set_same _ _ _ Hget). apply Hrefs.
  - intros k t. rewrite (set_same _ _ _ Hget). apply Hagree.
Qed.

(** A progress update keeps them in order: the entry keeps its object. *)
Lemma in_order_update_state st infoHash p :
  registries_in_order st -> registries_in_order (update_state infoHash p st).
Proof.
  intros [Hrefs Hagree]. unfold update_state.
  destruct (isEnabled st); [|split; assumption].
  destruct (trackedTorrents st !! infoHash) as [t|] eqn:Ht; [|split; assumption].
  split; simpl; [exact Hrefs|].
  intros k t'. destruct (String.eqb_spec infoHash k) as [->|Hne].
  - rewrite lookup_insert_eq. intros [= <-]. simpl. apply Hagree. exact Ht.
  - rewrite lookup_insert_ne by assumption. apply Hagree.
Qed.

Lemma torrent_command_in_order decode command st :
  registries_in_order st ->
  ends_with st (torrent_command decode command) (fun st' _ => registries_in_order st').
Proof.
  intros Hst. unfold torrent_command, register. ends_tac;
    first [ exact Hst | apply in_order_register; exact Hst ].
Qed.

Lemma torrent_move_command_in_order command st :
  registries_in_order st ->
  ends_with st (torrent_move_command command) (fun st' _ => registries_in_order st').
Proof.
  intros Hst. unfold torrent_move_command. ends_tac;
    first [ exact Hst
          | match goal with
            | H : JsMap.get ?k (torrentMetadata st) = Some ?r |- _ =>
                apply (in_order_relabelled st k r _ _ H Hst)
            end ].
Qed.

Lemma unchanged_registries_in_order {A} st (t : Task A) :
  ends_with st t (fun st' _ => registries_of st' = registries_of st) ->
  registries_in_order st ->
  ends_with st t (fun st' _ => registries_in_order st').
Proof.
  intros H Hst. eapply ends_weaken; [exact H|]. simpl.
  intros st' _ Heq. eapply in_order_same_registries; eauto.
Qed.

Lemma torrent_location_command_registries command st :
  ends_with st (torrent_location_command command)
            (fun st' _ => registries_of st' = registries_of st).
Proof. unfold torrent_location_command. ends_tac; reflexivity. Qed.

Lemma torrent_search_command_registries command st :
  ends_with st (torrent_search_command command)
            (fun st' _ => registries_of st' = registries_of st).
Proof. unfold torrent_search_command. ends_tac; reflexivity. Qed.

Lemma number_reply_listener_registries message st :
  ends_with st (number_reply_listener message)
            (fun st' _ => registries_of st' = registries_of st).
Proof.
  unfold number_reply_listener, retrieve_magnet, selection_failed.
  ends_tac; reflexivity.
Qed.

Lemma add_reply_listener_registries message st :
  ends_with st (add_reply_listener message)
            (fun st' _ => registries_of st' = registries_of st).
Proof. unfold add_reply_listener. ends_tac; reflexivity. Qed.

Lemma magnet_link_listener_registries auto_add decode message st :
  ends_with st (magnet_link_listener auto_add decode message)
            (fun st' _ => registries_of st' = registries_of st).
Proof. unfold magnet_link_listener. ends_tac; reflexivity. Qed.

Lemma updateTorrentProgress_in_order infoHash p st :
  registries_in_order st ->
  ends_with st (updateTorrentProgress infoHash p) (fun st' _ => registries_in_order st').
Proof.
  intros Hst W tr.
  destruct (updateTorrentProgress_spec W st tr infoHash p) as (evs & -> & _).
  apply in_order_update_state. exact Hst.
Qed.

Lemma for_each_in_order {A} (f : A -> Task unit) (xs : list A) :
  (forall x st, registries_in_order st ->
                ends_with st (f x) (fun st' _ => registries_in_order st')) ->
  forall st, registries_in_order st ->
             ends_with st (for_each f xs) (fun st' _ => registries_in_order st').
Proof.
  intros Hf. induction xs as [|x xs IH]; intros st Hst; simpl.
  - apply ends_ret. exact Hst.
  - apply ends_bind. eapply ends_weaken; [apply Hf; exact Hst|]. simpl.
    intros st' [[]|e] Hst'; [apply IH; exact Hst' | exact Hst'].
Qed.

Lemma monitorProgress_in_order times100 torrents st :
  registries_in_order st ->
  ends_with st (monitorProgress times100 torrents) (fun st' _ => registries_in_order st').
Proof.
  intros Hst. unfold monitorProgress. ends_tac; [exact Hst|].
  apply for_each_in_order; [|exact Hst].
  intros t st'. apply updateTorrentProgress_in_order.
Qed.

Lemma on_message_in_order rt message st :
  registries_in_order st ->
  ends_with st (on_message rt message) (fun st' _ => registries_in_order st').
Proof.
  intros Hst. unfold on_message, mbind, task_bind.
  apply ends_bind. eapply ends_weaken.
  { apply unchanged_registries_in_order;
      [apply number_reply_listener_registries | exact Hst]. }
  simpl. intros st1 [[]|e] Hst1; [|exact Hst1].
  apply ends_bind. eapply ends_weaken.
  { apply unchanged_registries_in_order;
      [apply add_reply_listener_registries | exact Hst1]. }
  simpl. intros st2 [[]|e] Hst2; [|exact Hst2].
  apply unchanged_registries_in_order;
    [apply magnet_link_listener_registries | exact Hst2].
Qed.

Lemma fire_all_registries (l : list Timer) : forall st,
  registries_of (fold_left (fun s tm => fire tm s) l st) = registries_of st.
Proof.
  induction l as [|tm l IH]; intros st; simpl; [reflexivity|].
  rewrite IH. reflexivity.
Qed.

Lemma advance_registries t st : registries_of (advance t st) = registries_of st.
Proof.
  unfold advance. cbv zeta.
  rewrite <- (fire_all_registries
                (List.filter (due (Z.max (clock st) t)) (timers st)) st).
  reflexivity.
Qed.

(** Every turn keeps the registries in order, and so does every run. *)
Lemma step_in_order rt W st tr i :
  registries_in_order st -> registries_in_order (fst (step rt W (st, tr) i)).
Proof.
  intros Hst. destruct i; unfold step; simpl.
  - apply (torrent_command_in_order _ _ _ Hst W tr).
  - apply (unchanged_registries_in_order _ _
             (torrent_location_command_registries _ _) Hst W tr).
  - apply (torrent_move_command_in_order _ _ Hst W tr).
  - apply (unchanged_registries_in_order _ _
             (torrent_search_command_registries _ _) Hst W tr).
  - apply (on_message_in_order _ _ _ Hst W tr).
  - apply (updateTorrentProgress_in_order _ _ _ Hst W tr).
  - apply (monitorProgress_in_order _ _ _ Hst W tr).
  - eapply in_order_same_registries; [apply advance_registries | exact Hst].
Qed.

Lemma run_inputs_in_order rt W inputs : forall st tr,
  registries_in_order st ->
  registries_in_order (fst (run_inputs rt W (st, tr) inputs)).
Proof.
  induction inputs as [|i inputs IH]; intros st tr Hst; simpl; [exact Hst|].
  destruct (step rt W (st, tr) i) as [st' tr'] eqn:Hstep.
  apply IH. change st' with (fst (st', tr')). rewrite <- Hstep.
  apply step_in_order. exact Hst.
Qed.

Lemma empty_registries_in_order st :
  objects st = [] -> torrentMetadata st = [] -> trackedTorrents st = ∅ ->
  registries_in_order st.
Proof.
  intros Ho Hm Ht. split.
  - intros k r. rewrite Hm. discriminate.
  - intros k t. rewrite Ht, lookup_empty. discriminate.
Qed.

(** With the registries in order, an id that [resolve] returns has its
    metadata: so it is in every state that a handler started with empty
    registries can reach. *)
Lemma resolved_job_has_metadata st hash infoHash :
  registries_in_order st ->
  resolve (torrentMetadata st) hash = Some infoHash ->
  exists md, metadata_of st infoHash = Some md.
Proof.
  intros [Hrefs _] Hres. destruct (resolve_is_key _ _ _ Hres) as [r Hget].
  unfold metadata_of. rewrite Hget. simpl.
  apply lookup_lt_is_Some. eapply Hrefs. exact Hget.
Qed.

(** With the registries in order, the notification of a tracked job shows
    the metadata that [/torrent-move] wrote last: the two maps name one
    object. *)
Lemma tracked_job_shares_metadata st infoHash t :
  registries_in_order st ->
  trackedTorrents st !! infoHash = Some t ->
  objects st !! metadata t = metadata_of st infoHash.
Proof.
  intros [_ Hagree] Ht. unfold metadata_of. rewrite (Hagree _ _ Ht). reflexivity.
Qed.

(* ===================================================================== *)
(** * Further properties of the handler *)
(* ===================================================================== *)

(** ** What the run of a task calls *)

Lemma calls_made_of {A} (t : Task A) W st tr st' evs r :
  t W st tr = (st', tr ++ evs, r) -> calls_made t W st tr = calls evs.
Proof.
  intros H. unfold calls_made, trace_of. rewrite H. simpl.
  rewrite skipn_app, skipn_all, Nat.sub_diag. reflexivity.
Qed.

(** ** What the listeners do with any message *)

Lemma number_reply_listener_returns message : returns (number_reply_listener message).
Proof.
  unfold number_reply_listener, selection_failed.
  destruct (negb _); [apply returns_ret|].
  apply returns_try_catch. intros e. apply returns_console_error.
Qed.

Lemma magnet_link_listener_returns auto_add decode message :
  returns (magnet_link_listener auto_add decode message).
Proof.
  unfold magnet_link_listener.
  destruct (negb _); [apply returns_ret|].
  apply returns_try_catch. intros e. unfold mbind, task_bind.
  apply returns_bind; [apply returns_console_error|]. intros _.
  apply returns_try_catch. intros e'. apply returns_console_error.
Qed.

(** X1. No message makes a listener throw: whatever the text, the state
    and the answers of the collaborators, each of the three listeners ends
    by returning, and so does the run of all three on a message. *)
Theorem message_listeners_never_throw :
  forall (rt : Runtime) (message : Message), returns (on_message rt message).
Proof.
  intros rt message. unfold on_message, mbind, task_bind.
  apply returns_bind; [apply number_reply_listener_returns|]. intros _.
  apply returns_bind; [apply add_reply_listener_returns|]. intros _.
  apply magnet_link_listener_returns.
Qed.

(** A slash command is not that safe: when [say] fails in the [catch]
    block, the error leaves the handler. *)
Example a_command_can_throw :
  result_of (torrent_location_command (mkCommand "c0ff" "C1" None "U1" "ann")
               (mkWorld (fun _ => Returned tt)
                        (fun _ _ _ => Thrown "channel_not_found")
                        (fun _ _ => Returned tt) (fun _ _ _ _ => Returned tt)
                        (fun _ _ _ _ => Thrown "none") (fun _ _ _ => Thrown "none")
                        (fun _ _ => Thrown "none") (fun _ _ => Thrown "none"))
               Sample.one_job [])
  = Thrown "channel_not_found".
Proof. vm_compute. reflexivity. Qed.

(** X2. A message that carries a [bot_id] is dropped by every listener:
    no field changes and no call is made, not even a log line. *)
Theorem bot_messages_are_ignored :
  forall (rt : Runtime) (W : World) (st : State) (tr : Trace) (message : Message),
    Str.truthy (m_bot_id message) = true ->
    on_message rt message W st tr = (st, tr, Returned tt).
Proof.
  intros rt W st tr message Hbot.
  unfold on_message, number_reply_listener, add_reply_listener, magnet_link_listener.
  run_task. rewrite Hbot.
  destruct (negb (matches Regex.numeric_reply (m_text message)));
    destruct (negb (matches Regex.add_listener (m_text message)));
    destruct (negb (Str.includes (m_text message) "magnet:?xt="));
    reflexivity.
Qed.

Lemma bot_messages_are_ignored_witness :
  on_message Sample.runtime Posts.from_a_bot Sample.helpful Sample.selected []
  = (Sample.selected, [], Returned tt).
Proof. apply bot_messages_are_ignored. reflexivity. Defined.

Lemma on_message_registries rt message st :
  ends_with st (on_message rt message)
            (fun st' _ => registries_of st' = registries_of st).
Proof.
  unfold on_message, mbind, task_bind.
  apply ends_bind. eapply ends_weaken;
    [apply number_reply_listener_registries|].
  simpl. intros st1 [[]|e] H1; [|exact H1].
  apply ends_bind. eapply ends_weaken;
    [apply add_reply_listener_registries|].
  simpl. intros st2 [[]|e] H2; [|congruence].
  eapply ends_weaken; [apply magnet_link_listener_registries|].
  simpl. intros st3 _ H3. congruence.
Qed.

(** X3. No listener registers a job.  Whatever a message makes the handler
    do, and that includes handing a link to the torrent handler, the
    metadata objects, [torrentMetadata] and [trackedTorrents] end as they
    were; so a job that was not tracked before the message is not notified
    by any run of progress updates after it. *)
Theorem messages_never_register :
  forall (rt : Runtime) (W : World) (st : State) (tr : Trace) (message : Message),
    registries_of (state_of (on_message rt message W st tr)) = registries_of st
    /\ (forall (infoHash : string) (ps : list Z) (W' : World),
          trackedTorrents st !! infoHash = None ->
          notifications infoHash
            (trace_of (progress_calls infoHash ps W'
                         (state_of (on_message rt message W st tr))
                         (trace_of (on_message rt message W st tr))))
          = notifications infoHash (trace_of (on_message rt message W st tr))).
Proof.
  intros rt W st tr message.
  pose proof (on_message_registries rt message st W tr) as Hreg.
  split; [exact Hreg|].
  intros infoHash ps W' Hnone.
  destruct (progress_calls_spec W' infoHash ps
              (state_of (on_message rt message W st tr))
              (trace_of (on_message rt message W st tr)))
    as (evs & -> & Hn & _). unfold trace_of at 1. simpl.
  rewrite notifications_app, Hn, completions_cannot_fire; [lia|].
  unfold can_fire. unfold registries_of in Hreg.
  replace (trackedTorrents (state_of (on_message rt message W st tr)))
    with (trackedTorrents st) by congruence.
  rewrite Hnone. apply andb_false_r.
Qed.

(** With [SLACK_AUTO_ADD_TORRENTS] set, a link in a message is handed to
    the torrent handler and answered with "added", and nothing is tracked. *)
Example auto_added_link_is_not_tracked :
  let out := on_message Posts.auto_add Posts.with_a_link Sample.helpful Sample.fresh [] in
  calls (trace_of out)
  = [ReactionsAdd "C1" "31.1" "hourglass_flowing_sand";
     TorrentHandler "magnet:?xt=urn:btih:c0ffee00c0ffee00&dn=Big+Buck+Bunny" None None;
     ReactionsRemove "C1" "31.1" "hourglass_flowing_sand";
     ReactionsAdd "C1" "31.1" "white_check_mark";
     Say (AddedTorrent "Big Buck Bunny") (Some "31.1")]
  /\ trackedTorrents (state_of out) = ∅
  /\ torrentMetadata (state_of out) = [].
Proof. vm_compute. repeat split. Qed.

(** ** Collaborators that are not set *)

Lemma same_switches_refl st : same_switches st st.
Proof. reflexivity. Qed.

Lemma same_switches_trans a b c :
  same_switches a b -> same_switches b c -> same_switches a c.
Proof. unfold same_switches. congruence. Qed.

Lemma allowed_by_back a b c : same_switches a b -> allowed_by b c -> allowed_by a c.
Proof.
  unfold same_switches, switches, allowed_by. intros H. simplify_eq.
  destruct c; auto; congruence.
Qed.

#[local] Hint Resolve same_switches_refl same_switches_trans allowed_by_back : respects.

Ltac switch_tac :=
  unfold same_switches, allowed_by, switches in *; simplify_eq/=;
  repeat match goal with
         | H : negb _ = false |- _ => apply negb_false_iff in H
         | H : (_ || _) = false |- _ => apply orb_false_iff in H as [? ?]
         end;
  try split; congruence.

Ltac switches_tac :=
  unfold mark_notification; respects_tac; try exact I; try reflexivity; try switch_tac.

Lemma handler_of_switches rt i :
  respects same_switches allowed_by (handler_of rt i).
Proof.
  intros st. destruct i; simpl.
  - unfold torrent_command, register. switches_tac.
  - unfold torrent_location_command. switches_tac.
  - unfold torrent_move_command. switches_tac.
  - unfold torrent_search_command. switches_tac.
  - unfold on_message, number_reply_listener, retrieve_magnet, selection_failed,
           add_reply_listener, magnet_link_listener. switches_tac.
  - unfold updateTorrentProgress, sendCompletionNotification, notification_body.
    switches_tac.
  - unfold monitorProgress, updateTorrentProgress, sendCompletionNotification,
           notification_body. switches_tac.
  - switches_tac.
Qed.

Lemma fire_all_switches (l : list Timer) : forall st,
  switches (fold_left (fun s tm => fire tm s) l st) = switches st.
Proof.
  induction l as [|tm l IH]; intros st; simpl; [reflexivity|].
  rewrite IH. reflexivity.
Qed.

Lemma advance_switches t st : switches (advance t st) = switches st.
Proof.
  unfold advance. cbv zeta.
  rewrite <- (fire_all_switches
                (List.filter (due (Z.max (clock st) t)) (timers st)) st).
  reflexivity.
Qed.

Lemma step_switches rt W st tr i :
  exists evs,
    snd (step rt W (st, tr) i) = tr ++ evs
    /\ same_switches st (fst (step rt W (st, tr) i))
    /\ Forall (fun e => allowed_by st (call e)) evs.
Proof.
  destruct (handler_of_switches rt i st W tr) as (st' & evs & r & Heq & HR & Hev).
  destruct i;
    try (exists evs; unfold step; simpl in *; rewrite Heq; simpl;
         split; [reflexivity|]; split; [exact HR|];
         eapply Forall_impl; [exact Hev|]; simpl; intros e [? _]; assumption).
  exists []. simpl. rewrite app_nil_r. split; [reflexivity|].
  split; [apply advance_switches | constructor].
Qed.

(** X4. Over any run of commands, messages, progress updates and clock
    moves, from any state and whatever the collaborators answer: the
    torrent handler and the mover are called only if they are set, a
    completion notification is started only if the handler is enabled and
    its message is posted only if there is a client as well; and the run
    never changes any of these four switches. *)
Theorem unset_collaborators_are_never_called :
  forall (rt : Runtime) (W : World) (inputs : list Input) (st : State) (tr : Trace),
    exists evs,
      snd (run_inputs rt W (st, tr) inputs) = tr ++ evs
      /\ switches (fst (run_inputs rt W (st, tr) inputs)) = switches st
      /\ Forall (fun e => allowed_by st (call e)) evs.
Proof.
  intros rt W inputs. induction inputs as [|i inputs IH]; intros st tr; simpl.
  - exists []. rewrite app_nil_r. repeat split. constructor.
  - destruct (step_switches rt W st tr i) as (evs1 & H1 & HR1 & Hev1).
    destruct (step rt W (st, tr) i) as [st1 tr1] eqn:Hstep. simpl in *. subst tr1.
    destruct (IH st1 (tr ++ evs1)) as (evs2 & H2 & HR2 & Hev2).
    exists (evs1 ++ evs2). rewrite H2, app_assoc. split; [reflexivity|].
    split; [unfold same_switches in *; congruence|].
    apply Forall_app. split; [exact Hev1|].
    eapply Forall_impl; [exact Hev2|]. simpl. intros e He.
    eapply allowed_by_back; eauto.
Qed.

(** A handler without a torrent handler, told to add a link: it reports
    the failure and calls nothing else. *)
Example no_torrent_handler_no_call :
  calls (snd (run_inputs Posts.auto_add Sample.helpful
                (mkState true true false true [] [] ∅ [] [] 0, [])
                [MessageEvent Posts.with_a_link]))
  = [ReactionsAdd "C1" "31.1" "hourglass_flowing_sand";
     ConsoleError "Error handling magnet link in message";
     ReactionsAdd "C1" "31.1" "x";
     Say (FailedToAdd "Torrent handler not configured") (Some "31.1")].
Proof. vm_compute. reflexivity. Qed.

(** ** Jobs are never forgotten *)

Lemma keys_set {V} (k : string) (v : V) (m : list (string * V)) :
  exists more, List.map fst (JsMap.set k v m) = List.map fst m ++ more.
Proof.
  induction m as [|[k' v'] m [more IH]]; simpl.
  - exists [k]. reflexivity.
  - destruct (String.eqb k' k); simpl.
    + exists []. rewrite app_nil_r. reflexivity.
    + exists more. rewrite IH. reflexivity.
Qed.

Lemma keeps_jobs_refl st : keeps_jobs st st.
Proof. split; [exists []; rewrite app_nil_r; reflexivity | auto]. Qed.

Lemma keeps_jobs_trans a b c : keeps_jobs a b -> keeps_jobs b c -> keeps_jobs a c.
Proof.
  intros [[m1 H1] T1] [[m2 H2] T2]. split; [|auto].
  exists (m1 ++ m2). rewrite H2, H1, app_assoc. reflexivity.
Qed.

Lemma keeps_jobs_same st st' :
  registries_of st' = registries_of st -> keeps_jobs st st'.
Proof.
  unfold registries_of, keeps_jobs, registered_ids. intros H. simplify_eq.
  split; [exists []; rewrite app_nil_r; congruence | intros h; congruence].
Qed.

Lemma keeps_jobs_set st infoHash r :
  keeps_jobs st (with_torrentMetadata (JsMap.set infoHash r) st).
Proof.
  split; [|auto]. unfold registered_ids. simpl. apply keys_set.
Qed.

Lemma keeps_jobs_track st infoHash t :
  keeps_jobs st (with_trackedTorrents <[infoHash := t]> st).
Proof.
  split; [exists []; rewrite app_nil_r; reflexivity|].
  simpl. intros h Hh. destruct (decide (infoHash = h)) as [->|Hne].
  - rewrite lookup_insert_eq. eauto.
  - rewrite lookup_insert_ne by assumption. exact Hh.
Qed.

Lemma keeps_jobs_objects st f : keeps_jobs st (with_objects f st).
Proof. split; [exists []; rewrite app_nil_r; reflexivity | auto]. Qed.

#[local] Hint Resolve keeps_jobs_refl keeps_jobs_trans : respects.

Ltac jobs_tac :=
  unfold mark_notification; respects_tac;
  try exact I;
  try (apply keeps_jobs_set);
  try (apply keeps_jobs_track);
  try (apply keeps_jobs_objects);
  try (apply keeps_jobs_same; reflexivity).

Lemma handler_of_keeps_jobs rt i :
  respects keeps_jobs any_call (handler_of rt i).
Proof.
  intros st. destruct i; simpl.
  - unfold torrent_command, register. jobs_tac.
  - unfold torrent_location_command. jobs_tac.
  - unfold torrent_move_command. jobs_tac.
  - unfold torrent_search_command. jobs_tac.
  - unfold on_message, number_reply_listener, retrieve_magnet, selection_failed,
           add_reply_listener, magnet_link_listener. jobs_tac.
  - unfold updateTorrentProgress, sendCompletionNotification, notification_body.
    jobs_tac.
  - unfold monitorProgress, updateTorrentProgress, sendCompletionNotification,
           notification_body. jobs_tac.
  - jobs_tac.
Qed.

Lemma resolve_by_ids registry hash :
  resolve registry hash
  = List.find (fun infoHash =>
                 Str.startsWith (Str.toLowerCase infoHash) (Str.toLowerCase hash))
              (List.map fst registry).
Proof.
  unfold resolve. induction registry as [|[k r] registry IH]; simpl; [reflexivity|].
  destruct (Str.startsWith (Str.toLowerCase k) (Str.toLowerCase hash)); simpl; auto.
Qed.

Lemma find_more {A} (p : A -> bool) (l more : list A) x :
  List.find p l = Some x -> List.find p (l ++ more) = Some x.
Proof.
  induction l as [|a l IH]; simpl; [discriminate|].
  destruct (p a); auto.
Qed.

Lemma step_keeps_jobs rt W st tr i :
  keeps_jobs st (fst (step rt W (st, tr) i)).
Proof.
  destruct (handler_of_keeps_jobs rt i st W tr) as (st' & evs & r & Heq & HR & _).
  destruct i; try (unfold step; simpl in *; rewrite Heq; exact HR).
  simpl. apply keeps_jobs_same. apply advance_registries.
Qed.

Lemma run_inputs_keeps_jobs rt W inputs : forall st tr,
  keeps_jobs st (fst (run_inputs rt W (st, tr) inputs)).
Proof.
  induction inputs as [|i inputs IH]; intros st tr; simpl.
  - apply keeps_jobs_refl.
  - pose proof (step_keeps_jobs rt W st tr i) as H1.
    destruct (step rt W (st, tr) i) as [st1 tr1]. simpl in H1.
    eapply keeps_jobs_trans; [exact H1 | apply IH].
Qed.

(** X5. Nothing the handler does forgets or displaces a job.  After any
    run, the ids that were in [torrentMetadata] are still its first ids,
    in the same order; so a hash that resolved to a job resolves to the
    same job ever after, whatever was registered in between; and a job
    that was tracked is still tracked. *)
Theorem registered_jobs_keep_their_place :
  forall (rt : Runtime) (W : World) (inputs : list Input) (st : State) (tr : Trace),
    (exists more,
        registered_ids (fst (run_inputs rt W (st, tr) inputs))
        = registered_ids st ++ more)
    /\ (forall hash infoHash,
          resolve (torrentMetadata st) hash = Some infoHash ->
          resolve (torrentMetadata (fst (run_inputs rt W (st, tr) inputs))) hash
          = Some infoHash)
    /\ (forall infoHash,
          is_Some (trackedTorrents st !! infoHash) ->
          is_Some (trackedTorrents (fst (run_inputs rt W (st, tr) inputs)) !! infoHash)).
Proof.
  intros rt W inputs st tr.
  destruct (run_inputs_keeps_jobs rt W inputs st tr) as [[more Hmore] Htracked].
  split; [exists more; exact Hmore|]. split; [|exact Htracked].
  intros hash infoHash Hres. rewrite resolve_by_ids in *.
  unfold registered_ids in Hmore. rewrite Hmore. apply find_more. exact Hres.
Qed.

(** ** The cache does not leak *)

Lemma session_shape_ttl_range s :
  session_shape s -> 0 < s_ttl s <= search_ttl.
Proof.
  unfold session_shape, search_ttl, magnet_ttl.
  intros [(-> & _)|(-> & _)]; lia.
Qed.

Lemma covered_apply_store now c s :
  session_shape s ->
  (forall key, covered now c key) -> forall key, covered now (apply_store now c s) key.
Proof.
  intros Hs Hc key. unfold covered, apply_store in *. simpl.
  apply session_shape_ttl_range in Hs.
  destruct (String.eqb_spec (s_key s) key) as [<-|Hne].
  - intros _. exists (mkTimer (now + s_ttl s) (s_key s)). simpl.
    split; [apply in_or_app; right; left; reflexivity|]. split; [reflexivity | lia].
  - rewrite get_set_ne by congruence. intros Hk.
    destruct (Hc key Hk) as (tm & Hin & Hv & Hd).
    exists tm. split; [apply in_or_app; left; exact Hin | auto].
Qed.

Lemma covered_stores now stores : forall c,
  Forall session_shape stores ->
  (forall key, covered now c key) ->
  forall key, covered now (fold_left (apply_store now) stores c) key.
Proof.
  induction stores as [|s stores IH]; intros c Hs Hc; simpl; [exact Hc|].
  inversion Hs; subst. apply IH; [assumption|].
  apply covered_apply_store; assumption.
Qed.

Lemma cache_covered_stored stores st st' evs :
  stored stores st st' evs -> Forall session_shape stores ->
  cache_covered st -> cache_covered st'.
Proof.
  intros (Hclock & Hcache & _) Hs Hc key. unfold cache_covered in *.
  rewrite Hclock, Hcache. apply covered_stores; assumption.
Qed.

Lemma cache_covered_advance t st : cache_covered st -> cache_covered (advance t st).
Proof.
  intros Hc key. unfold covered, cache_of. cbn [fst snd].
  destruct (advance_fields t st) as (Hclock & Htimers & Hcache).
  rewrite Hclock, Htimers, Hcache, get_delete_all.
  destruct (existsb _ _) eqn:Hex; [intros [x Hx]; discriminate|].
  intros Hk. destruct (Hc key Hk) as (tm & Hin & Hv & Hd).
  assert (Hnot : due (Z.max (clock st) t) tm = false).
  { destruct (due (Z.max (clock st) t) tm) eqn:Hdue; [|reflexivity].
    assert (Htrue : existsb (fun tm0 => String.eqb (victim tm0) key)
                      (List.filter (due (Z.max (clock st) t)) (timers st)) = true).
    { apply existsb_exists. exists tm. split.
      - apply filter_In. split; assumption.
      - rewrite Hv. apply String.eqb_refl. }
    congruence. }
  exists tm. split.
  - apply filter_In. split; [exact Hin | rewrite Hnot; reflexivity].
  - split; [exact Hv|]. unfold due in Hnot. apply Z.leb_gt in Hnot. lia.
Qed.

Lemma covered_cache_empties t st :
  cache_covered st -> clock st + search_ttl <= t -> searchResults (advance t st) = [].
Proof.
  intros Hc Ht.
  destruct (searchResults (advance t st)) as [|[k v] m] eqn:Hm; [reflexivity|].
  exfalso.
  assert (Hk : JsMap.get k (searchResults (advance t st)) = Some v).
  { rewrite Hm. simpl. rewrite String.eqb_refl. reflexivity. }
  destruct (advance_fields t st) as (_ & _ & Hcache).
  rewrite Hcache, get_delete_all in Hk.
  destruct (existsb _ _) eqn:Hex; [discriminate|].
  destruct (Hc k) as (tm & Hin & Hv & Hd);
    [unfold cache_of; cbn [fst]; rewrite Hk; eauto|].
  cbn [cache_of snd] in Hin.
  assert (Htrue : existsb (fun tm0 => String.eqb (victim tm0) k)
                    (List.filter (due (Z.max (clock st) t)) (timers st)) = true).
  { apply existsb_exists. exists tm. split.
    - apply filter_In. split; [exact Hin|]. unfold due. apply Z.leb_le. lia.
    - rewrite Hv. apply String.eqb_refl. }
  congruence.
Qed.

Lemma run_inputs_covered rt W inputs : forall st tr,
  cache_covered st -> cache_covered (fst (run_inputs rt W (st, tr) inputs)).
Proof.
  induction inputs as [|i inputs IH]; intros st tr Hc; simpl; [exact Hc|].
  destruct (step_cases rt W st tr i)
    as [(t & -> & ->)|(st' & evs & stores & -> & Hst & Hshape & _)].
  - apply IH. apply cache_covered_advance. exact Hc.
  - apply IH. eapply cache_covered_stored; eauto.
Qed.

(** X6. The cache does not leak.  Start from a cache in which every
    entry has a pending timer due within ten minutes, an empty one for
    instance.  After any run, every entry still has such a timer; so once
    the clock is ten minutes past the end of the run, the cache is
    empty, whatever was searched and selected. *)
Theorem no_session_outlives_ten_minutes :
  forall (rt : Runtime) (W : World) (inputs : list Input) (st : State) (tr : Trace),
    cache_covered st ->
    cache_covered (fst (run_inputs rt W (st, tr) inputs))
    /\ (forall t,
          clock (fst (run_inputs rt W (st, tr) inputs)) + search_ttl <= t ->
          searchResults (advance t (fst (run_inputs rt W (st, tr) inputs))) = []).
Proof.
  intros rt W inputs st tr Hc.
  pose proof (run_inputs_covered rt W inputs st tr Hc) as H.
  split; [exact H|]. intros t Ht. apply covered_cache_empties; assumption.
Qed.

Lemma no_session_outlives_ten_minutes_witness :
  searchResults
    (advance 601000
       (fst (run_inputs Sample.runtime Sample.helpful (Sample.searched, [])
               [MessageEvent Scenario.reply_2; MessageEvent Scenario.reply_1])))
  = [].
Proof.
  apply (no_session_outlives_ten_minutes Sample.runtime Sample.helpful
           [MessageEvent Scenario.reply_2; MessageEvent Scenario.reply_1]
           Sample.searched []).
  - intros key. unfold covered, cache_of. cbn [fst snd].
    change (searchResults Sample.searched) with [("20.1", Sample.search_session)].
    change (timers Sample.searched) with [mkTimer 600000 "20.1"].
    change (clock Sample.searched) with 1000.
    cbn [JsMap.get].
    destruct (String.eqb_spec "20.1" key) as [<-|Hne];
      [|intros [x Hx]; discriminate Hx].
    intros _. exists (mkTimer 600000 "20.1"). cbn [deadline victim].
    split; [left; reflexivity|]. split; [reflexivity|]. unfold search_ttl. lia.
  - vm_compute. discriminate.
Defined.

(** ** Which handler writes which map *)

Lemma no_store_same_cache {A} (t : Task A) W st tr :
  caches_at 0 st t ->
  cache_of (state_of (t W st tr)) = cache_of st
  /\ clock (state_of (t W st tr)) = clock st.
Proof.
  intros H. destruct (H W tr) as (st' & evs & r & stores & Heq & Hst & _ & Hlen).
  destruct stores; [|simpl in Hlen; lia].
  destruct Hst as (Hclock & Hcache & _). rewrite Heq. simpl in *. auto.
Qed.

(** X7. Each map has its writers.  A turn that is not [/torrent],
    [/torrent-move] or a progress update leaves the metadata objects,
    [torrentMetadata] and [trackedTorrents] as they were; a turn that is
    not [/torrent-search], a message or a move of the clock leaves
    [searchResults], the timers and the clock as they were. *)
Theorem each_map_has_its_writers :
  forall (rt : Runtime) (W : World) (st : State) (tr : Trace) (i : Input),
    (writes_registries i = false ->
     registries_of (fst (step rt W (st, tr) i)) = registries_of st)
    /\ (writes_cache i = false ->
        cache_of (fst (step rt W (st, tr) i)) = cache_of st
        /\ clock (fst (step rt W (st, tr) i)) = clock st).
Proof.
  intros rt W st tr i. split; intros Hi.
  - destruct i; try discriminate Hi; unfold step, handler_of.
    + apply (torrent_location_command_registries command st W tr).
    + apply (torrent_search_command_registries command st W tr).
    + apply (on_message_registries rt message st W tr).
    + apply advance_registries.
  - destruct i; try discriminate Hi; unfold step, handler_of.
    + apply (no_store_same_cache _ W st tr), torrent_command_caches.
    + apply (no_store_same_cache _ W st tr), torrent_location_command_caches.
    + apply (no_store_same_cache _ W st tr), torrent_move_command_caches.
    + apply (no_store_same_cache _ W st tr), updateTorrentProgress_caches.
    + apply (no_store_same_cache _ W st tr), monitorProgress_caches.
Qed.

(** ** The completion message *)

Lemma notification_body_calls W st tr infoHash t md :
  isEnabled st = true -> client st = true ->
  trackedTorrents st !! infoHash = Some t ->
  objects st !! metadata t = Some md ->
  exists evs,
    notification_body infoHash W st tr = (st, tr ++ evs, Returned tt)
    /\ outward (calls evs)
       = [ReactionsRemove (md_channel md) (md_messageTs md) "hourglass_flowing_sand";
          ReactionsAdd (md_channel md) (md_messageTs md) "white_check_mark";
          ReactionsAdd (md_channel md) (md_messageTs md) (type_emoji (md_type md));
          PostMessage (md_channel md) (md_threadTs md) (DownloadComplete md)].
Proof.
  intros He Hc Ht Hmd. unfold notification_body. run_task.
  rewrite He, Hc, Ht, Hmd. cbn [negb orb].
  repeat match goal with
         | |- context [match w_reactions ?W ?h ?c with _ => _ end] =>
             destruct (w_reactions W h c)
         | |- context [match w_postMessage ?W ?h ?a ?b ?c with _ => _ end] =>
             destruct (w_postMessage W h a b c)
         end;
    repeat match goal with a : unit |- _ => destruct a end;
    eexists; rewrite <- !app_assoc; (split; [reflexivity|]); reflexivity.
Qed.

(** The calls of an update that completes a job. *)
Lemma updateTorrentProgress_announces :
  forall (W : World) (st : State) (tr : Trace) (infoHash : string) (p : Z)
         (t : Tracked) (md : Metadata),
    completes st infoHash p = true ->
    client st = true ->
    trackedTorrents st !! infoHash = Some t ->
    objects st !! metadata t = Some md ->
    outward (calls_made (updateTorrentProgress infoHash p) W st tr)
    = [EnterNotification infoHash;
       ReactionsRemove (md_channel md) (md_messageTs md) "hourglass_flowing_sand";
       ReactionsAdd (md_channel md) (md_messageTs md) "white_check_mark";
       ReactionsAdd (md_channel md) (md_messageTs md) (type_emoji (md_type md));
       PostMessage (md_channel md) (md_threadTs md) (DownloadComplete md)].
Proof.
  intros W st tr infoHash p t md Hcomp Hc Ht Hmd.
  unfold completes in Hcomp. rewrite Ht in Hcomp.
  apply andb_true_iff in Hcomp as [He Hjust].
  set (st2 := with_trackedTorrents <[infoHash := mkTracked p true (metadata t)]>
                (with_trackedTorrents <[infoHash := mkTracked p (notified t) (metadata t)]> st)).
  destruct (notification_body_calls W st2
              (tr ++ [mkEvent (EnterNotification infoHash) st2]) infoHash
              (mkTracked p true (metadata t)) md)
    as (evs & Hbody & Hcalls); try assumption.
  { unfold st2. simpl. apply lookup_insert_eq. }
  erewrite calls_made_of.
  2:{ unfold updateTorrentProgress, sendCompletionNotification. run_task.
      rewrite He, Ht. cbn [negb]. rewrite Hjust. fold st2.
      rewrite Hbody. rewrite <- app_assoc. reflexivity. }
  simpl. unfold outward in *. simpl. rewrite Hcalls. reflexivity.
Qed.

(** X8. When an update completes a job on a handler that has a client,
    the handler removes the hourglass from the message of the job, adds
    the check mark and the emoji of the type, and posts the completion
    message with the metadata of the job into the thread of the job: all
    four calls are made, in this order, whether or not the reactions
    fail.  The update returns, and leaves the job marked as notified,
    also when the post itself fails: a message that could not be posted
    is not sent again. *)
Theorem completion_is_announced_in_the_thread_of_the_job :
  forall (W : World) (st : State) (tr : Trace) (infoHash : string) (p : Z)
         (t : Tracked) (md : Metadata),
    completes st infoHash p = true ->
    client st = true ->
    trackedTorrents st !! infoHash = Some t ->
    objects st !! metadata t = Some md ->
    outward (calls_made (updateTorrentProgress infoHash p) W st tr)
    = [EnterNotification infoHash;
       ReactionsRemove (md_channel md) (md_messageTs md) "hourglass_flowing_sand";
       ReactionsAdd (md_channel md) (md_messageTs md) "white_check_mark";
       ReactionsAdd (md_channel md) (md_messageTs md) (type_emoji (md_type md));
       PostMessage (md_channel md) (md_threadTs md) (DownloadComplete md)]
    /\ result_of (updateTorrentProgress infoHash p W st tr) = Returned tt
    /\ notified_in (state_of (updateTorrentProgress infoHash p W st tr)) infoHash.
Proof.
  intros W st tr infoHash p t md Hcomp Hc Ht Hmd.
  split; [apply (updateTorrentProgress_announces W st tr infoHash p t md); assumption|].
  destruct (updateTorrentProgress_spec W st tr infoHash p) as (evs & Hrun & _).
  unfold result_of, state_of. rewrite Hrun. cbn [fst snd].
  split; [reflexivity|]. apply notified_after_completion. exact Hcomp.
Qed.

Lemma completion_is_announced_in_the_thread_of_the_job_witness :
  outward (calls_made
             (updateTorrentProgress "c0ffee00c0ffee00c0ffee00c0ffee00c0ffee00" 100)
             Sample.hostile Sample.one_job [])
  = [EnterNotification "c0ffee00c0ffee00c0ffee00c0ffee00c0ffee00";
     ReactionsRemove "C1" "10.1" "hourglass_flowing_sand";
     ReactionsAdd "C1" "10.1" "white_check_mark";
     ReactionsAdd "C1" "10.1" "clapper";
     PostMessage "C1" "10.1" (DownloadComplete Sample.bunny)].
Proof.
  apply (completion_is_announced_in_the_thread_of_the_job
           Sample.hostile Sample.one_job []
           "c0ffee00c0ffee00c0ffee00c0ffee00c0ffee00" 100
           (mkTracked 40 false 0%nat) Sample.bunny);
    reflexivity.
Defined.

(** ** Adding a job with [/torrent] *)







(** ** A job that was moved *)










(** ** Searching *)



(** ** Texts *)

Lemma str_app_nil_r (s : string) : (s ++ "")%string = s.
Proof.
  induction s as [|c s IH]; [reflexivity | rewrite append_cons, IH; reflexivity].
Qed.

Lemma str_app_assoc (a b c : string) : ((a ++ b) ++ c)%string = (a ++ b ++ c)%string.
Proof.
  induction a as [|x a IH]; [reflexivity | rewrite !append_cons, IH; reflexivity].
Qed.

Lemma str_length_app (a b : string) :
  String.length (a ++ b)%string = (String.length a + String.length b)%nat.
Proof.
  induction a as [|x a IH]; [reflexivity | rewrite append_cons; simpl; rewrite IH; reflexivity].
Qed.

Lemma take_app (m rest : string) : Str.take (String.length m) (m ++ rest)%string = m.
Proof.
  unfold Str.take. induction m as [|c m IH].
  - destruct rest; reflexivity.
  - rewrite append_cons. simpl. rewrite IH. reflexivity.
Qed.

Lemma take_matched (m rest : string) :
  Str.take (String.length (m ++ rest)%string - String.length rest)%nat (m ++ rest)%string = m.
Proof.
  rewrite str_length_app.
  replace (String.length m + String.length rest - String.length rest)%nat
    with (String.length m) by lia.
  apply take_app.
Qed.

(** ** What a match is *)



Lemma append_nil_l (s : string) : ("" ++ s)%string = s.
Proof. reflexivity. Qed.

Lemma all_chars_app p (a b : string) :
  all_chars p (a ++ b)%string = all_chars p a && all_chars p b.
Proof.
  induction a as [|c a IH]; [reflexivity|].
  rewrite append_cons. simpl. rewrite IH. apply andb_assoc.
Qed.





(** ** The words of an "add" reply *)












(** The same words given to [/torrent] are refused. *)
Example torrent_refuses_general :
  calls_made
    (torrent_command Sample.decode
       (mkCommand "magnet:?xt=urn:btih:c0ffee00c0ffee00 general /media/other"
                  "C1" None "U1" "ann"))
    Sample.helpful Sample.fresh []
  = [Ack; Say InvalidType None].
Proof. vm_compute. reflexivity. Qed.

(** ** Links in texts *)




(** The matcher on a class repeated: it takes the longest start in the
    class when the continuation accepts what is left. *)
Lemma run_star_greedy p s cs k out :
  k (drop_while p s) cs = Some out ->
  Regex.run (Regex.Star (Regex.Chr p)) s cs k = Some out.
Proof.
  cbn [Regex.run].
  assert (Hn : (String.length s <= String.length s)%nat) by lia.
  revert Hn. generalize (String.length s) at 2 3 as n.
  intros n. revert s cs. induction n as [|n IH]; intros s cs Hn Hk.
  - destruct s; [exact Hk | simpl in Hn; lia].
  - destruct s as [|c s]; [exact Hk|].
    cbn [drop_while] in Hk. cbn [Regex.run]. destruct (p c) eqn:Hp.
    + assert (Hlt : (String.length s <? String.length (String c s))%nat = true).
      { apply Nat.ltb_lt. simpl. lia. }
      rewrite Hlt. rewrite IH; [reflexivity | simpl in Hn; lia | exact Hk].
    + exact Hk.
Qed.

Lemma run_word_i w : forall m s cs k,
  Str.toLowerCase m = w ->
  Regex.run (Regex.word_i w) (m ++ s)%string cs k = k s cs.
Proof.
  induction w as [|c w IH]; intros m s cs k H.
  - destruct m; [reflexivity | discriminate].
  - destruct m as [|d m]; [discriminate|]. simpl in H. injection H as Hc Hw.
    rewrite append_cons. cbn [Regex.word_i Regex.run].
    rewrite Hc, Ascii.eqb_refl. apply IH. exact Hw.
Qed.

Lemma drop_while_all p (b after : string) :
  all_chars p b = true -> stops p after -> drop_while p (b ++ after)%string = after.
Proof.
  intros Hb Ha. induction b as [|c b IH].
  - destruct after as [|c a]; [reflexivity|]. simpl in *. rewrite Ha. reflexivity.
  - simpl in Hb. apply andb_true_iff in Hb as [Hc Hb].
    rewrite append_cons. simpl. rewrite Hc. auto.
Qed.



Lemma run_seq r1 r2 s cs k :
  Regex.run (Regex.Seq r1 r2) s cs k
  = Regex.run r1 s cs (fun s' cs' => Regex.run r2 s' cs' k).
Proof. reflexivity. Qed.

Lemma run_group g r s cs k :
  Regex.run (Regex.Group g r) s cs k
  = Regex.run r s cs (fun s' cs' =>
      k s' ((g, Str.take (String.length s - String.length s')%nat s) :: cs')).
Proof. reflexivity. Qed.

Lemma run_chr p c s cs k :
  Regex.run (Regex.Chr p) (String c s) cs k = if p c then k s cs else None.
Proof. reflexivity. Qed.

Lemma run_plus_greedy p c s cs k out :
  p c = true ->
  k (drop_while p s) cs = Some out ->
  Regex.run (Regex.Plus (Regex.Chr p)) (String c s) cs k = Some out.
Proof.
  intros Hc Hk. unfold Regex.Plus. rewrite run_seq, run_chr, Hc.
  apply run_star_greedy. exact Hk.
Qed.





(** ** The name of a torrent *)

Lemma dn_search_skips before : forall s,
  all_chars not_amp before = true ->
  regex_search dn_pattern (before ++ s)%string = regex_search dn_pattern s.
Proof.
  induction before as [|x before IH]; intros s H; [reflexivity|].
  simpl in H. apply andb_true_iff in H as [Hx H].
  rewrite append_cons. cbn [regex_search].
  replace (Regex.exec dn_pattern (String x (before ++ s))) with (@None Regex.captures).
  - apply IH. exact H.
  - unfold Regex.exec, dn_pattern, exact. rewrite run_seq, run_chr.
    unfold not_amp in Hx. apply negb_true_iff in Hx.
    rewrite eqb_sym, Hx. reflexivity.
Qed.

Lemma dn_search_fails s :
  all_chars not_amp s = true -> regex_search dn_pattern s = None.
Proof.
  intros H. rewrite <- (str_app_nil_r s), (dn_search_skips _ _ H). reflexivity.
Qed.

Lemma btih_search_skips before : forall s,
  all_chars (fun c => negb (Ascii.eqb (Str.lower_ascii c) "b")) before = true ->
  regex_search btih_pattern (before ++ s)%string = regex_search btih_pattern s.
Proof.
  induction before as [|x before IH]; intros s H; [reflexivity|].
  simpl in H. apply andb_true_iff in H as [Hx H].
  rewrite append_cons. cbn [regex_search].
  replace (Regex.exec btih_pattern (String x (before ++ s))) with (@None Regex.captures).
  - apply IH. exact H.
  - unfold Regex.exec, btih_pattern. rewrite run_seq.
    cbn [Regex.word_i]. rewrite run_seq, run_chr.
    apply negb_true_iff in Hx. rewrite Hx. reflexivity.
Qed.

Lemma regex_search_here r s cs :
  Regex.exec r s = Some cs -> regex_search r s = Some cs.
Proof. intros H. destruct s; cbn [regex_search]; rewrite H; reflexivity. Qed.

(** X18. The name [extractTorrentName] gives a link.  When the first [&]
    of the link starts a parameter [&dn=], the name is what
    [decodeURIComponent] makes of the value of that parameter, up to the
    next [&], with every [+] read as a space; if the value cannot be
    decoded the name is [Unknown Torrent] and nothing is thrown.  When
    the link has no [&] at all and is [magnet:?xt=urn:btih:] followed by
    a hash, the name is [Torrent] and the first eight characters of the
    hash. *)
Theorem extractTorrentName_reads_the_name_or_the_hash :
  forall (decode : string -> option string),
    (forall (before : string) (c : ascii) (name after : string),
        all_chars not_amp before = true ->
        all_chars not_amp (String c name) = true ->
        stops not_amp after ->
        extractTorrentName decode (before ++ "&dn=" ++ String c name ++ after)%string
        = decoded_name decode (String c name))
    /\ (forall (c : ascii) (hash after : string),
          is_alnum c = true ->
          all_chars is_alnum hash = true ->
          stops is_alnum after ->
          all_chars not_amp after = true ->
          extractTorrentName decode ("magnet:?xt=urn:btih:" ++ String c hash ++ after)%string
          = ("Torrent " ++ Str.take 8 (String c hash))%string).
Proof.
  intros decode. split.
  - intros before c name after Hbefore Hname Hafter.
    unfold extractTorrentName, decoded_name.
    rewrite (dn_search_skips _ _ Hbefore).
    simpl in Hname. apply andb_true_iff in Hname as [Hc Hname].
    rewrite (regex_search_here _ _ [(1%nat, String c name)]); [reflexivity|].
    unfold Regex.exec, dn_pattern, exact.
    rewrite !append_cons, append_nil_l.
    rewrite run_seq, run_chr. cbn [Ascii.eqb Bool.eqb].
    rewrite run_seq, run_chr. cbn [Ascii.eqb Bool.eqb].
    rewrite run_seq, run_chr. cbn [Ascii.eqb Bool.eqb].
    rewrite run_seq, run_chr. cbn [Ascii.eqb Bool.eqb].
    rewrite run_group. apply (run_plus_greedy not_amp); [exact Hc|].
    rewrite (drop_while_all _ _ _ Hname Hafter).
    rewrite <- append_cons, take_matched. reflexivity.
  - intros c hash after Hc Hhash Hstop Hafter.
    unfold extractTorrentName.
    rewrite dn_search_fails.
    2:{ change ("magnet:?xt=urn:btih:" ++ String c hash ++ after)%string
          with ("magnet:?xt=urn:btih:" ++ (String c hash ++ after))%string.
        rewrite all_chars_app, all_chars_app, Hafter, andb_true_r.
        apply andb_true_iff. split; [reflexivity|].
        cbn [all_chars]. apply andb_true_iff. split.
        - destruct c as [[] [] [] [] [] [] [] []]; vm_compute in Hc |- *; congruence.
        - clear -Hhash. induction hash as [|x hash IH]; [reflexivity|].
          simpl in *. apply andb_true_iff in Hhash as [Hx Hhash].
          rewrite (IH Hhash), andb_true_r.
          destruct x as [[] [] [] [] [] [] [] []]; vm_compute in Hx |- *; congruence. }
    change ("magnet:?xt=urn:btih:" ++ String c hash ++ after)%string
      with ("magnet:?xt=urn:" ++ ("btih:" ++ String c hash ++ after))%string.
    rewrite btih_search_skips by reflexivity.
    rewrite (regex_search_here _ _ [(1%nat, String c hash)]); [reflexivity|].
    unfold Regex.exec, btih_pattern. rewrite run_seq.
    rewrite (run_word_i "btih:" "btih:") by reflexivity.
    rewrite run_group, append_cons. apply run_plus_greedy; [exact Hc|].
    rewrite (drop_while_all _ _ _ Hhash Hstop).
    rewrite <- append_cons, take_matched. reflexivity.
Qed.

Example names_of_links :
  extractTorrentName Sample.decode
    "magnet:?xt=urn:btih:c0ffee00c0ffee00&dn=Big+Buck+Bunny&tr=udp://tracker"
  = "Big Buck Bunny"
  /\ extractTorrentName Sample.decode "magnet:?xt=urn:btih:c0ffee00c0ffee00c0ff"
     = "Torrent c0ffee00"
  /\ extractTorrentName (fun _ => None) "magnet:?xt=urn:btih:c0ffee00&dn=100%"
     = "Unknown Torrent".
Proof. vm_compute. repeat split. Qed.

(** ** The words of a command *)

Lemma trimEnd_cons c s :
  Str.trimEnd (String c s)
  = match Str.trimEnd s with
    | EmptyString => if Str.is_space c then EmptyString else String c EmptyString
    | r => String c r
    end.
Proof. reflexivity. Qed.


















Lemma trimStart_started s : starts_a_word s = true -> Str.trimStart s = s.
Proof.
  destruct s as [|c s]; [reflexivity|]. simpl. unfold no_space.
  intros H. apply negb_true_iff in H. rewrite H. reflexivity.
Qed.



Example a_destination_with_a_gap :
  move_arguments "  c0ff   /media/my   films " = ("c0ff", "/media/my films").
Proof. vm_compute. reflexivity. Qed.

(** ** What [/torrent] hands to the torrent handler *)







(** ** When the monitor sees a job complete *)





(** ** From a number to a torrent *)






(** When a link was waiting in the channel already, it is the older link
    that is added: here the first reply chose the result 1, the second
    the result 2, and "add" adds the result 1. *)
Example the_older_link_is_added :
  List.filter (fun c => match c with TorrentHandler _ _ _ => true | _ => false end)
    (calls (snd (run_inputs Sample.runtime Posts.finding (Sample.searched, [])
                   [MessageEvent Scenario.reply_1; MessageEvent Scenario.reply_2;
                    MessageEvent Scenario.add_movie])))
  = [TorrentHandler "magnet:?xt=urn:btih:c0ffee00c0ffee00c0ffee00c0ffee00c0ffee00"
                    (Some "movie") None].
Proof. vm_compute. reflexivity. Qed.

(* ===================================================================== *)
(** * Properties of the rest of the class *)
(* ===================================================================== *)

Ltac run_act :=
  unfold Rest.ack, Rest.say, Rest.log;
  unfold mbind, Rest.act_bind, mret, Rest.act_ret;
  unfold Rest.bind, Rest.try_catch, Rest.get, Rest.modify, Rest.perform, Rest.ret;
  cbv zeta.

(** ** Starting the bot *)


(** ** Plain notifications *)

(** X24. [sendNotification] never throws, writes no field, and returns
    [true] exactly when the handler is enabled, has a client, and the
    message was posted without an error.  On a handler that is disabled or
    has no client it posts nothing. *)
Theorem sendNotification_tells_whether_it_posted :
  forall (S : Rest.Surroundings) (h : Rest.Handler) (hs : Rest.History)
         (channel message : string),
    let ready := isEnabled (Rest.core h) && client (Rest.core h) in
    let posted := match Rest.s_post S hs channel message with
                  | Returned _ => true
                  | Thrown _ => false
                  end in
    exists evs,
      Rest.sendNotification channel message S h hs
      = (h, hs ++ evs, Returned (ready && posted))
      /\ (ready = false -> evs = [])
      /\ (ready = true ->
          exists logs, evs = Rest.DoPost channel message :: logs
                       /\ Forall (fun c => exists label, c = Rest.DoLog label) logs).
Proof.
  intros S h hs channel message. cbv zeta. unfold Rest.sendNotification. run_act.
  destruct (isEnabled (Rest.core h)); destruct (client (Rest.core h));
    cbn [negb orb andb];
    try (exists []; rewrite app_nil_r; repeat split; auto; discriminate).
  destruct (Rest.s_post S hs channel message) as [[]|e].
  - exists [Rest.DoPost channel message]. repeat split; [discriminate|].
    intros _. exists []. split; [reflexivity | constructor].
  - eexists [_; _]. rewrite <- app_assoc. repeat split; [discriminate|].
    intros _. eexists [_]. split; [reflexivity|]. repeat constructor. eauto.
Qed.

(** A handler that was just constructed posts nothing, and neither does
    one whose [initialize] found no token. *)
Example no_token_no_notification :
  let S := Rest.mkSurroundings (fun _ => Returned tt) (fun _ _ _ => Returned tt)
             (fun _ => Returned None)
             (fun _ _ => Returned (Rest.mkCleared None None None None))
             (fun _ _ _ => Returned tt) (fun _ => Returned tt) (fun _ => Returned tt)
             (fun _ => Returned tt) in
  let started := Rest.initialize (Rest.mkEnv None (Some "secret") None None)
                                 S Rest.constructed [] in
  started = (Rest.constructed, [], Returned false)
  /\ Rest.sendNotification "C1" "hello" S (fst (fst started)) (snd (fst started))
     = (Rest.constructed, [], Returned false).
Proof. vm_compute. split; reflexivity. Qed.

(** ** Listing torrents *)

Lemma rows_from_lookup st (ts : list Rest.Listed) : forall k i t,
  ts !! i = Some t ->
  Rest.rows_from st k ts !! i = Some (Rest.row_of st (k + i) t).
Proof.
  induction ts as [|t0 ts IH]; intros k i t H; [discriminate|].
  destruct i as [|i]; simpl in *.
  - injection H as ->. rewrite Nat.add_0_r. reflexivity.
  - rewrite (IH (S k) i t H). f_equal. f_equal. lia.
Qed.

Lemma rows_from_length st (ts : list Rest.Listed) : forall k,
  length (Rest.rows_from st k ts) = length ts.
Proof. induction ts as [|t ts IH]; intros k; simpl; [reflexivity | rewrite IH; reflexivity]. Qed.

(** X25. What [/torrent-list] shows.  When the list handler answers with
    torrents, the handler sends one listing with a row for each torrent,
    in the order of the answer and numbered from 1.  The location of a row
    is the destination that [torrentMetadata] has for the torrent's
    info-hash at that moment; a torrent that was never registered, one
    added from a message for instance, is shown with the folder icon at
    the location [Unknown], and is no error.  The command writes no field. *)
Theorem torrent_list_shows_the_registry :
  forall (S : Rest.Surroundings) (h : Rest.Handler) (hs : Rest.History)
         (command : Command) (ts : list Rest.Listed),
    Rest.s_ack S hs = Returned tt ->
    Rest.torrentListHandler h = true ->
    Rest.s_list S (hs ++ [Rest.DoAck]) = Returned (Some ts) ->
    ts <> [] ->
    exists rows rest r,
      Rest.torrent_list_command command S h hs
      = (h,
         hs ++ Rest.DoAck :: Rest.DoList
            :: Rest.DoSay (Rest.ActiveTorrents (length ts) rows) (c_thread_ts command)
            :: rest,
         r)
      /\ length rows = length ts
      /\ (forall i t,
            ts !! i = Some t ->
            exists row,
              rows !! i = Some row
              /\ Rest.row_number row = (i + 1)%nat
              /\ Rest.row_name row = or_else_opt (Rest.l_name t) "Unknown"
              /\ Rest.row_location row
                 = match Rest.l_infoHash t ≫= metadata_of (Rest.core h) with
                   | Some md => or_else (md_destination md) "Unknown"
                   | None => "Unknown"
                   end
              /\ (Rest.l_infoHash t ≫= metadata_of (Rest.core h) = None ->
                  Rest.row_icon row = Rest.Folder)).
Proof.
  intros S h hs command ts Hack Hset Hlist Hne.
  exists (Rest.rows_from (Rest.core h) 0 ts).
  assert (Hrun : exists rest r,
             Rest.torrent_list_command command S h hs
             = (h,
                hs ++ Rest.DoAck :: Rest.DoList
                   :: Rest.DoSay (Rest.ActiveTorrents (length ts)
                                    (Rest.rows_from (Rest.core h) 0 ts))
                                 (c_thread_ts command)
                   :: rest,
                r)).
  { unfold Rest.torrent_list_command. run_act. rewrite Hack, Hset. cbn [negb].
    rewrite Hlist. destruct ts as [|t ts]; [contradiction|].
    match goal with
    | |- context [Rest.s_say S ?x ?b ?t] => destruct (Rest.s_say S x b t) as [[]|e]
    end.
    - exists [], (Returned tt). rewrite <- !app_assoc. reflexivity.
    - eexists [_; _], _. rewrite <- !app_assoc. reflexivity. }
  destruct Hrun as (rest & r & Hrun). exists rest, r.
  split; [exact Hrun|]. split; [apply rows_from_length|].
  intros i t Hi. exists (Rest.row_of (Rest.core h) i t).
  split; [apply (rows_from_lookup _ ts 0 i t Hi)|].
  unfold Rest.row_of, Rest.location_of, Rest.known, Rest.icon_of. cbn.
  repeat split. intros ->. reflexivity.
Qed.

Lemma torrent_list_shows_the_registry_witness :
  exists rows rest r,
    Rest.torrent_list_command Around.list_command Around.obliging Around.running []
    = (Around.running,
       [] ++ Rest.DoAck :: Rest.DoList
          :: Rest.DoSay (Rest.ActiveTorrents 2 rows) None :: rest,
       r)
    /\ rows !! 1%nat
       = Some (Rest.mkRow 2 Rest.Folder "Unknown" (0 # 1) "Unknown" (Some "badc0de0")).
Proof.
  destruct (torrent_list_shows_the_registry
              Around.obliging Around.running [] Around.list_command Around.engine_list)
    as (rows & rest & r & Hrun & _ & Hrows);
    [reflexivity | reflexivity | reflexivity | discriminate |].
  exists rows, rest, r. split; [exact Hrun|].
  vm_compute in Hrun. injection Hrun as <- <- <-. reflexivity.
Defined.

(** ** Clearing the cache *)




Example seven_removed_five_shown :
  Rest.summary_of (Some Around.seven_names)
  = Some (Rest.mkSummary [(1, "one"); (2, "two"); (3, "three"); (4, "four"); (5, "five")]%nat
                         (Some 2%nat)).
Proof. reflexivity. Qed.

(** ** The registries over a run *)

(** X27. The registries stay in order.  Say they are in order when every
    reference in [torrentMetadata] names a metadata object and every
    entry of [trackedTorrents] holds the object that [torrentMetadata] has
    for its id; the empty registries of a new handler are.  Whatever
    runs after that, they stay in order; so a hash that resolves always
    has its metadata, and a tracked job always has its object, the one
    [/torrent-location] shows and [/torrent-move] writes.  The branches
    in which [metadata] would be [undefined] are never taken. *)
Theorem the_registries_stay_in_order :
  forall (rt : Runtime) (W : World) (inputs : list Input) (st : State) (tr : Trace),
    registries_in_order st ->
    registries_in_order (fst (run_inputs rt W (st, tr) inputs))
    /\ (forall hash infoHash,
          resolve (torrentMetadata (fst (run_inputs rt W (st, tr) inputs))) hash
          = Some infoHash ->
          exists md,
            metadata_of (fst (run_inputs rt W (st, tr) inputs)) infoHash = Some md)
    /\ (forall infoHash t,
          trackedTorrents (fst (run_inputs rt W (st, tr) inputs)) !! infoHash = Some t ->
          exists md,
            objects (fst (run_inputs rt W (st, tr) inputs)) !! metadata t = Some md
            /\ metadata_of (fst (run_inputs rt W (st, tr) inputs)) infoHash = Some md).
Proof.
  intros rt W inputs st tr Hst.
  pose proof (run_inputs_in_order rt W inputs st tr Hst) as Hord.
  split; [exact Hord|]. split.
  - intros hash infoHash Hres. eapply resolved_job_has_metadata; eauto.
  - intros infoHash t Ht.
    pose proof (tracked_job_shares_metadata _ _ _ Hord Ht) as Hshare.
    destruct Hord as [Hrefs Hagree].
    pose proof (Hagree _ _ Ht) as Hget.
    destruct (lookup_lt_is_Some_2 _ _ (Hrefs _ _ Hget)) as [md Hmd].
    exists md. split; [exact Hmd | rewrite <- Hshare; exact Hmd].
Qed.

Lemma the_registries_stay_in_order_witness :
  registries_in_order
    (fst (run_inputs Sample.runtime Sample.helpful (Sample.fresh, [])
            [TorrentCommand Posts.add_bunny; TorrentMoveCommand Posts.move_bunny;
             UpdateProgress "c0ffee00c0ffee00c0ffee00c0ffee00c0ffee00" 100])).
Proof.
  apply (the_registries_stay_in_order Sample.runtime Sample.helpful _ Sample.fresh []).
  apply empty_registries_in_order; reflexivity.
Defined.

(** ** The check of [/torrent] *)

Lemma trimEnd_nonspace c s :
  Str.is_space c = false -> exists r, Str.trimEnd (String c s) = String c r.
Proof.
  intros Hc. rewrite trimEnd_cons. destruct (Str.trimEnd s); [rewrite Hc|]; eauto.
Qed.

Lemma trimEnd_keeps (a : string) c s :
  Str.is_space c = false ->
  Str.trimEnd (a ++ String c s)%string = (a ++ Str.trimEnd (String c s))%string.
Proof.
  intros Hc. induction a as [|x a IH]; [reflexivity|].
  rewrite !append_cons, trimEnd_cons, IH.
  destruct (trimEnd_nonspace c s Hc) as [r ->].
  destruct (a ++ String c r)%string eqn:Har; [|reflexivity].
  destruct a; discriminate Har.
Qed.

(** X28. The check of [/torrent] looks at the start of the link only: a
    text that starts with [magnet:?xt=urn:btih:] is a valid magnet link
    whatever follows, and also when nothing does, so a link without a
    hash passes. *)
Theorem isValidMagnetLink_looks_at_the_start :
  forall (rest : string),
    isValidMagnetLink ("magnet:?xt=urn:btih:" ++ rest)%string = true.
Proof.
  intros rest. unfold isValidMagnetLink.
  apply andb_true_iff. split; [apply andb_true_iff; split|].
  - reflexivity.
  - unfold Str.trim.
    rewrite (trimStart_started ("magnet:?xt=urn:btih:" ++ rest)%string) by reflexivity.
    change ("magnet:?xt=urn:btih:" ++ rest)%string
      with ("magnet:?xt=urn:btih" ++ String ":" rest)%string.
    rewrite trimEnd_keeps by reflexivity.
    apply startsWith_spec. eexists. 
    change "magnet:?xt=urn:btih" with ("magnet:?" ++ "xt=urn:btih")%string.
    rewrite str_app_assoc. reflexivity.
  - rewrite !append_cons, append_nil_l.
    do 8 (cbn [Str.includes]; apply orb_true_iff; right).
    cbn [Str.includes]. apply orb_true_iff. left.
    apply startsWith_spec. exists rest. reflexivity.
Qed.

(** Such a link is no link for the listener of messages, which wants a
    letter or a digit after the scheme. *)
Example a_link_without_a_hash :
  isValidMagnetLink "magnet:?xt=urn:btih:" = true
  /\ extractMagnetLink "magnet:?xt=urn:btih:" = None.
Proof. vm_compute. split; reflexivity. Qed.
